(** * Logger: record dispatch, handlers and file rotation

    A shallow embedding of the JavaScript logging library
    (Logger.js, handlers.js, formatters.js) and the properties of its
    dispatch pipeline, child cache, rotation and JSON rendering.

    Conventions of the embedding
    - A number value is named by its sign, its decimal digits and the
      place of its point, which is how [String] and [JSON.stringify]
      write it; times and levels are integers ([Z]). Strings are byte
      strings, so the byte length of a written line is [String.length].
    - Values are data: [undefined], [null], booleans, numbers, strings
      and objects whose properties hold such values. An object has the
      prototype of an object literal and no own property named
      [toString], so that [String] of it is [[object Object]].
    - A value is not shared: what [exception] adds to the context it is
      given is in the record it logs, not in a record logged before with
      the same object.
    - Objects that the program shares and mutates (Logger and Handler
      instances) live in a store and are named by their index; a handler
      list holds references, as the JavaScript arrays do.
    - Methods are state transformers over [World] that either return or
      throw ([M]); [try]/[catch] is [try_catch].
    - Write streams are synchronous: opening creates the file, a write
      appends to it and advances [bytesWritten] at once.
    - The log file lives in one directory; a file is named by its path. *)

From Stdlib Require Import Ascii String ZArith.
From stdpp Require Import gmap strings list pretty sorting.

Local Open Scope string_scope.
Local Open Scope list_scope.
Local Open Scope Z_scope.
Set Warnings "-register-all".

(** ** Numbers *)

Fixpoint repeat_char (c : ascii) (n : nat) : string :=
  match n with
  | O => ""
  | S n' => String c (repeat_char c n')
  end.

Fixpoint take_string (n : nat) (s : string) : string :=
  match n, s with
  | S n', String c rest => String c (take_string n' rest)
  | _, _ => ""
  end.

Fixpoint drop_string (n : nat) (s : string) : string :=
  match n, s with
  | S n', String _ rest => drop_string n' rest
  | _, _ => s
  end.

Definition digit_of (c : ascii) : option Z :=
  let n := N_of_ascii c in
  if ((48 <=? n) && (n <=? 57))%N then Some (Z.of_N n - 48) else None.

(** Read the longest run of decimal digits at the start of [s], on top of
    the value [acc] read so far; return the value and the rest of [s]. *)
Fixpoint read_digits (acc : Z) (s : string) : Z * string :=
  match s with
  | EmptyString => (acc, "")
  | String c rest =>
      match digit_of c with
      | Some d => read_digits (10 * acc + d) rest
      | None => (acc, s)
      end
  end.

Definition is_digit (c : ascii) : bool :=
  match digit_of c with Some _ => true | None => false end.

Fixpoint all_digits (s : string) : bool :=
  match s with
  | String c rest => is_digit c && all_digits rest
  | EmptyString => true
  end.

(** A number value: not-a-number, an infinity, a zero with its sign, or a
    finite number other than zero. A finite number is held the way
    [Number::toString] reads it: its sign, the digits of its shortest
    decimal form, which end in no zero, as the number [mantissa] they
    spell, and the place of the decimal point, so that the number is
    [0.digits * 10^point]. So 12.5 has the mantissa 125 and the point at
    2, 500 has the mantissa 5 and the point at 3, and 1e21 has the
    mantissa 1 and the point at 22. The digits name the number; no
    arithmetic is done on it, and neither the count of the digits nor the
    point is bounded as those of a double are. *)
Inductive Number :=
  | NaN
  | Infinity (negative : bool)
  | Zero (negative : bool)
  | Decimal (negative : bool) (mantissa : positive) (point : Z).

(** The zeros at the start of a string of digits: the string without
    them, and how many they were. *)
Fixpoint strip_leading_zeros (s : string) : string * Z :=
  match s with
  | String c rest =>
      if Ascii.eqb c "0" then
        let '(r, z) := strip_leading_zeros rest in (r, z + 1)
      else (s, 0)
  | EmptyString => ("", 0)
  end.

Fixpoint strip_trailing_zeros (s : string) : string :=
  match s with
  | String c rest =>
      match strip_trailing_zeros rest with
      | EmptyString => if Ascii.eqb c "0" then "" else String c ""
      | r => String c r
      end
  | EmptyString => ""
  end.

(** The number [0.digits * 10^point] with the given sign, for any string
    of digits. *)
Definition decimal (negative : bool) (digits : string) (point : Z) : Number :=
  let '(s, z) := strip_leading_zeros digits in
  match strip_trailing_zeros s with
  | EmptyString => Zero negative
  | s' => Decimal negative (Z.to_pos (fst (read_digits 0 s'))) (point - z)
  end.

(** An integer as a number value. *)
Definition Int (z : Z) : Number :=
  let s := pretty (Z.abs z) in
  decimal (z <? 0) s (Z.of_nat (String.length s)).

Coercion Int : Z >-> Number.

(** The text of a positive number with the digits [s] and the point at
    [n], as [Number::toString] writes it: with [k] digits, the digits
    followed by zeros when [k <= n <= 21], the digits with a point among
    them when [0 < n <= 21], the digits after [0.] and zeros when
    [-6 < n <= 0], and the exponent form otherwise. *)
Definition decimal_text (s : string) (n : Z) : string :=
  let k := Z.of_nat (String.length s) in
  if (k <=? n) && (n <=? 21) then
    s +:+ repeat_char "0" (Z.to_nat (n - k))
  else if (0 <? n) && (n <=? 21) then
    take_string (Z.to_nat n) s +:+ "." +:+ drop_string (Z.to_nat n) s
  else if (-6 <? n) && (n <=? 0) then
    "0." +:+ repeat_char "0" (Z.to_nat (- n)) +:+ s
  else
    (match s with
     | String d (String d' rest) => String d ("." +:+ String d' rest)
     | _ => s
     end) +:+
    "e" +:+ (if 0 <? n - 1 then "+" else "-") +:+ pretty (Z.abs (n - 1)).

(** [Number::toString(x)], which [String(x)] and a template literal
    use. *)
Definition Number_toString (x : Number) : string :=
  match x with
  | NaN => "NaN"
  | Infinity negative => if negative then "-Infinity" else "Infinity"
  | Zero _ => "0"
  | Decimal negative m n =>
      (if negative then "-" else "") +:+ decimal_text (pretty (Z.pos m)) n
  end.

(** ** Values *)

(** The arguments a caller passes after the message, and the fields of a
    record's [extra]: JavaScript values. An object is the list of its own
    enumerable entries, with distinct keys, in the order in which
    [Object.entries] and [JSON.stringify] go through them. *)
Inductive value :=
  | VUndef
  | VNull
  | VBool (b : bool)
  | VNum (x : Number)
  | VStr (s : string)
  | VObj (fields : list (string * value)).

(** [String(v)], as a template literal or [String.prototype.replace]
    converts a value. *)
Definition toString (v : value) : string :=
  match v with
  | VUndef => "undefined"
  | VNull => "null"
  | VBool true => "true"
  | VBool false => "false"
  | VNum x => Number_toString x
  | VStr s => s
  | VObj _ => "[object Object]"
  end.

(** Truthiness, as [if (v)] tests it. *)
Definition truthy (v : value) : bool :=
  match v with
  | VUndef | VNull => false
  | VBool b => b
  | VNum x => match x with NaN | Zero _ => false | _ => true end
  | VStr s => negb (String.eqb s "")
  | VObj _ => true
  end.

(** Property lookup in an entry list. *)
Fixpoint assoc (k : string) (fields : list (string * value)) : option value :=
  match fields with
  | [] => None
  | (k', v) :: rest => if String.eqb k k' then Some v else assoc k rest
  end.

(** An array index: the decimal text, without a superfluous zero, of an
    integer from 0 to [2^32 - 2]. *)
Definition array_index (k : string) : option Z :=
  match k with
  | EmptyString => None
  | String c rest =>
      if all_digits k && (negb (Ascii.eqb c "0") || String.eqb rest "") then
        let i := fst (read_digits 0 k) in
        if i <=? 4294967294 then Some i else None
      else None
  end.

(** The value of a key that is there is replaced where it is. *)
Fixpoint obj_replace (k : string) (v : value) (fields : list (string * value))
  : list (string * value) :=
  match fields with
  | [] => []
  | (k', v') :: rest =>
      if String.eqb k k' then (k, v) :: rest else (k', v') :: obj_replace k v rest
  end.

(** A new key that is the array index [i] goes after the smaller array
    indices, before the other keys. *)
Fixpoint obj_insert_index (i : Z) (k : string) (v : value)
    (fields : list (string * value)) : list (string * value) :=
  match fields with
  | [] => [(k, v)]
  | (k', v') :: rest =>
      match array_index k' with
      | Some j =>
          if j <? i then (k', v') :: obj_insert_index i k v rest
          else (k, v) :: fields
      | None => (k, v) :: fields
      end
  end.

(** Defining the own property [k] of an object: an existing key keeps its
    position; a new key goes last, unless it is an array index, which is
    listed with the array indices, in ascending order before the other
    keys. *)
Definition obj_set (k : string) (v : value) (fields : list (string * value))
  : list (string * value) :=
  match assoc k fields with
  | Some _ => obj_replace k v fields
  | None =>
      match array_index k with
      | Some i => obj_insert_index i k v fields
      | None => fields ++ [(k, v)]
      end
  end.

(** [obj[k] = v] on an object that an object literal made. Such an
    object inherits the accessor [__proto__] of [Object.prototype], so an
    assignment to that key reaches the accessor, which sets the prototype
    or does nothing, and the object gets no property of that name. The
    prototype is no part of a value: [JSON.stringify] writes own
    properties only. *)
Definition obj_assign (k : string) (v : value) (fields : list (string * value))
  : list (string * value) :=
  if String.eqb k "__proto__" then fields else obj_set k v fields.

(** ** Exceptions and the state monad *)

(** What the library throws: [Error] objects ([new Error(msg)], and the
    [TypeError]s of the runtime), each with a [message]. *)
Inductive exn := Error (message : string).

Definition exn_message (e : exn) : string := let 'Error m := e in m.

Inductive result (A : Type) :=
  | Ok (a : A)
  | Throw (e : exn).
Arguments Ok {A} a.
Arguments Throw {A} e.

(** ** Strings and dates of the runtime *)

(** [s.padStart(n, c)] and [s.padEnd(n)] (the latter pads with spaces). *)
Definition padStart (s : string) (n : nat) (c : ascii) : string :=
  repeat_char c (n - String.length s) +:+ s.

Definition padEnd (s : string) (n : nat) : string :=
  s +:+ repeat_char " "%char (n - String.length s).

(** [items.join(sep)]. *)
Fixpoint join (sep : string) (items : list string) : string :=
  match items with
  | [] => ""
  | [x] => x
  | x :: rest => x +:+ sep +:+ join sep rest
  end.

(** A [Date] is its time value, milliseconds since the epoch. *)
Definition Date := Z.

Definition msPerDay : Z := 86400000.

(** Year, month (1..12) and day of month of a day number counted from
    1970-01-01, in the proleptic Gregorian calendar. *)
Definition civil_from_days (days : Z) : Z * Z * Z :=
  let z := days + 719468 in
  let era := z / 146097 in
  let doe := z mod 146097 in
  let yoe := (doe - doe / 1460 + doe / 36524 - doe / 146096) / 365 in
  let doy := doe - (365 * yoe + yoe / 4 - yoe / 100) in
  let mp := (5 * doy + 2) / 153 in
  let d := doy - (153 * mp + 2) / 5 + 1 in
  let m := if mp <? 10 then mp + 3 else mp - 9 in
  (yoe + era * 400 + (if m <=? 2 then 1 else 0), m, d).

(** Calendar fields of a time value that is already shifted to the zone it
    is read in. *)
Record DateFields := {
  df_year : Z;
  df_month : Z;      (* 0..11, as [getMonth] *)
  df_date : Z;       (* 1..31 *)
  df_day : Z;        (* 0 = Sunday, as [getDay] *)
  df_hours : Z;
  df_minutes : Z;
  df_seconds : Z;
  df_ms : Z
}.

Definition date_fields (t : Z) : DateFields :=
  let days := t / msPerDay in
  let tod := t mod msPerDay in
  let '(y, m, d) := civil_from_days days in
  {| df_year := y; df_month := m - 1; df_date := d;
     df_day := (days + 4) mod 7;
     df_hours := tod / 3600000;
     df_minutes := (tod / 60000) mod 60;
     df_seconds := (tod / 1000) mod 60;
     df_ms := tod mod 1000 |}.

(** The local zone: its offset from UTC, in milliseconds, at each instant. *)
Definition TimeZone := Z -> Z.

Definition local_fields (tz : TimeZone) (d : Date) : DateFields :=
  date_fields (d + tz d).

(** The calendar date of an instant in the local zone. *)
Definition calendar_date (tz : TimeZone) (d : Date) : Z * Z * Z :=
  let f := local_fields tz d in (df_year f, df_month f, df_date f).

Definition day_name (n : Z) : string :=
  nth (Z.to_nat n) ["Sun"; "Mon"; "Tue"; "Wed"; "Thu"; "Fri"; "Sat"] "Sun".

Definition month_name (n : Z) : string :=
  nth (Z.to_nat n)
    ["Jan"; "Feb"; "Mar"; "Apr"; "May"; "Jun";
     "Jul"; "Aug"; "Sep"; "Oct"; "Nov"; "Dec"] "Jan".

Definition pad_num (n : Z) (width : nat) : string :=
  padStart (pretty n) width "0"%char.

(** [d.toDateString()]: weekday, month name, day of month and year of the
    local calendar date. *)
Definition toDateString (tz : TimeZone) (d : Date) : string :=
  let f := local_fields tz d in
  day_name (df_day f) +:+ " " +:+ month_name (df_month f) +:+ " " +:+
  pad_num (df_date f) 2 +:+ " " +:+
  (if df_year f <? 0 then "-" else "") +:+ pad_num (Z.abs (df_year f)) 4.

(** [d.toISOString()]: the UTC fields, with milliseconds. *)
Definition toISOString (d : Date) : string :=
  let f := date_fields d in
  let y := df_year f in
  (if (0 <=? y) && (y <=? 9999) then pad_num y 4
   else (if y <? 0 then "-" else "+") +:+ pad_num (Z.abs y) 6) +:+
  "-" +:+ pad_num (df_month f + 1) 2 +:+ "-" +:+ pad_num (df_date f) 2 +:+
  "T" +:+ pad_num (df_hours f) 2 +:+ ":" +:+ pad_num (df_minutes f) 2 +:+
  ":" +:+ pad_num (df_seconds f) 2 +:+ "." +:+ pad_num (df_ms f) 3 +:+ "Z".

Example toISOString_sample :
  toISOString 1793593800123 = "2026-11-02T04:30:00.123Z".
Proof. vm_compute. reflexivity. Qed.

Example toDateString_sample :
  toDateString (fun _ => 3600000) 1793593800123 = "Mon Nov 02 2026".
Proof. vm_compute. reflexivity. Qed.

(** ** Log levels and records (Logger.js) *)

Module LogLevel.
Definition DEBUG : Z := 0.
Definition INFO : Z := 1.
Definition WARNING : Z := 2.
Definition ERROR : Z := 3.
Definition CRITICAL : Z := 4.

(** [Object.keys(LogLevel)], with the value of each key. *)
Definition keys : list (string * Z) :=
  [("DEBUG", DEBUG); ("INFO", INFO); ("WARNING", WARNING);
   ("ERROR", ERROR); ("CRITICAL", CRITICAL)].
End LogLevel.

Definition getLogLevelName (level : Z) : string :=
  match List.find (fun kv => snd kv =? level) LogLevel.keys with
  | Some kv => fst kv
  | None => "UNKNOWN"
  end.

Record LogRecord := mkLogRecord {
  name : string;
  level : Z;
  message : string;
  timestamp : Date;
  extra : value
}.

(** [new LogRecord(name, level, message, timestamp, extra)]. The last
    parameter has the default value [{}], which also stands in for an
    argument that is [undefined]. *)
Definition new_LogRecord (name : string) (level : Z) (message : string)
    (timestamp : Date) (extra : value) : LogRecord :=
  mkLogRecord name level message timestamp
    (match extra with VUndef => VObj [] | _ => extra end).

(** ** Property access on values *)

(** [v.k]: reading a property of [undefined] or [null] throws a
    [TypeError]; primitives have none of the properties read here. *)
Definition get_prop (v : value) (k : string) : result value :=
  match v with
  | VUndef =>
      Throw (Error ("Cannot read properties of undefined (reading '" +:+ k +:+ "')"))
  | VNull =>
      Throw (Error ("Cannot read properties of null (reading '" +:+ k +:+ "')"))
  | VObj fields => Ok (default VUndef (assoc k fields))
  | _ => Ok VUndef
  end.

Fixpoint string_entries (i : nat) (s : string) : list (string * value) :=
  match s with
  | EmptyString => []
  | String c rest => (pretty i, VStr (String c "")) :: string_entries (S i) rest
  end.

(** [Object.entries(v)] for a value that is neither [undefined] nor
    [null]. *)
Definition entries (v : value) : list (string * value) :=
  match v with
  | VObj fields => fields
  | VStr s => string_entries 0 s
  | _ => []
  end.

(** ** JSON.stringify *)

(** The double quote character. *)
Definition dquote : ascii := ascii_of_N 34.

Definition hex_digit (n : N) : ascii :=
  nth (N.to_nat n)
    ["0"; "1"; "2"; "3"; "4"; "5"; "6"; "7"; "8"; "9";
     "a"; "b"; "c"; "d"; "e"; "f"]%char "0"%char.

(** The JSON escape of one character of a string. *)
Definition json_escape_char (c : ascii) : string :=
  let n := N_of_ascii c in
  if (n =? 34)%N then String "\"%char (String dquote "")
  else if (n =? 92)%N then "\\"
  else if (n =? 8)%N then "\b"
  else if (n =? 12)%N then "\f"
  else if (n =? 10)%N then "\n"
  else if (n =? 13)%N then "\r"
  else if (n =? 9)%N then "\t"
  else if (n <? 32)%N then
    "\u00" +:+ String (hex_digit (n / 16)) (String (hex_digit (n mod 16)) "")
  else String c "".

Fixpoint json_escape (s : string) : string :=
  match s with
  | EmptyString => ""
  | String c rest => json_escape_char c +:+ json_escape rest
  end.

Definition json_quote (s : string) : string :=
  String dquote (json_escape s) +:+ String dquote "".

(** [JSON.stringify(v)] for a value other than [undefined]; a property
    whose value is [undefined] is left out of its object, and a number
    that is not finite is written as [null]. *)
Fixpoint JSON_stringify (v : value) : string :=
  match v with
  | VUndef => "undefined"
  | VNull => "null"
  | VBool true => "true"
  | VBool false => "false"
  | VNum x =>
      match x with
      | NaN | Infinity _ => "null"
      | _ => Number_toString x
      end
  | VStr s => json_quote s
  | VObj fields =>
      "{" +:+
      join ","
        ((fix members (fs : list (string * value)) : list string :=
            match fs with
            | [] => []
            | (k, v') :: rest =>
                match v' with
                | VUndef => members rest
                | _ => (json_quote k +:+ ":" +:+ JSON_stringify v') :: members rest
                end
            end) fields) +:+
      "}"
  end.

(** ** Formatters (formatters.js) *)

(** The formatter classes a handler can hold: the abstract base class, whose
    [format] throws, [SimpleFormatter] and [JSONFormatter]. *)
Inductive Formatter :=
  | BaseFormatter
  | SimpleFormatter (dateFormat : string)
  | JSONFormatter (includeTimestamp includeName : bool).

(** [SimpleFormatter._formatDate]. *)
Definition _formatDate (tz : TimeZone) (date : Date) : string :=
  let f := local_fields tz date in
  let year := pretty (df_year f) in
  let month := pad_num (df_month f + 1) 2 in
  let day := pad_num (df_date f) 2 in
  let hours := pad_num (df_hours f) 2 in
  let minutes := pad_num (df_minutes f) 2 in
  let seconds := pad_num (df_seconds f) 2 in
  year +:+ "-" +:+ month +:+ "-" +:+ day +:+ " " +:+
  hours +:+ ":" +:+ minutes +:+ ":" +:+ seconds.

(** The entries of [record.extra] that are not the reserved exception
    keys. *)
Definition extra_entries (ex : value) : list (string * value) :=
  List.filter
    (fun kv => negb (String.eqb (fst kv) "exc_text") &&
               negb (String.eqb (fst kv) "exc_info"))
    (entries ex).

Definition SimpleFormatter_format (tz : TimeZone) (record : LogRecord)
  : result string :=
  let timestamp := _formatDate tz (timestamp record) in
  let level := padEnd (getLogLevelName (level record)) 8 in
  let name := padEnd (name record) 15 in
  let formatted :=
    "[" +:+ timestamp +:+ "] " +:+ level +:+ " " +:+ name +:+ ": " +:+
    message record in
  match get_prop (extra record) "exc_text" with
  | Throw e => Throw e
  | Ok exc_text =>
      let formatted :=
        if truthy exc_text
        then formatted +:+ String (ascii_of_N 10) (toString exc_text)
        else formatted in
      let extraFields :=
        join " "
          (List.map (fun kv => fst kv +:+ "=" +:+ toString (snd kv))
             (extra_entries (extra record))) in
      Ok (if negb (String.eqb extraFields "")
          then formatted +:+ " | " +:+ extraFields
          else formatted)
  end.

(** The object [JSONFormatter.format] builds before it is stringified. *)
Definition JSONFormatter_data (includeTimestamp includeName : bool)
    (record : LogRecord) : result (list (string * value)) :=
  let data :=
    [("level", VStr (getLogLevelName (level record)));
     ("message", VStr (message record))] in
  let data :=
    if includeTimestamp
    then obj_set "timestamp" (VStr (toISOString (timestamp record))) data
    else data in
  let data :=
    if includeName then obj_set "logger" (VStr (name record)) data else data in
  match get_prop (extra record) "exc_text" with
  | Throw e => Throw e
  | Ok exc_text =>
      let data :=
        if truthy exc_text then obj_set "exception" exc_text data else data in
      Ok (fold_left (fun d kv => obj_assign (fst kv) (snd kv) d)
            (extra_entries (extra record)) data)
  end.

Definition JSONFormatter_format (includeTimestamp includeName : bool)
    (record : LogRecord) : result string :=
  match JSONFormatter_data includeTimestamp includeName record with
  | Throw e => Throw e
  | Ok data => Ok (JSON_stringify (VObj data))
  end.

Definition Formatter_format (tz : TimeZone) (f : Formatter)
    (record : LogRecord) : result string :=
  match f with
  | BaseFormatter => Throw (Error "format method must be implemented")
  | SimpleFormatter _ => SimpleFormatter_format tz record
  | JSONFormatter ts nm => JSONFormatter_format ts nm record
  end.

Example SimpleFormatter_sample :
  SimpleFormatter_format (fun _ => 0)
    (mkLogRecord "app" 1 "started" 1793593800123
       (VObj [("userId", VNum 123); ("ip", VStr "10.0.0.1")]))
  = Ok "[2026-11-02 04:30:00] INFO     app            : started | userId=123 ip=10.0.0.1".
Proof. vm_compute. reflexivity. Qed.

(** ** The store *)

Inductive Stream :=
  | Stdout
  | Stderr
  | UserStream (n : nat).

#[global] Instance Stream_eq_dec : EqDecision Stream.
Proof. solve_decision. Defined.

(** Flags a file is opened with: ['a'] appends, ['w'] truncates. *)
Inductive OpenMode := ModeAppend | ModeWrite.

(** An open [fs.WriteStream]: the path it was opened on and the bytes it
    has written. *)
Record WriteStream := mkWriteStream {
  ws_path : string;
  bytesWritten : Z
}.

(** State of a [FileHandler]. *)
Record FileState := mkFileState {
  filename : string;
  mode : OpenMode;
  _file : option WriteStream
}.

(** The handler classes of handlers.js with the state each adds. [KBase] is
    the abstract [Handler], whose [emit] throws. *)
Inductive HandlerKind :=
  | KBase
  | KConsole (stream : option Stream)
  | KFile (fh : FileState)
  | KRotating (fh : FileState) (maxBytes backupCount maxFiles : Z)
  | KTimed (fh : FileState) (when : string)
      (interval backupCount maxFiles : Z) (lastRotation : Date)
  | KNull
  | KMemory (capacity : Z) (buffer : list LogRecord).

Record Handler := mkHandler {
  h_formatter : option Formatter;
  h_level : option Z;
  h_kind : HandlerKind
}.

(** A [Logger] object. [lg_handlers] holds references into the handler
    store, [lg_parent] and [lg_children] references into the logger
    store. *)
Record Logger := mkLogger {
  lg_name : string;
  lg_level : Z;
  lg_handlers : list nat;
  lg_propagate : bool;
  lg_parent : option nat;
  lg_children : gmap string nat
}.

Record File := mkFile {
  content : string;
  mtime : Z
}.

Record World := mkWorld {
  loggers : list Logger;
  handlers : list Handler;
  files : gmap string File;
  (** logical clock that stamps [mtime] *)
  fs_clock : Z;
  stdout : list string;
  stderr : list string;
  user_streams : gmap nat (list string);
  (** the successive readings of the wall clock, and how many were taken *)
  clock : nat -> Date;
  tick : nat;
  tz : TimeZone;
  (** every call [handler.emit(record)] made so far, oldest first; kept for
      stating properties, never read by the program *)
  emit_log : list (nat * LogRecord)
}.

Definition set_loggers (x : list Logger) (w : World) : World :=
  mkWorld x (handlers w) (files w) (fs_clock w) (stdout w) (stderr w)
    (user_streams w) (clock w) (tick w) (tz w) (emit_log w).
Definition set_handlers (x : list Handler) (w : World) : World :=
  mkWorld (loggers w) x (files w) (fs_clock w) (stdout w) (stderr w)
    (user_streams w) (clock w) (tick w) (tz w) (emit_log w).
Definition set_files (x : gmap string File) (w : World) : World :=
  mkWorld (loggers w) (handlers w) x (fs_clock w) (stdout w) (stderr w)
    (user_streams w) (clock w) (tick w) (tz w) (emit_log w).
Definition set_fs_clock (x : Z) (w : World) : World :=
  mkWorld (loggers w) (handlers w) (files w) x (stdout w) (stderr w)
    (user_streams w) (clock w) (tick w) (tz w) (emit_log w).
Definition set_stdout (x : list string) (w : World) : World :=
  mkWorld (loggers w) (handlers w) (files w) (fs_clock w) x (stderr w)
    (user_streams w) (clock w) (tick w) (tz w) (emit_log w).
Definition set_stderr (x : list string) (w : World) : World :=
  mkWorld (loggers w) (handlers w) (files w) (fs_clock w) (stdout w) x
    (user_streams w) (clock w) (tick w) (tz w) (emit_log w).
Definition set_user_streams (x : gmap nat (list string)) (w : World) : World :=
  mkWorld (loggers w) (handlers w) (files w) (fs_clock w) (stdout w) (stderr w)
    x (clock w) (tick w) (tz w) (emit_log w).
Definition set_tick (x : nat) (w : World) : World :=
  mkWorld (loggers w) (handlers w) (files w) (fs_clock w) (stdout w) (stderr w)
    (user_streams w) (clock w) x (tz w) (emit_log w).
Definition set_emit_log (x : list (nat * LogRecord)) (w : World) : World :=
  mkWorld (loggers w) (handlers w) (files w) (fs_clock w) (stdout w) (stderr w)
    (user_streams w) (clock w) (tick w) (tz w) x.

(** ** Methods as state transformers that may throw *)

Definition M (A : Type) : Type := World -> World * result A.

#[global] Instance M_ret : MRet M := fun A a w => (w, Ok a).
#[global] Instance M_bind : MBind M := fun A B f m w =>
  match m w with
  | (w', Ok a) => f a w'
  | (w', Throw e) => (w', Throw e)
  end.

Definition throw {A : Type} (e : exn) : M A := fun w => (w, Throw e).

(** [try { body } catch (error) { handler(error) }]. *)
Definition try_catch {A : Type} (body : M A) (handler : exn -> M A) : M A :=
  fun w =>
    match body w with
    | (w', Ok a) => (w', Ok a)
    | (w', Throw e) => handler e w'
    end.

Definition get : M World := fun w => (w, Ok w).
Definition modify (f : World -> World) : M unit := fun w => (f w, Ok tt).
Definition lift_result {A : Type} (r : result A) : M A := fun w => (w, r).

(** [for (const x of xs) body(x)]. *)
Fixpoint for_each {A : Type} (xs : list A) (body : A -> M unit) : M unit :=
  match xs with
  | [] => mret tt
  | x :: rest => body x;; for_each rest body
  end.

(** [new Date()]: the next reading of the wall clock. *)
Definition new_Date : M Date := fun w =>
  (set_tick (S (tick w)) w, Ok (clock w (tick w))).

(** [stream.write(s)]. *)
Definition stream_write (st : Stream) (s : string) : M unit :=
  modify (fun w =>
    match st with
    | Stdout => set_stdout (stdout w ++ [s]) w
    | Stderr => set_stderr (stderr w ++ [s]) w
    | UserStream n =>
        set_user_streams
          (<[n := default [] (user_streams w !! n) ++ [s]]> (user_streams w)) w
    end).

(** [console.error(s)] writes the line to the standard error stream. *)
Definition console_error (s : string) : M unit :=
  stream_write Stderr (s +:+ String (ascii_of_N 10) "").

(** ** The file system *)

Definition newline : string := String (ascii_of_N 10) "".

Definition existsSync (p : string) : M bool := fun w =>
  (w, Ok (bool_decide (is_Some (files w !! p)))).

Definition unlinkSync (p : string) : M unit := fun w =>
  match files w !! p with
  | Some _ => (set_files (delete p (files w)) w, Ok tt)
  | None => (w, Throw (Error ("ENOENT: no such file or directory, unlink '" +:+ p +:+ "'")))
  end.

(** [fs.renameSync(src, dst)] replaces [dst] when it exists. *)
Definition renameSync (src dst : string) : M unit := fun w =>
  match files w !! src with
  | Some f => (set_files (<[dst := f]> (delete src (files w))) w, Ok tt)
  | None => (w, Throw (Error ("ENOENT: no such file or directory, rename '" +:+ src +:+ "'")))
  end.

(** Store [f] under [p], stamped with the next modification time. *)
Definition put_file (p : string) (text : string) (w : World) : World :=
  set_fs_clock (fs_clock w + 1)
    (set_files (<[p := mkFile text (fs_clock w)]> (files w)) w).

(** [fs.createWriteStream(p, { flags })]. *)
Definition createWriteStream (p : string) (flags : OpenMode) : M WriteStream :=
  fun w =>
    let w' :=
      match files w !! p, flags with
      | Some _, ModeAppend => w
      | _, _ => put_file p "" w
      end in
    (w', Ok (mkWriteStream p 0)).

(** [ws.write(s)]: append to the file the stream is open on. *)
Definition WriteStream_write (ws : WriteStream) (s : string) : M WriteStream :=
  fun w =>
    let w' :=
      match files w !! ws_path ws with
      | Some f => put_file (ws_path ws) (content f +:+ s) w
      | None => w
      end in
    (w', Ok (mkWriteStream (ws_path ws) (bytesWritten ws + Z.of_nat (String.length s)))).

(** ** Handlers (handlers.js) *)

(** The class of a handler object; it never changes. *)
Inductive HandlerClass :=
  | CHandler | CConsole | CFile | CRotating | CTimed | CNull | CMemory.

Definition kind_class (k : HandlerKind) : HandlerClass :=
  match k with
  | KBase => CHandler
  | KConsole _ => CConsole
  | KFile _ => CFile
  | KRotating _ _ _ _ => CRotating
  | KTimed _ _ _ _ _ _ => CTimed
  | KNull => CNull
  | KMemory _ _ => CMemory
  end.

Definition class_of (w : World) (hid : nat) : option HandlerClass :=
  kind_class <$> (h_kind <$> handlers w !! hid).

(** Calling a method on a reference that holds no handler: a [TypeError],
    as for any object without that method. *)
Definition getH (hid : nat) : M Handler := fun w =>
  match handlers w !! hid with
  | Some h => (w, Ok h)
  | None => (w, Throw (Error "handler.emit is not a function"))
  end.

Definition setH (hid : nat) (h : Handler) : M unit :=
  modify (fun w => set_handlers (<[hid := h]> (handlers w)) w).

(** [this.stream = st] in a [ConsoleHandler]. *)
Definition set_stream (hid : nat) (st : Stream) : M unit :=
  h ← getH hid;
  match h_kind h with
  | KConsole _ => setH hid (mkHandler (h_formatter h) (h_level h) (KConsole (Some st)))
  | _ => throw (Error "not a ConsoleHandler")
  end.

(** [this.buffer = buffer] in a [MemoryHandler]. *)
Definition set_buffer (hid : nat) (buffer : list LogRecord) : M unit :=
  h ← getH hid;
  match h_kind h with
  | KMemory capacity _ =>
      setH hid (mkHandler (h_formatter h) (h_level h) (KMemory capacity buffer))
  | _ => throw (Error "not a MemoryHandler")
  end.

(** [this.lastRotation = now] in a [TimedRotatingFileHandler]. *)
Definition set_lastRotation (hid : nat) (now : Date) : M unit :=
  h ← getH hid;
  match h_kind h with
  | KTimed fh when interval backupCount maxFiles _ =>
      setH hid
        (mkHandler (h_formatter h) (h_level h)
           (KTimed fh when interval backupCount maxFiles now))
  | _ => throw (Error "not a TimedRotatingFileHandler")
  end.

(** [new C(...)]: allocate a handler object of class [k]; the base
    constructor sets [formatter] and [level] to [null]. *)
Definition new_Handler (k : HandlerKind) : M nat := fun w =>
  (set_handlers (handlers w ++ [mkHandler None None k]) w,
   Ok (length (handlers w))).

Definition setFormatter (hid : nat) (f : Formatter) : M unit :=
  h ← getH hid; setH hid (mkHandler (Some f) (h_level h) (h_kind h)).

Definition Handler_setLevel (hid : nat) (lvl : Z) : M unit :=
  h ← getH hid; setH hid (mkHandler (h_formatter h) (Some lvl) (h_kind h)).

(** [Handler.format]: the formatter defaults to a [SimpleFormatter], which
    the handler keeps. *)
Definition Handler_format (hid : nat) (record : LogRecord) : M string :=
  h ← getH hid;
  f ← match h_formatter h with
      | None =>
          let f := SimpleFormatter "YYYY-MM-DD HH:mm:ss" in
          setH hid (mkHandler (Some f) (h_level h) (h_kind h));; mret f
      | Some f => mret f
      end;
  w ← get;
  lift_result (Formatter_format (tz w) f record).

(** [Handler.filter]. *)
Definition Handler_filter (h : Handler) (record : LogRecord) : bool :=
  match h_level h with
  | None => true
  | Some lvl => lvl <=? level record
  end.

Definition ConsoleHandler_emit (hid : nat) (record : LogRecord) : M unit :=
  h ← getH hid;
  match h_kind h with
  | KConsole stream =>
      st ← match stream with
           | None =>
               let st := if 3 <=? level record then Stderr else Stdout in
               set_stream hid st;; mret st
           | Some st => mret st
           end;
      formatted ← Handler_format hid record;
      stream_write st (formatted +:+ newline)
  | _ => throw (Error "not a ConsoleHandler")
  end.

(** The [FileHandler] part of a handler of a file class. *)
Definition kind_fh (k : HandlerKind) : option FileState :=
  match k with
  | KFile fh | KRotating fh _ _ _ | KTimed fh _ _ _ _ _ => Some fh
  | _ => None
  end.

Definition kind_with_fh (fh : FileState) (k : HandlerKind) : HandlerKind :=
  match k with
  | KFile _ => KFile fh
  | KRotating _ mb bc mf => KRotating fh mb bc mf
  | KTimed _ wh iv bc mf lr => KTimed fh wh iv bc mf lr
  | _ => k
  end.

Definition get_fh (hid : nat) : M FileState :=
  h ← getH hid;
  match kind_fh (h_kind h) with
  | Some fh => mret fh
  | None => throw (Error "not a FileHandler")
  end.

Definition set_file (hid : nat) (f : option WriteStream) : M unit :=
  h ← getH hid;
  match kind_fh (h_kind h) with
  | Some fh =>
      setH hid
        (mkHandler (h_formatter h) (h_level h)
           (kind_with_fh (mkFileState (filename fh) (mode fh) f) (h_kind h)))
  | None => throw (Error "not a FileHandler")
  end.

(** [FileHandler._openFile]. The directory of the log file exists. *)
Definition _openFile (hid : nat) : M unit :=
  fh ← get_fh hid;
  match _file fh with
  | None =>
      ws ← createWriteStream (filename fh) (mode fh);
      set_file hid (Some ws)
  | Some _ => mret tt
  end.

Definition FileHandler_emit (hid : nat) (record : LogRecord) : M unit :=
  _openFile hid;;
  formatted ← Handler_format hid record;
  fh ← get_fh hid;
  match _file fh with
  | Some ws =>
      ws' ← WriteStream_write ws (formatted +:+ newline);
      set_file hid (Some ws')
  | None => throw (Error "Cannot read properties of null (reading 'write')")
  end.

(** [FileHandler.close]. *)
Definition FileHandler_close (hid : nat) : M unit :=
  fh ← get_fh hid;
  match _file fh with
  | Some _ => set_file hid None
  | None => mret tt
  end.

(** [_getMatchingFiles]: the files of the directory whose name starts with
    the log file's name and a dot. *)
Definition _getMatchingFiles (base : string) : M (list string) := fun w =>
  (w, Ok (List.filter (String.prefix (base +:+ "."))
            (List.map fst (map_to_list (files w))))).

Fixpoint insert_by_mtime (x : string * Z) (l : list (string * Z))
  : list (string * Z) :=
  match l with
  | [] => [x]
  | y :: rest =>
      if snd x <=? snd y then x :: y :: rest else y :: insert_by_mtime x rest
  end.

(** [files.sort((a, b) => mtime(a) - mtime(b))], a stable sort. *)
Definition sort_by_mtime (w : World) (names : list string) : list string :=
  List.map fst
    (foldr insert_by_mtime []
       (List.map (fun p => (p, from_option mtime 0 (files w !! p))) names)).

(** Delete the oldest of the matching files beyond [keep]; a failing
    [unlinkSync] is ignored. *)
Definition remove_oldest (base : string) (keep : Z) : M unit :=
  names ← _getMatchingFiles base;
  w ← get;
  let sorted := sort_by_mtime w names in
  if keep <? Z.of_nat (length sorted) then
    let filesToRemove := take (Z.to_nat (Z.of_nat (length sorted) - keep)) sorted in
    for_each filesToRemove (fun oldFile =>
      try_catch (unlinkSync oldFile) (fun _ => mret tt))
  else mret tt.

(** [RotatingFileHandler._cleanupOldFiles]. *)
Definition _cleanupOldFiles (base : string) (maxFiles : Z) : M unit :=
  remove_oldest base maxFiles.

(** The name of the [i]-th numbered backup. *)
Definition backup_name (base : string) (i : Z) : string :=
  base +:+ "." +:+ pretty i.

(** One step of the renumbering loop of [rotate]. *)
Definition shift_backup (base : string) (i : Z) : M unit :=
  let src := backup_name base i in
  let dst := backup_name base (i + 1) in
  src_exists ← existsSync src;
  if (src_exists : bool) then
    dst_exists ← existsSync dst;
    (if (dst_exists : bool) then unlinkSync dst else mret tt);;
    renameSync src dst
  else mret tt.

(** [RotatingFileHandler.rotate]. The loop runs [i] from
    [backupCount - 1] down to 1. *)
Definition RotatingFileHandler_rotate (hid : nat) : M unit :=
  h ← getH hid;
  match h_kind h with
  | KRotating fh maxBytes backupCount maxFiles =>
      (match _file fh with
       | Some _ => set_file hid None
       | None => mret tt
       end);;
      for_each (rev (seqZ 1 (backupCount - 1))) (shift_backup (filename fh));;
      cur_exists ← existsSync (filename fh);
      (if (cur_exists : bool)
       then renameSync (filename fh) (backup_name (filename fh) 1)
       else mret tt);;
      _cleanupOldFiles (filename fh) maxFiles
  | _ => throw (Error "not a RotatingFileHandler")
  end.

Definition RotatingFileHandler_emit (hid : nat) (record : LogRecord) : M unit :=
  h ← getH hid;
  match h_kind h with
  | KRotating fh maxBytes backupCount maxFiles =>
      (match _file fh with
       | Some ws =>
           if maxBytes <=? bytesWritten ws
           then RotatingFileHandler_rotate hid
           else mret tt
       | None => mret tt
       end);;
      FileHandler_emit hid record
  | _ => throw (Error "not a RotatingFileHandler")
  end.

(** [TimedRotatingFileHandler.shouldRotate]. *)
Definition shouldRotate (tz : TimeZone) (when : string) (interval : Z)
    (lastRotation : Date) (timestamp : Date) : bool :=
  if String.eqb when "midnight" then
    negb (String.eqb (toDateString tz timestamp) (toDateString tz lastRotation))
  else if String.eqb when "hour" then
    3600 * 1000 * interval <=? timestamp - lastRotation
  else if String.eqb when "minute" then
    60 * 1000 * interval <=? timestamp - lastRotation
  else false.

(** [TimedRotatingFileHandler._formatTimestamp]. *)
Definition _formatTimestamp (tz : TimeZone) (date : Date) : string :=
  let f := local_fields tz date in
  pretty (df_year f) +:+ pad_num (df_month f + 1) 2 +:+ pad_num (df_date f) 2 +:+
  "_" +:+ pad_num (df_hours f) 2 +:+ pad_num (df_minutes f) 2 +:+
  pad_num (df_seconds f) 2.

(** [TimedRotatingFileHandler._removeOldBackups]. *)
Definition _removeOldBackups (base : string) (backupCount maxFiles : Z) : M unit :=
  remove_oldest base (Z.min backupCount maxFiles).

(** [TimedRotatingFileHandler.rotate]. *)
Definition TimedRotatingFileHandler_rotate (hid : nat) : M unit :=
  h ← getH hid;
  match h_kind h with
  | KTimed fh when interval backupCount maxFiles lastRotation =>
      (match _file fh with
       | Some _ => set_file hid None
       | None => mret tt
       end);;
      w ← get;
      let backupName :=
        filename fh +:+ "." +:+ _formatTimestamp (tz w) lastRotation in
      cur_exists ← existsSync (filename fh);
      (if (cur_exists : bool) then renameSync (filename fh) backupName
       else mret tt);;
      _removeOldBackups (filename fh) backupCount maxFiles;;
      now ← new_Date;
      set_lastRotation hid now
  | _ => throw (Error "not a TimedRotatingFileHandler")
  end.

Definition TimedRotatingFileHandler_emit (hid : nat) (record : LogRecord)
  : M unit :=
  h ← getH hid;
  match h_kind h with
  | KTimed fh when interval backupCount maxFiles lastRotation =>
      w ← get;
      (if shouldRotate (tz w) when interval lastRotation (timestamp record)
       then TimedRotatingFileHandler_rotate hid
       else mret tt);;
      FileHandler_emit hid record
  | _ => throw (Error "not a TimedRotatingFileHandler")
  end.

(** [new TimedRotatingFileHandler(...)]: [lastRotation] is the time of
    construction. *)
Definition new_TimedRotatingFileHandler (path : string) (when : string)
    (interval backupCount maxFiles : Z) : M nat :=
  now ← new_Date;
  new_Handler
    (KTimed (mkFileState path ModeAppend None) when interval backupCount maxFiles now).

(** [MemoryHandler.emit]. *)
Definition MemoryHandler_emit (hid : nat) (record : LogRecord) : M unit :=
  h ← getH hid;
  match h_kind h with
  | KMemory capacity buffer =>
      let buffer := buffer ++ [record] in
      set_buffer hid
        (if capacity <? Z.of_nat (length buffer) then tail buffer else buffer)
  | _ => throw (Error "not a MemoryHandler")
  end.

(** [MemoryHandler.getRecords]. *)
Definition getRecords (w : World) (hid : nat) : list LogRecord :=
  match h_kind <$> handlers w !! hid with
  | Some (KMemory _ buffer) => buffer
  | _ => []
  end.

(** [handler.emit(record)], dispatched on the class of the handler. The
    call is noted in [emit_log]. *)
Definition Handler_emit (hid : nat) (record : LogRecord) : M unit :=
  h ← getH hid;
  modify (fun w => set_emit_log (emit_log w ++ [(hid, record)]) w);;
  match h_kind h with
  | KBase => throw (Error "emit method must be implemented")
  | KConsole _ => ConsoleHandler_emit hid record
  | KFile _ => FileHandler_emit hid record
  | KRotating _ _ _ _ => RotatingFileHandler_emit hid record
  | KTimed _ _ _ _ _ _ => TimedRotatingFileHandler_emit hid record
  | KNull => mret tt
  | KMemory _ _ => MemoryHandler_emit hid record
  end.

(** [Handler.handle]. *)
Definition Handler_handle (hid : nat) (record : LogRecord) : M unit :=
  h ← getH hid;
  if Handler_filter h record then
    try_catch (Handler_emit hid record)
      (fun error => console_error ("Handler error: " +:+ exn_message error))
  else mret tt.

(** ** Logger (Logger.js) *)

Definition getL (lid : nat) : M Logger := fun w =>
  match loggers w !! lid with
  | Some lg => (w, Ok lg)
  | None => (w, Throw (Error "this.parent._log is not a function"))
  end.

Definition setL (lid : nat) (lg : Logger) : M unit :=
  modify (fun w => set_loggers (<[lid := lg]> (loggers w)) w).

(** [new Logger(name)]. *)
Definition new_Logger (nm : string) : M nat := fun w =>
  (set_loggers (loggers w ++ [mkLogger nm LogLevel.INFO [] true None ∅]) w,
   Ok (length (loggers w))).

Definition Logger_setLevel (lid : nat) (lvl : Z) : M unit :=
  lg ← getL lid;
  setL lid (mkLogger (lg_name lg) lvl (lg_handlers lg) (lg_propagate lg)
              (lg_parent lg) (lg_children lg)).

Definition with_handlers (hs : list nat) (lg : Logger) : Logger :=
  mkLogger (lg_name lg) (lg_level lg) hs (lg_propagate lg) (lg_parent lg)
    (lg_children lg).

Definition addHandler (lid : nat) (hid : nat) : M unit :=
  lg ← getL lid; setL lid (with_handlers (lg_handlers lg ++ [hid]) lg).

(** [xs.splice(xs.indexOf(x), 1)] when [x] occurs in [xs]. *)
Fixpoint remove_first (x : nat) (xs : list nat) : list nat :=
  match xs with
  | [] => []
  | y :: rest => if Nat.eqb x y then rest else y :: remove_first x rest
  end.

Definition removeHandler (lid : nat) (hid : nat) : M unit :=
  lg ← getL lid; setL lid (with_handlers (remove_first hid (lg_handlers lg)) lg).

Definition clearHandlers (lid : nat) : M unit :=
  lg ← getL lid; setL lid (with_handlers [] lg).

Definition setPropagate (lid : nat) (b : bool) : M unit :=
  lg ← getL lid;
  setL lid (mkLogger (lg_name lg) (lg_level lg) (lg_handlers lg) b
              (lg_parent lg) (lg_children lg)).

(** [Logger.getChild]. The child's handler list is a copy of the parent's
    array: the same references in a list of its own. *)
Definition getChild (lid : nat) (nm : string) : M nat :=
  lg ← getL lid;
  match lg_children lg !! nm with
  | None =>
      child ← new_Logger (lg_name lg +:+ "." +:+ nm);
      setL child
        (mkLogger (lg_name lg +:+ "." +:+ nm) (lg_level lg) (lg_handlers lg)
           true (Some lid) ∅);;
      setL lid
        (mkLogger (lg_name lg) (lg_level lg) (lg_handlers lg) (lg_propagate lg)
           (lg_parent lg) (<[nm := child]> (lg_children lg)));;
      mret child
  | Some child => mret child
  end.

(** [args.shift()]. *)
Definition shift (args : list value) : value * list value :=
  match args with
  | [] => (VUndef, [])
  | v :: rest => (v, rest)
  end.

(** [message.replace(/%s/g, () => args.shift())]: the text, and what is left
    of [args]. *)
Fixpoint replace_percent_s (msg : string) (args : list value)
  : string * list value :=
  match msg with
  | EmptyString => ("", args)
  | String c rest =>
      match rest with
      | String c' rest' =>
          if (Ascii.eqb c "%" && Ascii.eqb c' "s")%bool then
            let '(v, args1) := shift args in
            let '(out, args2) := replace_percent_s rest' args1 in
            (toString v +:+ out, args2)
          else
            let '(out, args1) := replace_percent_s rest args in
            (String c out, args1)
      | EmptyString => (String c "", args)
      end
  end.

(** [Logger._log]. [fuel] bounds the depth of the calls up the parent
    chain; running out of it is the overflow of the call stack. *)
Fixpoint _log (fuel : nat) (lid : nat) (lvl : Z) (msg : string)
    (args : list value) : M unit :=
  match fuel with
  | O => throw (Error "Maximum call stack size exceeded")
  | S fuel' =>
      this ← getL lid;
      if lvl <? lg_level this then mret tt
      else
        let '(formattedMessage, args) :=
          if (0 <? length args)%nat then replace_percent_s msg args
          else (msg, args) in
        now ← new_Date;
        let record :=
          new_LogRecord (lg_name this) lvl formattedMessage now
            (match args with v :: _ => v | [] => VObj [] end) in
        for_each (lg_handlers this) (fun handler =>
          try_catch (Handler_emit handler record)
            (fun error => console_error ("Handler error: " +:+ exn_message error)));;
        match lg_propagate this, lg_parent this with
        | true, Some parent => _log fuel' parent lvl msg args
        | _, _ => mret tt
        end
  end.

Definition debug (fuel lid : nat) (msg : string) (args : list value) : M unit :=
  _log fuel lid LogLevel.DEBUG msg args.
Definition info (fuel lid : nat) (msg : string) (args : list value) : M unit :=
  _log fuel lid LogLevel.INFO msg args.
Definition warning (fuel lid : nat) (msg : string) (args : list value) : M unit :=
  _log fuel lid LogLevel.WARNING msg args.
Definition error (fuel lid : nat) (msg : string) (args : list value) : M unit :=
  _log fuel lid LogLevel.ERROR msg args.
Definition critical (fuel lid : nat) (msg : string) (args : list value) : M unit :=
  _log fuel lid LogLevel.CRITICAL msg args.

(** An empty world: no objects, no files, nothing written. *)
Definition empty_world (clk : nat -> Date) (zone : TimeZone) : World :=
  mkWorld [] [] ∅ 0 [] [] ∅ clk 0%nat zone [].

(** Run a method and keep the world it leaves. *)
Definition exec {A : Type} (m : M A) (w : World) : World := fst (m w).
Definition outcome {A : Type} (m : M A) (w : World) : result A := snd (m w).

(** * Properties *)

(** ** Reasoning about methods *)

Lemma exec_bind {A B : Type} (m : M A) (f : A -> M B) (w : World) :
  (m ≫= f) w =
  match m w with
  | (w', Ok a) => f a w'
  | (w', Throw e) => (w', Throw e)
  end.
Proof. reflexivity. Qed.

(** A method keeps a relation between the world it starts in and the world
    it leaves, whether it returns or throws. *)
Definition keeps {A : Type} (R : relation World) (m : M A) : Prop :=
  forall w, R w (fst (m w)).

Section Keeps.
Context (R : relation World) `{!PreOrder R}.

Lemma keeps_mret {A : Type} (a : A) : keeps R (mret a).
Proof. intros w. simpl. reflexivity. Qed.

Lemma keeps_throw {A : Type} (e : exn) : keeps R (@throw A e).
Proof. intros w. simpl. reflexivity. Qed.

Lemma keeps_get : keeps R get.
Proof. intros w. simpl. reflexivity. Qed.

Lemma keeps_lift_result {A : Type} (r : result A) : keeps R (lift_result r).
Proof. intros w. simpl. reflexivity. Qed.

Lemma keeps_bind {A B : Type} (m : M A) (f : A -> M B) :
  keeps R m -> (forall a, keeps R (f a)) -> keeps R (m ≫= f).
Proof.
  intros Hm Hf w. rewrite exec_bind. specialize (Hm w).
  destruct (m w) as [w' [a|e]]; simpl in *; [|done].
  etrans; [exact Hm | apply Hf].
Qed.

Lemma bind_at {A B : Type} (m : M A) (f : A -> M B) (w : World) :
  R w (fst (m w)) -> (forall a, keeps R (f a)) -> R w (fst ((m ≫= f) w)).
Proof.
  intros Hm Hf. rewrite exec_bind.
  destruct (m w) as [w' [a|e]]; simpl in *; [|done].
  etrans; [exact Hm | apply Hf].
Qed.

Lemma keeps_try_catch {A : Type} (m : M A) (h : exn -> M A) :
  keeps R m -> (forall e, keeps R (h e)) -> keeps R (try_catch m h).
Proof.
  intros Hm Hh w. unfold try_catch. specialize (Hm w).
  destruct (m w) as [w' [a|e]]; simpl in *; [done|].
  etrans; [exact Hm | apply Hh].
Qed.

Lemma keeps_for_each {A : Type} (xs : list A) (body : A -> M unit) :
  (forall x, keeps R (body x)) -> keeps R (for_each xs body).
Proof.
  intros Hb. induction xs as [|x xs IH]; simpl.
  - apply keeps_mret.
  - apply keeps_bind; [apply Hb | intros _; exact IH].
Qed.

Lemma keeps_modify (f : World -> World) :
  (forall w, R w (f w)) -> keeps R (modify f).
Proof. intros Hf w. apply Hf. Qed.
End Keeps.

(** What no handler method changes: the logger objects, the clock and zone
    of the environment, and the record of [emit] calls; the standard error
    stream only grows and the handler store keeps its size. *)
Record frame (w w' : World) : Prop := mkFrame {
  frame_loggers : loggers w' = loggers w;
  frame_clock : clock w' = clock w;
  frame_tz : tz w' = tz w;
  frame_emit_log : emit_log w' = emit_log w;
  frame_stderr : stderr w `prefix_of` stderr w';
  frame_tick : (tick w <= tick w')%nat;
  frame_handlers : length (handlers w') = length (handlers w);
  frame_class : forall hid, class_of w' hid = class_of w hid
}.

#[global] Instance frame_preorder : PreOrder frame.
Proof.
  split.
  - intros w. by split.
  - intros w1 w2 w3 [] [].
    split; try congruence; try lia; try (by etrans); intros hid; etrans; eauto.
Qed.

Create HintDb keeps discriminated.

Ltac keeps_step :=
  lazymatch goal with
  | |- keeps _ (mret _) => apply keeps_mret; tc_solve
  | |- keeps _ (mbind _ _) => apply keeps_bind; [tc_solve | | intros ?]
  | |- keeps _ (throw _) => apply keeps_throw; tc_solve
  | |- keeps _ get => apply keeps_get; tc_solve
  | |- keeps _ (lift_result _) => apply keeps_lift_result; tc_solve
  | |- keeps _ (try_catch _ _) => apply keeps_try_catch; [tc_solve | | intros ?]
  | |- keeps _ (for_each _ _) => apply keeps_for_each; [tc_solve | intros ?]
  | |- keeps _ (match ?x with _ => _ end) => destruct x
  | |- keeps _ _ => solve [auto with keeps]
  end.

Ltac keeps_auto := repeat keeps_step.

Ltac frame_prim :=
  intros w; simpl; repeat case_match; simpl; split; simpl;
  rewrite ?length_insert; auto using prefix_app_r.

Lemma frame_getH hid : keeps frame (getH hid).
Proof. unfold getH. frame_prim. Qed.

(** Storing a handler of the same class in place of an existing one. *)
Lemma frame_setH_same hid h h0 w :
  handlers w !! hid = Some h0 ->
  kind_class (h_kind h) = kind_class (h_kind h0) ->
  frame w (fst (setH hid h w)).
Proof.
  intros Hh Hc. split; simpl; auto using length_insert.
  intros i. unfold class_of. simpl.
  destruct (decide (i = hid)) as [->|Hne].
  - rewrite list_lookup_insert_eq by (by eapply lookup_lt_Some).
    rewrite Hh. simpl. by f_equal.
  - by rewrite list_lookup_insert_ne.
Qed.

Ltac frame_setter hid :=
  let w := fresh "w" in
  let h := fresh "h" in
  let Hh := fresh "Hh" in
  intros w; rewrite exec_bind; unfold getH;
  destruct (handlers w !! hid) as [h|] eqn:Hh; [|reflexivity];
  destruct h as [? ? []]; simpl; try reflexivity;
  eapply frame_setH_same; eauto.

Lemma frame_set_stream hid st : keeps frame (set_stream hid st).
Proof. unfold set_stream. frame_setter hid. Qed.

Lemma frame_set_buffer hid buffer : keeps frame (set_buffer hid buffer).
Proof. unfold set_buffer. frame_setter hid. Qed.

Lemma frame_set_lastRotation hid now : keeps frame (set_lastRotation hid now).
Proof. unfold set_lastRotation. frame_setter hid. Qed.

Lemma frame_set_file hid f : keeps frame (set_file hid f).
Proof. unfold set_file. frame_setter hid. Qed.

Lemma frame_existsSync p : keeps frame (existsSync p).
Proof. unfold existsSync. frame_prim. Qed.

Lemma frame_unlinkSync p : keeps frame (unlinkSync p).
Proof. unfold unlinkSync. frame_prim. Qed.

Lemma frame_renameSync src dst : keeps frame (renameSync src dst).
Proof. unfold renameSync. frame_prim. Qed.

Lemma frame_createWriteStream p flags : keeps frame (createWriteStream p flags).
Proof. unfold createWriteStream, put_file. frame_prim. Qed.

Lemma frame_WriteStream_write ws s : keeps frame (WriteStream_write ws s).
Proof. unfold WriteStream_write, put_file. frame_prim. Qed.

Lemma frame_new_Date : keeps frame new_Date.
Proof. unfold new_Date. frame_prim. Qed.

Lemma frame_stream_write st s : keeps frame (stream_write st s).
Proof. unfold stream_write, modify. frame_prim. Qed.

Lemma frame__getMatchingFiles base : keeps frame (_getMatchingFiles base).
Proof. unfold _getMatchingFiles. frame_prim. Qed.

#[global] Hint Resolve frame_getH frame_set_stream frame_set_buffer
  frame_set_lastRotation frame_set_file frame_existsSync frame_unlinkSync
  frame_renameSync frame_createWriteStream frame_WriteStream_write
  frame_new_Date frame_stream_write frame__getMatchingFiles : keeps.

Lemma frame_console_error s : keeps frame (console_error s).
Proof. unfold console_error. keeps_auto. Qed.

#[global] Hint Resolve frame_console_error : keeps.

Lemma frame_Handler_format hid record : keeps frame (Handler_format hid record).
Proof.
  intros w. unfold Handler_format. rewrite exec_bind. unfold getH.
  destruct (handlers w !! hid) as [h|] eqn:Hh; [|reflexivity].
  apply bind_at; [tc_solve| |intros f; keeps_auto].
  destruct (h_formatter h) as [f|]; [reflexivity|].
  apply bind_at; [tc_solve| |intros f; keeps_auto].
  by eapply frame_setH_same.
Qed.

Lemma frame_get_fh hid : keeps frame (get_fh hid).
Proof. unfold get_fh. keeps_auto. Qed.

#[global] Hint Resolve frame_Handler_format frame_get_fh : keeps.

Lemma frame__openFile hid : keeps frame (_openFile hid).
Proof. unfold _openFile. keeps_auto. Qed.

#[global] Hint Resolve frame__openFile : keeps.

Lemma frame_FileHandler_emit hid record : keeps frame (FileHandler_emit hid record).
Proof. unfold FileHandler_emit. keeps_auto. Qed.

Lemma frame_ConsoleHandler_emit hid record :
  keeps frame (ConsoleHandler_emit hid record).
Proof. unfold ConsoleHandler_emit. keeps_auto. Qed.

Lemma frame_remove_oldest base keep : keeps frame (remove_oldest base keep).
Proof. unfold remove_oldest. keeps_auto. Qed.

#[global] Hint Resolve frame_FileHandler_emit frame_ConsoleHandler_emit
  frame_remove_oldest : keeps.

Lemma frame_shift_backup base i : keeps frame (shift_backup base i).
Proof. unfold shift_backup. keeps_auto. Qed.

#[global] Hint Resolve frame_shift_backup : keeps.

Lemma frame_RotatingFileHandler_rotate hid :
  keeps frame (RotatingFileHandler_rotate hid).
Proof. unfold RotatingFileHandler_rotate, _cleanupOldFiles. keeps_auto. Qed.

#[global] Hint Resolve frame_RotatingFileHandler_rotate : keeps.

Lemma frame_RotatingFileHandler_emit hid record :
  keeps frame (RotatingFileHandler_emit hid record).
Proof. unfold RotatingFileHandler_emit. keeps_auto. Qed.

Lemma frame_TimedRotatingFileHandler_rotate hid :
  keeps frame (TimedRotatingFileHandler_rotate hid).
Proof. unfold TimedRotatingFileHandler_rotate, _removeOldBackups. keeps_auto. Qed.

#[global] Hint Resolve frame_TimedRotatingFileHandler_rotate : keeps.

Lemma frame_TimedRotatingFileHandler_emit hid record :
  keeps frame (TimedRotatingFileHandler_emit hid record).
Proof. unfold TimedRotatingFileHandler_emit. keeps_auto. Qed.

Lemma frame_MemoryHandler_emit hid record :
  keeps frame (MemoryHandler_emit hid record).
Proof. unfold MemoryHandler_emit. keeps_auto. Qed.

#[global] Hint Resolve frame_RotatingFileHandler_emit
  frame_TimedRotatingFileHandler_emit frame_MemoryHandler_emit : keeps.

(** ** What a dispatch adds to the record of [emit] calls *)

(** [emitted l w w']: like [frame], and the calls [l] were made. *)
Record emitted (l : list (nat * LogRecord)) (w w' : World) : Prop := mkEmitted {
  em_loggers : loggers w' = loggers w;
  em_clock : clock w' = clock w;
  em_tz : tz w' = tz w;
  em_log : emit_log w' = emit_log w ++ l;
  em_stderr : stderr w `prefix_of` stderr w';
  em_tick : (tick w <= tick w')%nat;
  em_handlers : length (handlers w') = length (handlers w);
  em_class : forall hid, class_of w' hid = class_of w hid
}.

Lemma frame_emitted w w' : frame w w' -> emitted [] w w'.
Proof. intros []. split; auto. by rewrite app_nil_r. Qed.

Lemma emitted_frame l w w' : emitted l w w' -> frame (set_emit_log (emit_log w') w) w'.
Proof. intros []. by split. Qed.

Lemma emitted_refl w : emitted [] w w.
Proof. apply frame_emitted. reflexivity. Qed.

Lemma emitted_trans l1 l2 w1 w2 w3 :
  emitted l1 w1 w2 -> emitted l2 w2 w3 -> emitted (l1 ++ l2) w1 w3.
Proof.
  intros [] [].
  split; try congruence; try lia; try (by etrans);
    try (rewrite app_assoc; congruence); intros hid; etrans; eauto.
Qed.

(** The references of [hs] that hold a handler. *)
Definition live (w : World) (hs : list nat) : list nat :=
  List.filter (fun h => bool_decide (h < length (handlers w))%nat) hs.

Lemma live_frame w w' hs :
  length (handlers w') = length (handlers w) -> live w' hs = live w hs.
Proof. intros H. unfold live. by rewrite H. Qed.

Lemma Handler_emit_emitted hid record w :
  emitted (List.map (fun h => (h, record)) (live w [hid])) w
    (fst (Handler_emit hid record w)).
Proof.
  unfold Handler_emit. rewrite exec_bind. unfold getH at 1. simpl.
  destruct (handlers w !! hid) as [h|] eqn:Hh; simpl.
  - apply lookup_lt_Some in Hh. rewrite bool_decide_eq_true_2 by done. simpl.
    rewrite exec_bind. simpl.
    set (w1 := set_emit_log _ w).
    assert (H1 : emitted [(hid, record)] w w1) by (by split).
    rewrite <- (app_nil_r [(hid, record)]).
    eapply emitted_trans; [exact H1|]. apply frame_emitted.
    assert (Hk : keeps frame
      match h_kind h with
      | KBase => throw (Error "emit method must be implemented")
      | KConsole _ => ConsoleHandler_emit hid record
      | KFile _ => FileHandler_emit hid record
      | KRotating _ _ _ _ => RotatingFileHandler_emit hid record
      | KTimed _ _ _ _ _ _ => TimedRotatingFileHandler_emit hid record
      | KNull => mret tt
      | KMemory _ _ => MemoryHandler_emit hid record
      end) by keeps_auto.
    apply Hk.
  - apply lookup_ge_None in Hh. rewrite bool_decide_eq_false_2 by lia.
    apply emitted_refl.
Qed.

(** The loop of [_log] over the handlers: each call is guarded by
    [try]/[catch], and a failure is reported with [console.error]. *)
Definition dispatch (hs : list nat) (record : LogRecord) : M unit :=
  for_each hs (fun handler =>
    try_catch (Handler_emit handler record)
      (fun error => console_error ("Handler error: " +:+ exn_message error))).

Lemma guarded_emit_emitted hid record w :
  emitted (List.map (fun h => (h, record)) (live w [hid])) w
    (fst (try_catch (Handler_emit hid record)
            (fun error => console_error ("Handler error: " +:+ exn_message error)) w)).
Proof.
  unfold try_catch. pose proof (Handler_emit_emitted hid record w) as H.
  destruct (Handler_emit hid record w) as [w1 [[]|e]]; simpl in *; [done|].
  rewrite <- (app_nil_r (List.map _ _)).
  eapply emitted_trans; [exact H|]. apply frame_emitted, frame_console_error.
Qed.

Lemma guarded_emit_ok hid record w :
  snd (try_catch (Handler_emit hid record)
         (fun error => console_error ("Handler error: " +:+ exn_message error)) w)
  = Ok tt.
Proof.
  unfold try_catch. destruct (Handler_emit hid record w) as [w1 [[]|e]]; done.
Qed.

Lemma dispatch_ok hs record w : snd (dispatch hs record w) = Ok tt.
Proof.
  revert w. induction hs as [|h hs IH]; intros w; [done|].
  unfold dispatch. simpl. rewrite exec_bind.
  pose proof (guarded_emit_ok h record w) as Hok.
  destruct (try_catch _ _ w) as [w1 r]. simpl in Hok. subst r. apply IH.
Qed.

Lemma dispatch_emitted hs record w :
  emitted (List.map (fun h => (h, record)) (live w hs)) w
    (fst (dispatch hs record w)).
Proof.
  revert w. induction hs as [|h hs IH]; intros w; [apply emitted_refl|].
  unfold dispatch. simpl for_each. rewrite exec_bind.
  pose proof (guarded_emit_ok h record w) as Hok.
  pose proof (guarded_emit_emitted h record w) as Hem.
  destruct (try_catch _ _ w) as [w1 r]. simpl in Hok, Hem. subst r.
  specialize (IH w1). fold (dispatch hs record).
  rewrite (live_frame w w1) in IH by apply Hem.
  replace (live w (h :: hs)) with (live w [h] ++ live w hs).
  - rewrite List.map_app. eapply emitted_trans; eauto.
  - unfold live. simpl. by destruct (bool_decide _).
Qed.

(** ** One call of [_log] *)

(** The message and the remaining arguments after the [%s] substitution. *)
Definition format_args (msg : string) (args : list value) : string * list value :=
  if (0 <? length args)%nat then replace_percent_s msg args else (msg, args).

(** The record a logger builds for a call that passes its gate, when the
    clock reads [now]. *)
Definition build_record (this : Logger) (lvl : Z) (msg : string)
    (args : list value) (now : Date) : LogRecord :=
  new_LogRecord (lg_name this) lvl (fst (format_args msg args)) now
    (match snd (format_args msg args) with v :: _ => v | [] => VObj [] end).

Lemma _log_dropped fuel lid lvl msg args w this :
  loggers w !! lid = Some this -> lvl < lg_level this ->
  _log (S fuel) lid lvl msg args w = (w, Ok tt).
Proof.
  intros Hl Hlt. simpl. rewrite exec_bind. unfold getL. rewrite Hl.
  by rewrite (proj2 (Z.ltb_lt _ _) Hlt).
Qed.

Lemma _log_accepted fuel lid lvl msg args w this :
  loggers w !! lid = Some this -> lg_level this <= lvl ->
  _log (S fuel) lid lvl msg args w =
  let record := build_record this lvl msg args (clock w (tick w)) in
  let w2 := fst (dispatch (lg_handlers this) record (set_tick (S (tick w)) w)) in
  match lg_propagate this, lg_parent this with
  | true, Some parent => _log fuel parent lvl msg (snd (format_args msg args)) w2
  | _, _ => (w2, Ok tt)
  end.
Proof.
  intros Hl Hle. simpl. rewrite exec_bind. unfold getL. rewrite Hl.
  rewrite (proj2 (Z.ltb_ge _ _) Hle).
  unfold build_record, format_args.
  destruct (if (0 <? length args)%nat then _ else _) as [fm args'] eqn:Hfa.
  rewrite exec_bind. unfold new_Date at 1. simpl fst. simpl snd.
  rewrite exec_bind. fold (dispatch (lg_handlers this)
    (new_LogRecord (lg_name this) lvl fm (clock w (tick w))
       match args' with [] => VObj [] | v :: _ => v end)).
  pose proof (dispatch_ok (lg_handlers this)
    (new_LogRecord (lg_name this) lvl fm (clock w (tick w))
       match args' with [] => VObj [] | v :: _ => v end)
    (set_tick (S (tick w)) w)) as Hok.
  destruct (dispatch _ _ _) as [w2 r]. simpl in Hok. subst r. simpl.
  by destruct (lg_propagate this), (lg_parent this).
Qed.

Lemma _log_no_logger fuel lid lvl msg args w :
  loggers w !! lid = None ->
  _log (S fuel) lid lvl msg args w =
  (w, Throw (Error "this.parent._log is not a function")).
Proof. intros Hl. simpl. rewrite exec_bind. unfold getL. by rewrite Hl. Qed.

(** The handlers a call at level [lvl] on logger [lid] reaches, in the
    order of the calls: the logger's own, then those its parent reaches. *)
Fixpoint reached_handlers (fuel : nat) (w : World) (lid : nat) (lvl : Z)
  : list nat :=
  match fuel with
  | O => []
  | S fuel' =>
      match loggers w !! lid with
      | None => []
      | Some this =>
          if lvl <? lg_level this then []
          else
            live w (lg_handlers this) ++
            match lg_propagate this, lg_parent this with
            | true, Some parent => reached_handlers fuel' w parent lvl
            | _, _ => []
            end
      end
  end.

Lemma reached_handlers_frame fuel w w' lid lvl :
  loggers w' = loggers w -> length (handlers w') = length (handlers w) ->
  reached_handlers fuel w' lid lvl = reached_handlers fuel w lid lvl.
Proof.
  intros Hl Hh. revert lid. induction fuel as [|fuel IH]; intros lid; [done|].
  simpl. rewrite Hl. destruct (loggers w !! lid) as [this|]; [|done].
  destruct (lvl <? lg_level this); [done|].
  rewrite (live_frame w w') by done.
  destruct (lg_propagate this), (lg_parent this); by rewrite ?IH.
Qed.

Lemma set_tick_emitted n w : (tick w <= n)%nat -> emitted [] w (set_tick n w).
Proof. intros H. split; simpl; auto. by rewrite app_nil_r. Qed.

(** Every call of [_log] makes exactly the [emit] calls of
    [reached_handlers], each with a record of the level of the call. *)
Lemma _log_emitted fuel lid lvl msg args w :
  exists l,
    emitted l w (fst (_log fuel lid lvl msg args w)) /\
    List.map fst l = reached_handlers fuel w lid lvl /\
    Forall (fun e => level (snd e) = lvl) l.
Proof.
  revert lid args w. induction fuel as [|fuel IH]; intros lid args w.
  { exists []. split; [apply emitted_refl | done]. }
  destruct (loggers w !! lid) as [this|] eqn:Hl.
  2: { exists []. rewrite _log_no_logger by done. simpl. rewrite Hl.
       split; [apply emitted_refl | done]. }
  destruct (Z.lt_ge_cases lvl (lg_level this)) as [Hlt|Hge].
  { exists []. rewrite (_log_dropped _ _ _ _ _ _ this) by done. simpl.
    rewrite Hl, (proj2 (Z.ltb_lt _ _) Hlt). split; [apply emitted_refl | done]. }
  rewrite (_log_accepted _ _ _ _ _ _ this) by done. simpl reached_handlers.
  rewrite Hl, (proj2 (Z.ltb_ge _ _) Hge). cbv zeta.
  set (record := build_record this lvl msg args (clock w (tick w))).
  set (w1 := set_tick (S (tick w)) w).
  pose proof (dispatch_emitted (lg_handlers this) record w1) as Hd.
  assert (H1 : emitted [] w w1) by (apply set_tick_emitted; lia).
  pose proof (emitted_trans _ _ _ _ _ H1 Hd) as H2. simpl in H2.
  set (w2 := fst (dispatch (lg_handlers this) record w1)) in *.
  assert (Hown : Forall (fun e : nat * LogRecord => level (snd e) = lvl)
            (List.map (fun h => (h, record)) (live w1 (lg_handlers this)))).
  { apply Forall_forall. intros e He. apply list_elem_of_In, in_map_iff in He.
    destruct He as (h & <- & _). done. }
  assert (Hfst : List.map fst
            (List.map (fun h => (h, record)) (live w1 (lg_handlers this)))
            = live w (lg_handlers this)).
  { rewrite List.map_map. simpl. rewrite List.map_id. done. }
  destruct (lg_propagate this), (lg_parent this) as [p|];
    try (eexists; split; [exact H2|]; split; [by rewrite Hfst, ?app_nil_r | done]).
  destruct (IH p (snd (format_args msg args)) w2) as (l & Hl1 & Hl2 & Hl3).
  eexists. split; [eapply emitted_trans; [exact H2 | exact Hl1]|].
  split.
  - rewrite List.map_app, Hfst, Hl2.
    f_equal. apply reached_handlers_frame; apply H2.
  - by apply Forall_app.
Qed.

(** ** The level gate of a logger *)


(** A world with one logger at level WARNING that holds one memory
    handler. *)
Definition gate_world : World :=
  fst ((root ← new_Logger "app";
        m ← new_Handler (KMemory 1000 []);
        addHandler root m;;
        Logger_setLevel root LogLevel.WARNING)
       (empty_world (fun n => 1793593800123 + Z.of_nat n) (fun _ => 0))).


(** ** The level filter of a handler *)

(** [handle] drops a record below the handler's level and calls [emit]
    for any other, reporting a failure of [emit]. *)
Lemma Handler_handle_filtered hid record w h lvl :
  handlers w !! hid = Some h -> h_level h = Some lvl -> level record < lvl ->
  Handler_handle hid record w = (w, Ok tt).
Proof.
  intros Hh Hlvl Hlt. unfold Handler_handle. rewrite exec_bind.
  unfold getH. rewrite Hh. unfold Handler_filter. rewrite Hlvl.
  by rewrite (proj2 (Z.leb_gt _ _) Hlt).
Qed.

(** A logger at DEBUG whose memory handler is set to ERROR, as the error
    file of [setupMultiHandlerLogger] is. *)
Definition filter_world : World :=
  fst ((root ← new_Logger "multi";
        Logger_setLevel root LogLevel.DEBUG;;
        m ← new_Handler (KMemory 1000 []);
        Handler_setLevel m LogLevel.ERROR;;
        addHandler root m)
       (empty_world (fun n => 1793593800123 + Z.of_nat n) (fun _ => 0))).

(** C3. The dispatch loop of [_log] calls [emit], not [handle]: a handler
    set to ERROR receives an INFO record, which [handle] would drop. *)
Theorem dispatch_bypasses_handler_level :
  h_level <$> handlers filter_world !! 0%nat = Some (Some LogLevel.ERROR) /\
  getRecords (fst (info 1 0 "Info message" [] filter_world)) 0
  = [mkLogRecord "multi" LogLevel.INFO "Info message" 1793593800123 (VObj [])] /\
  getRecords
    (fst (Handler_handle 0
            (mkLogRecord "multi" LogLevel.INFO "Info message" 1793593800123 (VObj []))
            filter_world)) 0
  = [].
Proof. vm_compute. done. Qed.

(** ** Propagation to the parent *)

(** The number of [emit] calls on handler [h] among the calls [l]. *)
Definition emits_to (h : nat) (l : list (nat * LogRecord)) : nat :=
  count_occ Nat.eq_dec (List.map fst l) h.

(** The calls made between world [w] and a later world [w']. *)
Definition new_emits (w w' : World) : list (nat * LogRecord) :=
  drop (length (emit_log w)) (emit_log w').

Lemma new_emits_emitted l w w' : emitted l w w' -> new_emits w w' = l.
Proof. intros H. unfold new_emits. rewrite (em_log _ _ _ H). by rewrite drop_app_length. Qed.

Lemma emits_to_app h l1 l2 : emits_to h (l1 ++ l2) = (emits_to h l1 + emits_to h l2)%nat.
Proof. unfold emits_to. by rewrite List.map_app, count_occ_app. Qed.

Lemma emits_to_map h (r : LogRecord) hs :
  emits_to h (List.map (fun h' => (h', r)) hs) = count_occ Nat.eq_dec hs h.
Proof. unfold emits_to. rewrite List.map_map. simpl. by rewrite List.map_id. Qed.

Lemma count_occ_live w h hs :
  (h < length (handlers w))%nat ->
  count_occ Nat.eq_dec (live w hs) h = count_occ Nat.eq_dec hs h.
Proof.
  intros Hh. induction hs as [|x hs IH]; [done|].
  unfold live in *. simpl. destruct (Nat.eq_dec x h) as [->|Hne].
  - rewrite bool_decide_eq_true_2 by done. simpl.
    destruct (Nat.eq_dec h h); [|done]. by rewrite IH.
  - destruct (bool_decide _); simpl; [|done].
    destruct (Nat.eq_dec x h); [done|]. done.
Qed.

Lemma live_subseteq w hs h : In h (live w hs) -> In h hs.
Proof. unfold live. rewrite filter_In. tauto. Qed.

(** Parents were created before their children, as [getChild] makes
    them. *)
Definition wf_parents (w : World) : Prop :=
  forall i lg p,
    loggers w !! i = Some lg -> lg_parent lg = Some p -> (p < i)%nat.

Lemma reached_handlers_below fuel w q lvl h bound :
  wf_parents w ->
  (forall i lg, (i < bound)%nat -> loggers w !! i = Some lg -> ~ In h (lg_handlers lg)) ->
  (q < bound)%nat ->
  ~ In h (reached_handlers fuel w q lvl).
Proof.
  intros Hwf Hnot. revert q. induction fuel as [|fuel IH]; intros q Hq; [intros []|].
  simpl. destruct (loggers w !! q) as [lg|] eqn:Hl; [|intros []].
  destruct (lvl <? lg_level lg); [intros []|].
  rewrite in_app_iff. intros [Hin|Hin].
  - apply live_subseteq in Hin. by apply (Hnot q lg).
  - destruct (lg_propagate lg); [|done].
    destruct (lg_parent lg) as [p|] eqn:Hp; [|done].
    apply (IH p); [|done]. specialize (Hwf q lg p Hl Hp). lia.
Qed.

(** The claim as the specification words it, for a child and its parent:
    a handler attached to the parent alone sees one call for every record
    that passes the child's gate, whatever the parent's level. *)
Definition propagation_ignores_parent_level : Prop :=
  forall (w : World) (c p h : nat) (this parent : Logger) (lvl : Z)
         (msg : string) (args : list value),
    loggers w !! c = Some this -> loggers w !! p = Some parent ->
    lg_propagate this = true -> lg_parent this = Some p ->
    lg_parent parent = None ->
    lg_handlers this = [] -> lg_handlers parent = [h] ->
    (h < length (handlers w))%nat ->
    lg_level this <= lvl ->
    emits_to h (new_emits w (fst (_log 2 c lvl msg args w))) = 1%nat.

(** A root at ERROR with a memory handler, and a child at DEBUG with no
    handler of its own. *)
Definition propagate_world : World :=
  fst ((root ← new_Logger "app";
        m ← new_Handler (KMemory 1000 []);
        addHandler root m;;
        Logger_setLevel root LogLevel.ERROR;;
        child ← getChild root "db";
        clearHandlers child;;
        Logger_setLevel child LogLevel.DEBUG)
       (empty_world (fun n => 1793593800123 + Z.of_nat n) (fun _ => 0))).


Lemma emits_to_not_in h l : ~ In h (List.map fst l) -> emits_to h l = 0%nat.
Proof. intros H. unfold emits_to. by apply count_occ_not_In. Qed.

Lemma in_emits_fst (h : nat) (r : LogRecord) l : In (h, r) l -> In h (List.map fst l).
Proof. intros H. apply in_map_iff. by exists (h, r). Qed.

Lemma in_own_calls (h : nat) (r rc : LogRecord) w hs :
  In (h, r) (List.map (fun h' => (h', rc)) (live w hs)) -> In h hs /\ r = rc.
Proof.
  intros H. apply in_map_iff in H. destruct H as (h' & [= -> ->] & Hin).
  split; [by eapply live_subseteq | done].
Qed.


Lemma wf_parents_propagate_world : wf_parents propagate_world.
Proof.
  intros i lg p Hi Hp.
  destruct i as [|[|i]]; vm_compute in Hi; [| |done]; injection Hi as <-;
    vm_compute in Hp; [done|]. injection Hp as <-. lia.
Qed.


(** ** A failing handler *)

Lemma wf_parents_frame w w' : loggers w' = loggers w -> wf_parents w -> wf_parents w'.
Proof. intros Hl Hwf i lg p. rewrite Hl. apply Hwf. Qed.

(** With parents older than their children, a call with fuel beyond the
    logger's index returns: nothing is thrown into the caller. *)
Lemma _log_returns fuel lid lvl msg args w :
  wf_parents w -> (lid < fuel)%nat -> is_Some (loggers w !! lid) ->
  snd (_log fuel lid lvl msg args w) = Ok tt.
Proof.
  revert lid args w. induction fuel as [|fuel IH]; intros lid args w Hwf Hlt [this Hl];
    [lia|].
  destruct (Z.lt_ge_cases lvl (lg_level this)) as [Hl1|Hl1].
  { by rewrite (_log_dropped _ _ _ _ _ _ this). }
  rewrite (_log_accepted _ _ _ _ _ _ this) by done. cbv zeta.
  set (record := build_record this lvl msg args (clock w (tick w))).
  set (w1 := set_tick (S (tick w)) w).
  pose proof (dispatch_emitted (lg_handlers this) record w1) as Hd.
  set (w2 := fst (dispatch (lg_handlers this) record w1)) in *.
  destruct (lg_propagate this); [|done].
  destruct (lg_parent this) as [p|] eqn:Hp; [|done].
  pose proof (Hwf lid this p Hl Hp) as Hlt'.
  apply IH.
  - eapply wf_parents_frame; [|exact Hwf]. by rewrite (em_loggers _ _ _ Hd).
  - lia.
  - rewrite (em_loggers _ _ _ Hd). simpl. apply lookup_lt_is_Some.
    apply lookup_lt_Some in Hl. lia.
Qed.

Definition emit_not_implemented_report : string :=
  "Handler error: emit method must be implemented" +:+ newline.

(** The guarded call of a base [Handler]'s [emit] throws, and the failure
    is reported on the standard error stream. *)
Lemma guarded_emit_base_reports hid record w :
  class_of w hid = Some CHandler ->
  stderr (fst (try_catch (Handler_emit hid record)
                 (fun error => console_error ("Handler error: " +:+ exn_message error)) w))
  = stderr w ++ [emit_not_implemented_report].
Proof.
  unfold class_of. intros Hc. unfold try_catch, Handler_emit.
  rewrite exec_bind. unfold getH.
  destruct (handlers w !! hid) as [h|]; [|done]. simpl in Hc.
  destruct (h_kind h); try done.
Qed.

Lemma dispatch_reports_base hs record w hid :
  class_of w hid = Some CHandler -> In hid hs ->
  In emit_not_implemented_report (stderr (fst (dispatch hs record w))).
Proof.
  revert w. induction hs as [|h hs IH]; intros w Hc Hin; [done|].
  unfold dispatch. simpl for_each. rewrite exec_bind.
  pose proof (guarded_emit_ok h record w) as Hok.
  pose proof (guarded_emit_emitted h record w) as Hem.
  pose proof (guarded_emit_base_reports h record w) as Hrep.
  destruct (try_catch _ _ w) as [w1 r]. simpl in Hok, Hem, Hrep. subst r.
  fold (dispatch hs record).
  destruct Hin as [->|Hin].
  - pose proof (em_stderr _ _ _ (dispatch_emitted hs record w1)) as [k Hk].
    rewrite Hk, (Hrep Hc). rewrite !in_app_iff. simpl. tauto.
  - apply IH; [|done]. by rewrite (em_class _ _ _ Hem).
Qed.

Lemma in_live w h hs : In h hs -> (h < length (handlers w))%nat -> In h (live w hs).
Proof. intros Hin Hlt. unfold live. apply filter_In. by rewrite bool_decide_eq_true. Qed.


(** A logger with a base [Handler], whose [emit] throws, ahead of a memory
    handler. *)
Definition faulty_world : World :=
  fst ((root ← new_Logger "app";
        bad ← new_Handler KBase;
        good ← new_Handler (KMemory 1000 []);
        addHandler root bad;;
        addHandler root good)
       (empty_world (fun n => 1793593800123 + Z.of_nat n) (fun _ => 0))).


(** ** The child cache *)

Definition child_of (lid : nat) (this : Logger) (nm : string) : Logger :=
  mkLogger (lg_name this +:+ "." +:+ nm) (lg_level this) (lg_handlers this)
    true (Some lid) ∅.

Definition with_child (nm : string) (child : nat) (this : Logger) : Logger :=
  mkLogger (lg_name this) (lg_level this) (lg_handlers this) (lg_propagate this)
    (lg_parent this) (<[nm := child]> (lg_children this)).

Lemma getChild_cached lid nm w this child :
  loggers w !! lid = Some this -> lg_children this !! nm = Some child ->
  getChild lid nm w = (w, Ok child).
Proof.
  intros Hl Hc. unfold getChild. rewrite exec_bind. unfold getL.
  by rewrite Hl, Hc.
Qed.

Lemma insert_snoc {A : Type} (l : list A) (d x : A) :
  <[length l := x]> (l ++ [d]) = l ++ [x].
Proof.
  replace (length l) with (length l + 0)%nat at 1 by lia.
  by rewrite insert_app_r.
Qed.

Lemma getChild_new lid nm w this :
  loggers w !! lid = Some this -> lg_children this !! nm = None ->
  getChild lid nm w =
  (set_loggers
     (<[lid := with_child nm (length (loggers w)) this]>
        (loggers w ++ [child_of lid this nm])) w,
   Ok (length (loggers w))).
Proof.
  intros Hl Hc. unfold getChild. rewrite exec_bind. unfold getL.
  rewrite Hl, Hc. unfold mbind, M_bind, new_Logger, setL, modify. simpl.
  unfold set_loggers. simpl. by rewrite insert_snoc.
Qed.

(** C8. [getChild] returns the cached child when there is one, so two calls
    with the same name give the same object. A child made by the call is
    named after the parent and the relative name, has the parent's level,
    its own list of the parent's handlers and the parent as [parent];
    adding, removing or clearing handlers on the parent later leaves the
    child's list as it was. *)
Theorem getChild_is_identity_stable_and_copies
    (w : World) (lid : nat) (nm : string) (this : Logger) :
  loggers w !! lid = Some this ->
  exists child,
    let w1 := fst (getChild lid nm w) in
    snd (getChild lid nm w) = Ok child /\
    getChild lid nm w1 = (w1, Ok child) /\
    (lg_children this !! nm = None ->
     child <> lid /\
     loggers w !! child = None /\
     loggers w1 !! child = Some (child_of lid this nm) /\
     forall h,
       lg_handlers <$> loggers (fst (addHandler lid h w1)) !! child
         = Some (lg_handlers this) /\
       lg_handlers <$> loggers (fst (removeHandler lid h w1)) !! child
         = Some (lg_handlers this) /\
       lg_handlers <$> loggers (fst (clearHandlers lid w1)) !! child
         = Some (lg_handlers this)).
Proof.
  intros Hl. destruct (lg_children this !! nm) as [c|] eqn:Hc.
  - exists c. rewrite (getChild_cached _ _ _ this c) by done. simpl.
    split; [done|]. split; [by apply (getChild_cached _ _ _ this)|done].
  - exists (length (loggers w)). rewrite (getChild_new _ _ _ this) by done.
    cbv zeta. simpl fst. simpl snd.
    pose proof (lookup_lt_Some _ _ _ Hl) as Hlt.
    set (w1 := set_loggers _ w).
    assert (Hne : length (loggers w) <> lid) by lia.
    assert (Hthis : loggers w1 !! lid
                    = Some (with_child nm (length (loggers w)) this)).
    { unfold w1. simpl. apply list_lookup_insert_eq. rewrite length_app. lia. }
    assert (Hchild : loggers w1 !! length (loggers w) = Some (child_of lid this nm)).
    { unfold w1. simpl. rewrite list_lookup_insert_ne by lia.
      rewrite lookup_app_r by lia. by rewrite Nat.sub_diag. }
    split; [done|]. split.
    { apply (getChild_cached _ _ _ (with_child nm (length (loggers w)) this));
        [done|]. simpl. apply lookup_insert_eq. }
    intros _. split; [done|]. split; [by apply lookup_ge_None|]. split; [done|].
    intros h.
    unfold addHandler, removeHandler, clearHandlers.
    rewrite !exec_bind. unfold getL. rewrite Hthis. simpl.
    rewrite !list_lookup_insert_ne by lia.
    rewrite lookup_app_r by lia. by rewrite Nat.sub_diag.
Qed.

(** A root logger with one handler. *)
Definition family_world : World :=
  fst ((root ← new_Logger "app";
        m ← new_Handler (KMemory 1000 []);
        addHandler root m)
       (empty_world (fun n => 1793593800123 + Z.of_nat n) (fun _ => 0))).

Lemma getChild_witness :
  exists child,
    snd (getChild 0 "db" family_world) = Ok child /\
    getChild 0 "db" (fst (getChild 0 "db" family_world))
    = (fst (getChild 0 "db" family_world), Ok child).
Proof.
  destruct (getChild_is_identity_stable_and_copies family_world 0 "db"
              (mkLogger "app" LogLevel.INFO [0%nat] true None ∅) eq_refl)
    as (child & H1 & H2 & _).
  exists child. split; [exact H1 | exact H2].
Defined.

(** ** The stream of a console handler *)

(** What has been written to a stream. *)
Definition stream_content (w : World) (st : Stream) : list string :=
  match st with
  | Stdout => stdout w
  | Stderr => stderr w
  | UserStream n => default [] (user_streams w !! n)
  end.

(** The stream field of a console handler. *)
Definition console_stream (w : World) (hid : nat) : option (option Stream) :=
  match h_kind <$> handlers w !! hid with
  | Some (KConsole s) => Some s
  | _ => None
  end.

(** The stream the level of a record selects. *)
Definition stream_for (record : LogRecord) : Stream :=
  if 3 <=? level record then Stderr else Stdout.

Definition default_formatter : Formatter := SimpleFormatter "YYYY-MM-DD HH:mm:ss".

(** The lines a formatter renders for the records it does not fail on. *)
Definition rendered (zone : TimeZone) (f : Formatter) (records : list LogRecord)
  : list string :=
  omap (fun r =>
          match Formatter_format zone f r with
          | Ok s => Some (s +:+ newline)
          | Throw _ => None
          end) records.

(** Call [emit] for each record in turn, whatever each call throws. *)
Fixpoint emit_all (hid : nat) (records : list LogRecord) (w : World) : World :=
  match records with
  | [] => w
  | r :: rest => emit_all hid rest (fst (Handler_emit hid r w))
  end.

Lemma stream_content_write st s w st' :
  stream_content (fst (stream_write st s w)) st' =
  if decide (st' = st) then stream_content w st' ++ [s] else stream_content w st'.
Proof.
  destruct (decide (st' = st)) as [->|Hne].
  - destruct st; simpl; try done. by rewrite lookup_insert_eq.
  - destruct st, st'; simpl; try done. rewrite lookup_insert_ne; [done|congruence].
Qed.

(** One [emit] of a console handler: the stream is the one already set, or
    else the one the record selects; it is kept in the handler, and the
    rendered line goes to it. *)
Lemma console_emit hid r w fmt lvl s :
  handlers w !! hid = Some (mkHandler fmt lvl (KConsole s)) ->
  let st := default (stream_for r) s in
  let f := default default_formatter fmt in
  let w1 :=
    set_handlers (<[hid := mkHandler (Some f) lvl (KConsole (Some st))]> (handlers w))
      (set_emit_log (emit_log w ++ [(hid, r)]) w) in
  Handler_emit hid r w =
  match Formatter_format (tz w) f r with
  | Ok line => (fst (stream_write st (line +:+ newline) w1), Ok tt)
  | Throw e => (w1, Throw e)
  end.
Proof.
  intros Hh. cbv zeta. pose proof (lookup_lt_Some _ _ _ Hh) as Hlt.
  unfold Handler_emit, ConsoleHandler_emit, Handler_format, set_stream.
  unfold mbind, M_bind, getH, setH, modify, get, lift_result, mret, M_ret. simpl.
  rewrite Hh. simpl. rewrite Hh. simpl.
  destruct s as [st|], fmt as [f|]; simpl; rewrite ?Hh; simpl;
    rewrite ?list_lookup_insert_eq by done; simpl; rewrite ?Hh; simpl;
    rewrite ?list_lookup_insert_eq by done; simpl;
    rewrite ?list_insert_insert_eq;
    rewrite ?(list_insert_id _ _ _ Hh);
    unfold stream_for, default_formatter, stream_write, modify;
    repeat case_match; simplify_eq; reflexivity.
Qed.

Lemma rendered_cons zone f r rs :
  rendered zone f (r :: rs) =
  match Formatter_format zone f r with
  | Ok s => (s +:+ newline) :: rendered zone f rs
  | Throw _ => rendered zone f rs
  end.
Proof. unfold rendered. simpl. by destruct (Formatter_format zone f r). Qed.

(** Once the stream is set, every later [emit] keeps it and writes to it
    alone. *)
Lemma emit_all_latched hid f lvl st rs w :
  handlers w !! hid = Some (mkHandler (Some f) lvl (KConsole (Some st))) ->
  let w' := emit_all hid rs w in
  handlers w' !! hid = Some (mkHandler (Some f) lvl (KConsole (Some st))) /\
  forall st',
    stream_content w' st' =
    if decide (st' = st)
    then stream_content w st' ++ rendered (tz w) f rs
    else stream_content w st'.
Proof.
  revert w. induction rs as [|r rs IH]; intros w Hh; cbv zeta.
  { simpl. split; [done|]. intros st'. case_decide; [|done]. by rewrite app_nil_r. }
  simpl emit_all. rewrite (console_emit hid r w _ _ _ Hh). simpl default.
  rewrite (list_insert_id _ _ _ Hh).
  set (w1 := set_handlers (handlers w) (set_emit_log (emit_log w ++ [(hid, r)]) w)).
  assert (Hh1 : handlers w1 !! hid
                = Some (mkHandler (Some f) lvl (KConsole (Some st)))) by done.
  assert (Hc1 : forall st', stream_content w1 st' = stream_content w st')
    by (by intros []).
  rewrite rendered_cons.
  destruct (Formatter_format (tz w) f r) as [line|e]; cbn [fst].
  - set (w2 := fst (stream_write st (line +:+ newline) w1)).
    assert (Hh2 : handlers w2 !! hid
                  = Some (mkHandler (Some f) lvl (KConsole (Some st))))
      by (unfold w2; by destruct st).
    assert (Htz : tz w2 = tz w) by (unfold w2; by destruct st).
    destruct (IH w2 Hh2) as [IH1 IH2]. split; [done|].
    intros st'. rewrite IH2, Htz. unfold w2. rewrite stream_content_write, Hc1.
    case_decide; [|done]. by rewrite <- app_assoc.
  - destruct (IH w1 Hh1) as [IH1 IH2]. split; [done|].
    intros st'. rewrite IH2, Hc1. done.
Qed.

(** C10. A console handler made without a stream takes, at its first
    [emit], the standard error stream for a record of level 3 or more and
    the standard output otherwise, and keeps it: the lines of that record
    and of every later one are written to that stream, and nothing is
    written to any other. *)
Theorem console_stream_is_latched_by_first_record
    (w : World) (hid : nat) (fmt : option Formatter) (lvl : option Z)
    (first : LogRecord) (rest : list LogRecord) :
  handlers w !! hid = Some (mkHandler fmt lvl (KConsole None)) ->
  let latched := if 3 <=? level first then Stderr else Stdout in
  let w' := emit_all hid (first :: rest) w in
  let lines := rendered (tz w) (default default_formatter fmt) (first :: rest) in
  console_stream w' hid = Some (Some latched) /\
  forall st,
    stream_content w' st =
    if decide (st = latched) then stream_content w st ++ lines
    else stream_content w st.
Proof.
  intros Hh. cbv zeta. pose proof (lookup_lt_Some _ _ _ Hh) as Hlt.
  fold (stream_for first). simpl emit_all.
  rewrite (console_emit hid first w _ _ _ Hh). simpl default at 1 2.
  set (f := default default_formatter fmt).
  set (st := stream_for first).
  set (w1 := set_handlers _ (set_emit_log (emit_log w ++ [(hid, first)]) w)).
  assert (Hh1 : handlers w1 !! hid
                = Some (mkHandler (Some f) lvl (KConsole (Some st))))
    by (unfold w1; simpl; by rewrite list_lookup_insert_eq).
  assert (Hc1 : forall st', stream_content w1 st' = stream_content w st')
    by (by intros []).
  rewrite rendered_cons. fold f.
  destruct (Formatter_format (tz w) f first) as [line|e]; cbn [fst].
  - set (w2 := fst (stream_write st (line +:+ newline) w1)).
    assert (Hh2 : handlers w2 !! hid
                  = Some (mkHandler (Some f) lvl (KConsole (Some st))))
      by (unfold w2; by destruct st).
    assert (Htz : tz w2 = tz w) by (unfold w2; by destruct st).
    destruct (emit_all_latched hid f lvl st rest w2 Hh2) as [E1 E2]. split.
    + unfold console_stream. by rewrite E1.
    + intros st'. rewrite E2, Htz. unfold w2. rewrite stream_content_write, Hc1.
      case_decide; [|done]. by rewrite <- app_assoc.
  - destruct (emit_all_latched hid f lvl st rest w1 Hh1) as [E1 E2]. split.
    + unfold console_stream. by rewrite E1.
    + intros st'. rewrite E2, Hc1. done.
Qed.

(** A console handler without a stream. *)
Definition console_world : World :=
  fst (new_Handler (KConsole None)
         (empty_world (fun n => 1793593800123 + Z.of_nat n) (fun _ => 0))).

Lemma console_stream_witness :
  let w' :=
    emit_all 0
      [mkLogRecord "app" LogLevel.INFO "started" 1793593800123 (VObj []);
       mkLogRecord "app" LogLevel.ERROR "failed" 1793593801123 (VObj [])]
      console_world in
  console_stream w' 0 = Some (Some Stdout) /\
  stream_content w' Stderr = [] /\
  stream_content w' Stdout =
    ["[2026-11-02 04:30:00] INFO     app            : started" +:+ newline;
     "[2026-11-02 04:30:01] ERROR    app            : failed" +:+ newline].
Proof.
  pose proof (console_stream_is_latched_by_first_record console_world 0 None None
                (mkLogRecord "app" LogLevel.INFO "started" 1793593800123 (VObj []))
                [mkLogRecord "app" LogLevel.ERROR "failed" 1793593801123 (VObj [])]
                eq_refl) as [H1 H2].
  cbv zeta. split; [exact H1|]. split.
  - exact (H2 Stderr).
  - exact (H2 Stdout).
Defined.

(** ** Size-based rotation *)

(** [creates allowed w w']: between [w] and [w'] only the file system has
    changed, and every file that exists in [w'] existed in [w] or has a name
    in [allowed]. *)
Definition creates (allowed : string -> Prop) (w w' : World) : Prop :=
  w' = set_fs_clock (fs_clock w') (set_files (files w') w) /\
  forall p, is_Some (files w' !! p) -> is_Some (files w !! p) \/ allowed p.

Lemma creates_handlers allowed w w' : creates allowed w w' -> handlers w' = handlers w.
Proof. intros [-> _]. done. Qed.

Lemma world_eta w : w = set_fs_clock (fs_clock w) (set_files (files w) w).
Proof. by destruct w. Qed.

Section Creates.
Context (allowed : string -> Prop).

#[global] Instance creates_preorder : PreOrder (creates allowed).
Proof.
  split.
  - intros w. split; [apply world_eta|]. auto.
  - intros w1 w2 w3 [H1 H1'] [H2 H2']. split.
    + rewrite H2 at 1. rewrite H1 at 1. done.
    + intros p Hp. destruct (H2' p Hp) as [Hp2|]; [|by right]. auto.
Qed.

Lemma creates_existsSync p : keeps (creates allowed) (existsSync p).
Proof. intros w. simpl. reflexivity. Qed.

Lemma creates_get_matching base : keeps (creates allowed) (_getMatchingFiles base).
Proof. intros w. simpl. reflexivity. Qed.

Lemma creates_unlinkSync p : keeps (creates allowed) (unlinkSync p).
Proof.
  intros w. unfold unlinkSync. destruct (files w !! p) eqn:Hp; [|reflexivity].
  split; [by destruct w|]. simpl. intros q Hq. left.
  destruct (decide (q = p)) as [->|Hne].
  - by rewrite lookup_delete_eq in Hq; destruct Hq.
  - by rewrite lookup_delete_ne in Hq.
Qed.

Lemma creates_renameSync src dst :
  allowed dst -> keeps (creates allowed) (renameSync src dst).
Proof.
  intros Hdst w. unfold renameSync. destruct (files w !! src) eqn:Hp; [|reflexivity].
  split; [by destruct w|]. simpl. intros q Hq.
  destruct (decide (q = dst)) as [->|Hne]; [by right|left].
  rewrite lookup_insert_ne in Hq by done.
  destruct (decide (q = src)) as [->|Hne'].
  - by rewrite lookup_delete_eq in Hq; destruct Hq.
  - by rewrite lookup_delete_ne in Hq.
Qed.

Lemma creates_remove_oldest base keep :
  keeps (creates allowed) (remove_oldest base keep).
Proof.
  unfold remove_oldest.
  apply keeps_bind; [tc_solve|apply creates_get_matching|intros names].
  apply keeps_bind; [tc_solve|apply keeps_get; tc_solve|intros w].
  cbv zeta.
  match goal with |- context [if ?b then _ else _] => destruct b end;
    [|apply keeps_mret; tc_solve].
  apply keeps_for_each; [tc_solve|intros p].
  apply keeps_try_catch; [tc_solve|apply creates_unlinkSync|].
  intros e. apply keeps_mret. tc_solve.
Qed.

Lemma creates_shift_backup base i :
  allowed (backup_name base (i + 1)) ->
  keeps (creates allowed) (shift_backup base i).
Proof.
  intros Ha. unfold shift_backup.
  apply keeps_bind; [tc_solve|apply creates_existsSync|intros [|]];
    [|apply keeps_mret; tc_solve].
  apply keeps_bind; [tc_solve|apply creates_existsSync|intros dst_exists].
  apply keeps_bind; [tc_solve| |intros ?; by apply creates_renameSync].
  destruct dst_exists; [apply creates_unlinkSync|apply keeps_mret; tc_solve].
Qed.
End Creates.

Lemma keeps_for_each_in {A : Type} (R : relation World) `{!PreOrder R}
    (xs : list A) (body : A -> M unit) :
  (forall x, In x xs -> keeps R (body x)) -> keeps R (for_each xs body).
Proof.
  induction xs as [|x xs IH]; intros Hb; simpl.
  - by apply keeps_mret.
  - apply keeps_bind; [done|apply Hb; by left|intros ?].
    apply IH. intros y Hy. apply Hb. by right.
Qed.

(** A rotating handler object: its fields other than the formatter, the
    level and the open stream. *)
Definition rotating_at (w : World) (hid : nat) (path : string)
    (maxBytes backupCount maxFiles : Z) : Prop :=
  exists fmt lvl md fo,
    handlers w !! hid =
    Some (mkHandler fmt lvl
            (KRotating (mkFileState path md fo) maxBytes backupCount maxFiles)).

(** The names of the numbered backups [rotate] can produce. *)
Definition numbered (path : string) (backupCount : Z) (p : string) : Prop :=
  exists i, 1 <= i <= Z.max 1 backupCount /\ p = backup_name path i.

(** [yields I m post]: the method [m] keeps the invariant [I], whether it
    returns or throws, and a value it returns satisfies [post]. *)
Definition yields {A : Type} (I : World -> Prop) (m : M A) (post : A -> Prop)
  : Prop :=
  forall w, I w -> I (fst (m w)) /\ forall a, snd (m w) = Ok a -> post a.

Section Yields.
Context (I : World -> Prop).

Lemma yields_mret {A : Type} (a : A) (post : A -> Prop) :
  post a -> yields I (mret a) post.
Proof. intros Ha w Hw. split; [done|]. by intros ? [= <-]. Qed.

Lemma yields_throw {A : Type} (e : exn) (post : A -> Prop) :
  yields I (@throw A e) post.
Proof. intros w Hw. split; [done|]. by intros ?. Qed.

Lemma yields_bind {A B : Type} (m : M A) (f : A -> M B)
    (mid : A -> Prop) (post : B -> Prop) :
  yields I m mid -> (forall a, mid a -> yields I (f a) post) ->
  yields I (m ≫= f) post.
Proof.
  intros Hm Hf w Hw. rewrite exec_bind. destruct (Hm w Hw) as [H1 H2].
  destruct (m w) as [w' [a|e]]; simpl in *.
  - apply (Hf a); [by apply H2|done].
  - split; [done|]. by intros ?.
Qed.

Lemma yields_weaken {A : Type} (m : M A) (post post' : A -> Prop) :
  yields I m post -> (forall a, post a -> post' a) -> yields I m post'.
Proof. intros Hm Himp w Hw. destruct (Hm w Hw). split; auto. Qed.

Lemma yields_try_catch {A : Type} (m : M A) (h : exn -> M A)
    (post : A -> Prop) :
  yields I m post -> (forall e, yields I (h e) post) ->
  yields I (try_catch m h) post.
Proof.
  intros Hm Hh w Hw. unfold try_catch. destruct (Hm w Hw) as [H1 H2].
  destruct (m w) as [w' [a|e]]; simpl in *; [by split|].
  by apply Hh.
Qed.

Lemma yields_for_each {A : Type} (xs : list A) (body : A -> M unit) :
  (forall x, In x xs -> yields I (body x) (fun _ => True)) ->
  yields I (for_each xs body) (fun _ => True).
Proof.
  induction xs as [|x xs IH]; intros Hb; simpl.
  - by apply yields_mret.
  - eapply yields_bind; [apply Hb; by left|intros ? _].
    apply IH. intros y Hy. apply Hb. by right.
Qed.

(** A method that keeps a preorder keeps every invariant the preorder
    carries along. *)
Lemma yields_keeps {A : Type} (R : relation World) (m : M A) :
  (forall w w', I w -> R w w' -> I w') -> keeps R m ->
  yields I m (fun _ => True).
Proof. intros HR Hm w Hw. split; [|done]. eapply HR; [exact Hw|apply Hm]. Qed.
End Yields.

Lemma creates_createWriteStream allowed p md :
  allowed p -> keeps (creates allowed) (createWriteStream p md).
Proof.
  intros Hp w. unfold createWriteStream, put_file. simpl.
  destruct (files w !! p) eqn:Hf; [destruct md|]; try reflexivity;
    (split; [by destruct w|]; simpl; intros q Hq;
     destruct (decide (q = p)) as [->|Hne]; [by right|left];
     by rewrite lookup_insert_ne in Hq).
Qed.

Lemma creates_WriteStream_write allowed ws s :
  keeps (creates allowed) (WriteStream_write ws s).
Proof.
  intros w. unfold WriteStream_write, put_file. simpl.
  destruct (files w !! ws_path ws) eqn:Hf; [|reflexivity].
  split; [by destruct w|]. simpl. intros q Hq. left.
  destruct (decide (q = ws_path ws)) as [->|Hne]; [by rewrite Hf|].
  by rewrite lookup_insert_ne in Hq.
Qed.

(** A handler of a file class keeps its class and the fields that class
    adds, and what [FileHandler.emit] inherits keeps any property of the
    rest of the world that survives a change of the handler store and the
    creation of the log file. *)
Section FileHandlerInv.
Context (hid : nat) (path : string) (shape : FileState -> HandlerKind)
  (E : World -> Prop).
Hypothesis shape_fh : forall fs, kind_fh (shape fs) = Some fs.
Hypothesis shape_with : forall fs fs', kind_with_fh fs' (shape fs) = shape fs'.
Hypothesis E_creates :
  forall w w', E w -> creates (fun p => p = path) w w' -> E w'.
Hypothesis E_handlers : forall w hs, E w -> E (set_handlers hs w).

Definition has_shape (h : Handler) : Prop :=
  exists fmt lvl md fo, h = mkHandler fmt lvl (shape (mkFileState path md fo)).

Definition file_inv (w : World) : Prop :=
  (exists h, handlers w !! hid = Some h /\ has_shape h) /\ E w.

Lemma fi_getH : yields file_inv (getH hid) has_shape.
Proof.
  intros w Hw. pose proof Hw as [(h & Hh & Hs) _].
  unfold getH. rewrite Hh. simpl. split; [done|]. by intros ? [= <-].
Qed.

Lemma fi_creates {A : Type} (m : M A) :
  keeps (creates (fun p => p = path)) m -> yields file_inv m (fun _ => True).
Proof.
  apply yields_keeps. intros w w' [Hr He] Hcr. split.
  - by rewrite (creates_handlers _ _ _ Hcr).
  - by eapply E_creates.
Qed.

Lemma fi_setH fmt lvl md fo :
  yields file_inv (setH hid (mkHandler fmt lvl (shape (mkFileState path md fo))))
    (fun _ => True).
Proof.
  intros w [(h & Hh & Hs) He]. split; [|done]. split; [|by apply E_handlers].
  eexists. split; [|by exists fmt, lvl, md, fo]. simpl.
  apply list_lookup_insert_eq. by eapply lookup_lt_Some.
Qed.

Lemma fi_get_fh : yields file_inv (get_fh hid) (fun fh => filename fh = path).
Proof.
  unfold get_fh. eapply yields_bind; [apply fi_getH|].
  intros h (fmt & lvl & md & fo & ->). simpl. rewrite shape_fh.
  by apply yields_mret.
Qed.

Lemma fi_set_file f : yields file_inv (set_file hid f) (fun _ => True).
Proof.
  unfold set_file. eapply yields_bind; [apply fi_getH|].
  intros h (fmt & lvl & md & fo & ->). simpl. rewrite shape_fh, shape_with.
  apply fi_setH.
Qed.

Lemma fi_Handler_format r : yields file_inv (Handler_format hid r) (fun _ => True).
Proof.
  unfold Handler_format. eapply yields_bind; [apply fi_getH|].
  intros h (fmt & lvl & md & fo & ->). simpl.
  eapply yields_bind with (mid := fun _ => True).
  - destruct fmt; [by apply yields_mret|].
    eapply yields_bind; [apply fi_setH|]. intros ? _. by apply yields_mret.
  - intros f _. eapply yields_bind with (mid := fun _ => True).
    + intros w Hw. by split.
    + intros w _ w' Hw'. by split.
Qed.

Lemma fi__openFile : yields file_inv (_openFile hid) (fun _ => True).
Proof.
  unfold _openFile. eapply yields_bind; [apply fi_get_fh|].
  intros fh Hfh. destruct (_file fh); [by apply yields_mret|].
  eapply yields_bind with (mid := fun _ => True).
  - by apply fi_creates, creates_createWriteStream.
  - intros ws _. apply fi_set_file.
Qed.

Lemma fi_FileHandler_emit r :
  yields file_inv (FileHandler_emit hid r) (fun _ => True).
Proof.
  unfold FileHandler_emit.
  eapply yields_bind; [apply fi__openFile|intros ? _].
  eapply yields_bind; [apply fi_Handler_format|intros formatted _].
  eapply yields_bind; [apply fi_get_fh|intros fh _].
  destruct (_file fh) as [ws|]; [|apply yields_throw].
  eapply yields_bind with (mid := fun _ => True).
  - apply fi_creates, creates_WriteStream_write.
  - intros ws' _. apply fi_set_file.
Qed.
End FileHandlerInv.

Section Rotating.
Context (w0 : World) (hid : nat) (path : string) (mb bc mf : Z).

(** The names a rotating handler on [path] may create. *)
Definition file_names (p : string) : Prop := p = path \/ numbered path bc p.

(** Every file existed in [w0] or has one of the handler's names. *)
Definition files_within (w : World) : Prop :=
  forall p, is_Some (files w !! p) -> is_Some (files w0 !! p) \/ file_names p.

(** The handler is still the rotating handler on [path], and no other file
    was created. *)
Definition rot_inv : World -> Prop :=
  file_inv hid path (fun fs => KRotating fs mb bc mf) files_within.

Lemma rot_inv_intro w :
  rotating_at w hid path mb bc mf -> files_within w -> rot_inv w.
Proof.
  intros (fmt & lvl & md & fo & Hh) Hf. split; [|done].
  eexists. split; [exact Hh|]. by exists fmt, lvl, md, fo.
Qed.

Lemma rot_inv_elim w :
  rot_inv w -> rotating_at w hid path mb bc mf /\ files_within w.
Proof.
  intros [(h & Hh & fmt & lvl & md & fo & ->) Hf]. split; [|done].
  by exists fmt, lvl, md, fo.
Qed.

Lemma files_within_creates w w' :
  files_within w -> creates file_names w w' -> files_within w'.
Proof.
  intros Hf [_ Hc] p Hp. destruct (Hc p Hp) as [Hp'|]; [|by right]. auto.
Qed.

Lemma rot_getH :
  yields rot_inv (getH hid)
    (has_shape path (fun fs => KRotating fs mb bc mf)).
Proof. apply fi_getH. Qed.

Lemma rot_creates {A : Type} (m : M A) :
  keeps (creates file_names) m -> yields rot_inv m (fun _ => True).
Proof.
  apply yields_keeps. intros w w' [Hr Hf] Hcr. split.
  - by rewrite (creates_handlers _ _ _ Hcr).
  - by eapply files_within_creates.
Qed.

Lemma rot_set_file f : yields rot_inv (set_file hid f) (fun _ => True).
Proof. by apply fi_set_file. Qed.

Lemma rot_FileHandler_emit r :
  yields rot_inv (FileHandler_emit hid r) (fun _ => True).
Proof.
  apply fi_FileHandler_emit; try done.
  intros w w' Hf [Heq Hc]. apply (files_within_creates w); [done|].
  split; [done|]. intros p Hp. destruct (Hc p Hp) as [? | ->]; [by left|].
  right. by left.
Qed.

Lemma in_rev_seqZ i : In i (rev (seqZ 1 (bc - 1))) -> 1 <= i < bc.
Proof.
  rewrite <- in_rev. intros Hin. apply list_elem_of_In, elem_of_seqZ in Hin. lia.
Qed.

Lemma rot_rotate : yields rot_inv (RotatingFileHandler_rotate hid) (fun _ => True).
Proof.
  unfold RotatingFileHandler_rotate. eapply yields_bind; [apply rot_getH|].
  intros h (fmt & lvl & md & fo & ->). simpl.
  eapply yields_bind with (mid := fun _ => True).
  { destruct fo; [apply rot_set_file|by apply yields_mret]. }
  intros ? _. eapply yields_bind with (mid := fun _ => True).
  { apply yields_for_each. intros i Hi. apply in_rev_seqZ in Hi.
    apply rot_creates, creates_shift_backup. right. exists (i + 1). split; [lia|done]. }
  intros ? _. eapply yields_bind with (mid := fun _ => True).
  { apply rot_creates, creates_existsSync. }
  intros cur_exists _. eapply yields_bind with (mid := fun _ => True).
  { destruct cur_exists; [|by apply yields_mret].
    apply rot_creates, creates_renameSync. right. exists 1. split; [lia|done]. }
  intros ? _. apply rot_creates, creates_remove_oldest.
Qed.

Lemma rot_emit r : yields rot_inv (RotatingFileHandler_emit hid r) (fun _ => True).
Proof.
  unfold RotatingFileHandler_emit. eapply yields_bind; [apply rot_getH|].
  intros h (fmt & lvl & md & fo & ->). simpl.
  eapply yields_bind with (mid := fun _ => True); [|intros ? _; apply rot_FileHandler_emit].
  destruct fo as [ws|]; [|by apply yields_mret].
  destruct (mb <=? bytesWritten ws); [apply rot_rotate|by apply yields_mret].
Qed.

Lemma rot_Handler_emit r : yields rot_inv (Handler_emit hid r) (fun _ => True).
Proof.
  unfold Handler_emit. eapply yields_bind; [apply rot_getH|].
  intros h (fmt & lvl & md & fo & ->). simpl.
  eapply yields_bind with (mid := fun _ => True); [|intros ? _; apply rot_emit].
  intros w [Hh Hf]. by split.
Qed.

Lemma rot_emit_all rs w : rot_inv w -> rot_inv (emit_all hid rs w).
Proof.
  revert w. induction rs as [|r rs IH]; intros w Hw; [done|].
  simpl. apply IH. by apply rot_Handler_emit.
Qed.
End Rotating.

Lemma string_length_app (s1 s2 : string) :
  String.length (s1 +:+ s2) = (String.length s1 + String.length s2)%nat.
Proof. induction s1 as [|c s1 IH]; simpl; [done|]. by rewrite IH. Qed.

Lemma backup_name_inj path i j : backup_name path i = backup_name path j -> i = j.
Proof.
  unfold backup_name. intros H.
  apply (inj (String.app path)) in H. apply (inj (String.app ".")) in H.
  by apply (inj pretty) in H.
Qed.

Lemma backup_name_not_path path i : backup_name path i <> path.
Proof.
  unfold backup_name. intros H. apply (f_equal String.length) in H.
  rewrite !string_length_app in H. simpl in H. lia.
Qed.

(** C5. When the open file has written [maxBytes] or more, [emit] is
    [rotate] followed by the write of the record. And with
    [backupCount >= 1], however many records are emitted, a numbered name
    outside [path.1 .. path.backupCount] that did not exist is never
    created. *)
Theorem rotate_before_write_and_backups_bounded
    (w : World) (hid : nat) (path : string) (maxBytes backupCount maxFiles : Z) :
  rotating_at w hid path maxBytes backupCount maxFiles ->
  (forall fmt lvl md ws record,
     handlers w !! hid =
       Some (mkHandler fmt lvl
               (KRotating (mkFileState path md (Some ws))
                  maxBytes backupCount maxFiles)) ->
     maxBytes <= bytesWritten ws ->
     RotatingFileHandler_emit hid record w =
     (RotatingFileHandler_rotate hid;; FileHandler_emit hid record) w) /\
  (1 <= backupCount ->
   forall records n,
     n < 1 \/ backupCount < n ->
     files w !! backup_name path n = None ->
     files (emit_all hid records w) !! backup_name path n = None).
Proof.
  intros Hrot. split.
  - intros fmt lvl md ws record Hh Hge.
    unfold RotatingFileHandler_emit at 1. rewrite exec_bind. unfold getH at 1.
    rewrite Hh. cbn [h_kind _file].
    by rewrite (proj2 (Z.leb_le _ _) Hge).
  - intros Hbc records n Hn Hnone.
    assert (Hinv : rot_inv w hid path maxBytes backupCount maxFiles w)
      by (apply rot_inv_intro; [done|]; intros p Hp; by left).
    apply (rot_emit_all _ _ _ _ _ _ records) in Hinv.
    apply rot_inv_elim in Hinv as [_ Hfiles].
    destruct (files (emit_all hid records w) !! backup_name path n) eqn:Hf; [|done].
    destruct (Hfiles (backup_name path n)) as [Hold|[Hp|(i & Hi & Heq)]].
    + by rewrite Hf.
    + by rewrite Hnone in Hold; destruct Hold.
    + by apply backup_name_not_path in Hp.
    + apply backup_name_inj in Heq. lia.
Qed.

(** A rotating handler on [app.log] that rotates after 10 bytes. *)
Definition rotating_world (backupCount : Z) : World :=
  fst (new_Handler
         (KRotating (mkFileState "app.log" ModeAppend None) 10 backupCount 100)
         (empty_world (fun n => 1793593800123 + Z.of_nat n) (fun _ => 0))).

Definition sample_record (msg : string) : LogRecord :=
  mkLogRecord "app" LogLevel.INFO msg 1793593800123 (VObj []).

Lemma rotate_before_write_witness :
  let w := emit_all 0 [sample_record "one"] (rotating_world 2) in
  RotatingFileHandler_emit 0 (sample_record "two") w =
  (RotatingFileHandler_rotate 0;; FileHandler_emit 0 (sample_record "two")) w /\
  files (emit_all 0 [sample_record "two"; sample_record "three";
                     sample_record "four"; sample_record "five"] w)
    !! backup_name "app.log" 3 = None.
Proof.
  cbv zeta.
  assert (Hh : handlers (emit_all 0 [sample_record "one"] (rotating_world 2)) !! 0%nat
               = Some (mkHandler (Some default_formatter) None
                         (KRotating
                            (mkFileState "app.log" ModeAppend
                               (Some (mkWriteStream "app.log" 52)))
                            10 2 100)))
    by (vm_compute; reflexivity).
  destruct (rotate_before_write_and_backups_bounded
              (emit_all 0 [sample_record "one"] (rotating_world 2))
              0 "app.log" 10 2 100) as [H1 H2].
  - by eexists _, _, _, _.
  - split.
    + apply (H1 _ _ _ _ _ Hh). vm_compute. discriminate.
    + apply H2; [lia|right; lia|vm_compute; reflexivity].
Defined.

(** ** Rotation with [backupCount = 0] *)

(** The claim as the specification words it: with [backupCount = 0] a
    rotation creates no numbered backup. *)
Definition zero_backups_creates_none : Prop :=
  forall (w : World) (hid : nat) (fmt : option Formatter) (lvl : option Z)
         (path : string) (md : OpenMode) (fo : option WriteStream)
         (maxBytes maxFiles : Z) (n : Z),
    handlers w !! hid =
      Some (mkHandler fmt lvl
              (KRotating (mkFileState path md fo) maxBytes 0 maxFiles)) ->
    files w !! backup_name path n = None ->
    files (fst (RotatingFileHandler_rotate hid w)) !! backup_name path n = None.

(** After one record the file holds 52 bytes; the rotation that the next
    record triggers moves it to [app.log.1]. *)
Lemma zero_backups_still_creates_first : ~ zero_backups_creates_none.
Proof.
  intros H.
  specialize (H (emit_all 0 [sample_record "one"] (rotating_world 0)) 0%nat
                (Some default_formatter) None "app.log" ModeAppend
                (Some (mkWriteStream "app.log" 52)) 10 100 1).
  assert (H1 : files (fst (RotatingFileHandler_rotate 0
                 (emit_all 0 [sample_record "one"] (rotating_world 0))))
               !! backup_name "app.log" 1
               = Some (mkFile ("[2026-11-02 04:30:00] INFO     app            : one"
                               +:+ newline) 1))
    by (vm_compute; reflexivity).
  rewrite H in H1; [discriminate| |]; vm_compute; reflexivity.
Qed.

Lemma set_file_rotating hid f w fmt lvl path md fo mb bc mf :
  handlers w !! hid =
    Some (mkHandler fmt lvl (KRotating (mkFileState path md fo) mb bc mf)) ->
  set_file hid f w =
  (set_handlers
     (<[hid := mkHandler fmt lvl (KRotating (mkFileState path md f) mb bc mf)]>
        (handlers w)) w,
   Ok tt).
Proof.
  intros Hh. unfold set_file. rewrite exec_bind. unfold getH. by rewrite Hh.
Qed.

(** Whatever the cleanup deletes, after a rotation with [backupCount = 0]
    nothing exists at [path], and the one numbered backup the rotation
    can create is [path.1], as with [backupCount = 1]. *)
Theorem rotate_with_zero_backups_renames_to_first
    (w : World) (hid : nat) (fmt : option Formatter) (lvl : option Z)
    (path : string) (md : OpenMode) (fo : option WriteStream)
    (maxBytes maxFiles : Z) :
  handlers w !! hid =
    Some (mkHandler fmt lvl
            (KRotating (mkFileState path md fo) maxBytes 0 maxFiles)) ->
  let w' := fst (RotatingFileHandler_rotate hid w) in
  files w' !! path = None /\
  forall p, is_Some (files w' !! p) ->
            is_Some (files w !! p) \/ p = backup_name path 1.
Proof.
  intros Hh. cbv zeta.
  assert (Hrun : exists wb,
    fst (RotatingFileHandler_rotate hid w) = fst (remove_oldest path maxFiles wb)
    /\ files wb !! path = None
    /\ forall p, is_Some (files wb !! p) ->
                 is_Some (files w !! p) \/ p = backup_name path 1).
  { unfold RotatingFileHandler_rotate.
    rewrite exec_bind. unfold getH at 1. rewrite Hh. cbn [h_kind _file filename].
    rewrite exec_bind.
    assert (Hclose : exists wa,
      (match fo with Some _ => set_file hid None | None => mret tt end) w
      = (wa, Ok tt) /\ files wa = files w).
    { destruct fo.
      - rewrite (set_file_rotating _ _ _ _ _ _ _ _ _ _ _ Hh). by eexists.
      - by eexists. }
    destruct Hclose as (wa & -> & Hfa).
    change (rev (seqZ 1 (0 - 1))) with (@nil Z). simpl for_each.
    rewrite exec_bind. change (@mret M M_ret unit tt wa) with (wa, @Ok unit tt). cbv iota beta.
    rewrite exec_bind. unfold existsSync at 1. cbv iota beta.
    rewrite exec_bind. unfold _cleanupOldFiles, renameSync.
    destruct (files wa !! path) as [f|] eqn:Hf.
    - rewrite bool_decide_eq_true_2 by done. rewrite Hf.
      eexists. split; [reflexivity|]. simpl. split.
      + rewrite lookup_insert_ne by apply backup_name_not_path.
        apply lookup_delete_eq.
      + intros p Hp. destruct (decide (p = backup_name path 1)) as [->|Hne];
          [by right|left].
        rewrite lookup_insert_ne in Hp by done.
        destruct (decide (p = path)) as [->|Hne'].
        * by rewrite lookup_delete_eq in Hp; destruct Hp.
        * rewrite lookup_delete_ne in Hp by done. by rewrite <- Hfa.
    - rewrite bool_decide_eq_false_2 by (by intros []).
      exists wa. split; [reflexivity|]. split; [done|].
      intros p Hp. left. by rewrite <- Hfa. }
  destruct Hrun as (wb & -> & Hnone & Hnew).
  destruct (creates_remove_oldest (fun _ => False) path maxFiles wb) as [_ Hc].
  split.
  - destruct (files (fst (remove_oldest path maxFiles wb)) !! path) eqn:Hp; [|done].
    destruct (Hc path) as [Hold|[]]; [by rewrite Hp|].
    by rewrite Hnone in Hold; destruct Hold.
  - intros p Hp. destruct (Hc p Hp) as [Hold|[]]. by apply Hnew.
Qed.

Lemma rotate_with_zero_backups_witness :
  files (fst (RotatingFileHandler_rotate 0
                (emit_all 0 [sample_record "one"] (rotating_world 0))))
    !! "app.log" = None.
Proof.
  refine (proj1 (rotate_with_zero_backups_renames_to_first
            (emit_all 0 [sample_record "one"] (rotating_world 0)) 0
            (Some default_formatter) None "app.log" ModeAppend
            (Some (mkWriteStream "app.log" 52)) 10 100 _)).
  vm_compute. reflexivity.
Defined.

(** ** Calendar dates *)

(** The day number of a calendar date, the inverse of
    [civil_from_days]. *)
Definition days_from_civil (ymd : Z * Z * Z) : Z :=
  let '(y, m, d) := ymd in
  let y := if m <=? 2 then y - 1 else y in
  let era := y / 400 in
  let yoe := y mod 400 in
  let mp := if 2 <? m then m - 3 else m + 9 in
  let doy := (153 * mp + 2) / 5 + d - 1 in
  let doe := yoe * 365 + yoe / 4 - yoe / 100 + doy in
  era * 146097 + doe - 719468.

Lemma days_from_civil_from_days days :
  days_from_civil (civil_from_days days) = days.
Proof.
  unfold days_from_civil, civil_from_days.
  set (z := days + 719468).
  set (doe := z mod 146097).
  set (yoe := (doe - doe / 1460 + doe / 36524 - doe / 146096) / 365).
  set (doy := doe - (365 * yoe + yoe / 4 - yoe / 100)).
  set (mp := (5 * doy + 2) / 153).
  assert (Hdoe : 0 <= doe < 146097) by (apply Z.mod_pos_bound; lia).
  assert (Hr : 0 <= yoe <= 399 /\ 0 <= doy <= 365)
    by (subst yoe doy; Z.div_mod_to_equations; lia).
  assert (Hmp : 0 <= mp <= 11) by (subst mp; Z.div_mod_to_equations; lia).
  assert (Hz : z = 146097 * (z / 146097) + doe) by (apply Z.div_mod; lia).
  destruct (mp <? 10) eqn:Hlt; [apply Z.ltb_lt in Hlt | apply Z.ltb_ge in Hlt].
  - rewrite (proj2 (Z.leb_gt (mp + 3) 2)) by lia.
    rewrite (proj2 (Z.ltb_lt 2 (mp + 3))) by lia.
    replace (yoe + z / 146097 * 400 + 0) with (yoe + z / 146097 * 400) by lia.
    rewrite Z.div_add, Z.mod_add by lia.
    rewrite (Z.div_small yoe 400), (Z.mod_small yoe 400) by lia.
    replace (mp + 3 - 3) with mp by lia. subst doy. lia.
  - rewrite (proj2 (Z.leb_le (mp - 9) 2)) by lia.
    rewrite (proj2 (Z.ltb_ge 2 (mp - 9))) by lia.
    replace (yoe + z / 146097 * 400 + 1 - 1) with (yoe + z / 146097 * 400) by lia.
    rewrite Z.div_add, Z.mod_add by lia.
    rewrite (Z.div_small yoe 400), (Z.mod_small yoe 400) by lia.
    replace (mp - 9 + 9) with mp by lia. subst doy. lia.
Qed.

Lemma civil_from_days_inj d1 d2 :
  civil_from_days d1 = civil_from_days d2 -> d1 = d2.
Proof.
  intros H. rewrite <- (days_from_civil_from_days d1), <- (days_from_civil_from_days d2).
  by rewrite H.
Qed.

(** The month is one of the twelve and the day of month is in 1..31. *)
Lemma civil_from_days_range days :
  let '(y, m, d) := civil_from_days days in
  1 <= m <= 12 /\ 1 <= d <= 31.
Proof.
  unfold civil_from_days.
  set (z := days + 719468).
  set (doe := z mod 146097).
  set (yoe := (doe - doe / 1460 + doe / 36524 - doe / 146096) / 365).
  set (doy := doe - (365 * yoe + yoe / 4 - yoe / 100)).
  set (mp := (5 * doy + 2) / 153).
  assert (Hdoe : 0 <= doe < 146097) by (apply Z.mod_pos_bound; lia).
  assert (Hr : 0 <= yoe <= 399 /\ 0 <= doy <= 365)
    by (subst yoe doy; Z.div_mod_to_equations; lia).
  assert (Hmp : 0 <= mp <= 11) by (subst mp; Z.div_mod_to_equations; lia).
  assert (Hd : 1 <= doy - (153 * mp + 2) / 5 + 1 <= 31)
    by (subst mp; Z.div_mod_to_equations; lia).
  destruct (mp <? 10) eqn:Hlt; [apply Z.ltb_lt in Hlt | apply Z.ltb_ge in Hlt]; lia.
Qed.

(** ** Reading decimal numbers *)

Lemma digit_of_pretty_N_char (d : N) :
  (d < 10)%N -> digit_of (pretty_N_char d) = Some (Z.of_N d).
Proof.
  intros Hd.
  assert (Hcases : d = 0%N \/ d = 1%N \/ d = 2%N \/ d = 3%N \/ d = 4%N \/
                   d = 5%N \/ d = 6%N \/ d = 7%N \/ d = 8%N \/ d = 9%N) by lia.
  destruct_or!; subst; reflexivity.
Qed.

Lemma pretty_N_go_app (n : N) (s1 s2 : string) :
  pretty_N_go n (s1 +:+ s2) = pretty_N_go n s1 +:+ s2.
Proof.
  revert s1. induction (N.lt_wf_0 n) as [n _ IH]; intros s1.
  destruct (decide (n = 0%N)) as [->|Hn]; [by rewrite !pretty_N_go_0|].
  rewrite (pretty_N_go_step n (s1 +:+ s2)), (pretty_N_go_step n s1) by lia.
  assert (Hlt : (n `div` 10 < n)%N) by (apply N.div_lt; lia).
  by rewrite <- (IH _ Hlt (String (pretty_N_char (n `mod` 10)) s1)).
Qed.

Lemma read_digits_pretty_N_go (n : N) :
  exists k : Z, 0 <= k /\ forall acc s,
    read_digits acc (pretty_N_go n s) = read_digits (acc * 10 ^ k + Z.of_N n) s.
Proof.
  induction (N.lt_wf_0 n) as [n _ IH].
  destruct (decide (n = 0%N)) as [->|Hn].
  { exists 0. split; [done|]. intros acc s. rewrite pretty_N_go_0. f_equal. lia. }
  destruct (IH (n `div` 10)%N) as (k & Hk & Hread); [apply N.div_lt; lia|].
  exists (k + 1). split; [lia|]. intros acc s.
  rewrite pretty_N_go_step by lia. rewrite Hread. simpl.
  rewrite digit_of_pretty_N_char by (apply N.mod_lt; lia). f_equal.
  rewrite Z.pow_add_r, Z.pow_1_r by lia.
  pose proof (N.div_mod n 10). rewrite N2Z.inj_div, N2Z.inj_mod in *.
  change (Z.of_N 10) with 10. pose proof (Z.div_mod (Z.of_N n) 10). lia.
Qed.

Lemma read_digits_pretty (n : Z) (rest : string) :
  0 <= n -> read_digits 0 (pretty n +:+ rest) = read_digits n rest.
Proof.
  intros Hn. destruct n as [|p|p]; [done| |lia].
  change (pretty (Z.pos p)) with (pretty_N_go (N.pos p) "").
  rewrite <- pretty_N_go_app. simpl String.app.
  destruct (read_digits_pretty_N_go (N.pos p)) as (k & _ & ->). f_equal.
Qed.

Lemma read_digits_zeros (k : nat) (s : string) :
  read_digits 0 (repeat_char "0" k +:+ s) = read_digits 0 s.
Proof. induction k as [|k IH]; [done|]. simpl. exact IH. Qed.

Lemma string_app_assoc (s1 s2 s3 : string) :
  (s1 +:+ s2) +:+ s3 = s1 +:+ (s2 +:+ s3).
Proof.
  induction s1 as [|c s1 IH]; [done|].
  change (String c ((s1 +:+ s2) +:+ s3) = String c (s1 +:+ s2 +:+ s3)).
  by f_equal.
Qed.

Lemma string_app_nil_r (s : string) : s +:+ "" = s.
Proof.
  induction s as [|c s IH]; [done|].
  change (String c (s +:+ "") = String c s). by f_equal.
Qed.

Lemma read_digits_pad_num (n : Z) (width : nat) (rest : string) :
  0 <= n -> read_digits 0 (pad_num n width +:+ rest) = read_digits n rest.
Proof.
  intros Hn. unfold pad_num, padStart.
  by rewrite string_app_assoc, read_digits_zeros, read_digits_pretty.
Qed.

Lemma pad_num_inj (a b : Z) (width : nat) :
  0 <= a -> 0 <= b -> pad_num a width = pad_num b width -> a = b.
Proof.
  intros Ha Hb H.
  pose proof (read_digits_pad_num a width "" Ha) as H1.
  pose proof (read_digits_pad_num b width "" Hb) as H2.
  rewrite string_app_nil_r in H1, H2. rewrite H in H1. rewrite H1 in H2. simpl in H2. congruence.
Qed.

(** ** The date string and the calendar date *)

Lemma app_inj_length (s1 s2 t1 t2 : string) :
  String.length s1 = String.length s2 ->
  s1 +:+ t1 = s2 +:+ t2 -> s1 = s2 /\ t1 = t2.
Proof.
  revert s2. induction s1 as [|c s1 IH]; intros [|c' s2] Hlen H; try done.
  change (String c (s1 +:+ t1) = String c' (s2 +:+ t2)) in H.
  injection H as -> H. injection Hlen as Hlen.
  destruct (IH s2 Hlen H) as [-> ->]. done.
Qed.

Lemma nth_length3 (l : list string) (d : string) (k : nat) :
  Forall (fun s => String.length s = 3%nat) l -> String.length d = 3%nat ->
  String.length (nth k l d) = 3%nat.
Proof.
  intros Hl Hd. revert k. induction Hl as [|s l Hs Hl IH]; intros [|k]; simpl; auto.
Qed.

Lemma day_name_length n : String.length (day_name n) = 3%nat.
Proof. unfold day_name. apply nth_length3; [repeat constructor|done]. Qed.

Lemma month_name_length n : String.length (month_name n) = 3%nat.
Proof. unfold month_name. apply nth_length3; [repeat constructor|done]. Qed.

Lemma month_name_inj a b :
  0 <= a < 12 -> 0 <= b < 12 -> month_name a = month_name b -> a = b.
Proof.
  intros Ha Hb.
  assert (Ha' : a = 0 \/ a = 1 \/ a = 2 \/ a = 3 \/ a = 4 \/ a = 5 \/ a = 6 \/
                a = 7 \/ a = 8 \/ a = 9 \/ a = 10 \/ a = 11) by lia.
  assert (Hb' : b = 0 \/ b = 1 \/ b = 2 \/ b = 3 \/ b = 4 \/ b = 5 \/ b = 6 \/
                b = 7 \/ b = 8 \/ b = 9 \/ b = 10 \/ b = 11) by lia.
  clear Ha Hb. destruct_or!; subst; (reflexivity || (vm_compute; discriminate)).
Qed.

Lemma date_fields_civil t :
  civil_from_days (t / msPerDay) =
  (df_year (date_fields t), df_month (date_fields t) + 1, df_date (date_fields t)).
Proof.
  unfold date_fields. destruct (civil_from_days (t / msPerDay)) as [[y m] d].
  simpl. f_equal. f_equal. lia.
Qed.

Lemma date_fields_range t :
  0 <= df_month (date_fields t) < 12 /\ 1 <= df_date (date_fields t) <= 31.
Proof.
  pose proof (civil_from_days_range (t / msPerDay)) as H.
  rewrite date_fields_civil in H. lia.
Qed.

(** The year as the date string shows it. *)
Definition year_string (y : Z) : string :=
  (if y <? 0 then "-" else "") +:+ pad_num (Z.abs y) 4.

Lemma read_digits_stop acc c s :
  digit_of c = None -> read_digits acc (String c s) = (acc, String c s).
Proof. intros H. simpl. by rewrite H. Qed.

Lemma year_string_inj a b : year_string a = year_string b -> a = b.
Proof.
  unfold year_string. intros H.
  destruct (a <? 0) eqn:Ha, (b <? 0) eqn:Hb;
    [apply Z.ltb_lt in Ha | apply Z.ltb_lt in Ha | apply Z.ltb_ge in Ha
     | apply Z.ltb_ge in Ha];
    [apply Z.ltb_lt in Hb | apply Z.ltb_ge in Hb | apply Z.ltb_lt in Hb
     | apply Z.ltb_ge in Hb].
  - apply (inj (String.append "-")) in H. apply pad_num_inj in H; lia.
  - apply (f_equal (read_digits 0)) in H.
    change ("" +:+ pad_num (Z.abs b) 4) with (pad_num (Z.abs b) 4) in H.
    rewrite <- (string_app_nil_r (pad_num (Z.abs b) 4)) in H.
    rewrite read_digits_pad_num in H by lia.
    change ("-" +:+ pad_num (Z.abs a) 4) with (String "-" (pad_num (Z.abs a) 4)) in H.
    rewrite read_digits_stop in H by done. simpl in H. congruence.
  - apply (f_equal (read_digits 0)) in H.
    change ("" +:+ pad_num (Z.abs a) 4) with (pad_num (Z.abs a) 4) in H.
    rewrite <- (string_app_nil_r (pad_num (Z.abs a) 4)) in H.
    rewrite read_digits_pad_num in H by lia.
    change ("-" +:+ pad_num (Z.abs b) 4) with (String "-" (pad_num (Z.abs b) 4)) in H.
    rewrite read_digits_stop in H by done. simpl in H. congruence.
  - change ("" +:+ pad_num (Z.abs a) 4) with (pad_num (Z.abs a) 4) in H.
    change ("" +:+ pad_num (Z.abs b) 4) with (pad_num (Z.abs b) 4) in H.
    apply pad_num_inj in H; lia.
Qed.

Lemma date_string_inj wd1 m1 d1 y1 wd2 m2 d2 y2 :
  0 <= m1 < 12 -> 0 <= m2 < 12 -> 0 <= d1 -> 0 <= d2 ->
  day_name wd1 +:+ " " +:+ month_name m1 +:+ " " +:+ pad_num d1 2 +:+ " " +:+
    year_string y1
  = day_name wd2 +:+ " " +:+ month_name m2 +:+ " " +:+ pad_num d2 2 +:+ " " +:+
    year_string y2 ->
  (y1, m1, d1) = (y2, m2, d2).
Proof.
  intros Hm1 Hm2 Hd1 Hd2 H.
  apply app_inj_length in H as [_ H]; [|by rewrite !day_name_length].
  apply (inj (String.append " ")) in H.
  apply app_inj_length in H as [Hm H]; [|by rewrite !month_name_length].
  apply month_name_inj in Hm; [|done..].
  apply (inj (String.append " ")) in H.
  apply (f_equal (read_digits 0)) in H.
  rewrite !read_digits_pad_num in H by lia.
  change (" " +:+ year_string y1) with (String " " (year_string y1)) in H.
  change (" " +:+ year_string y2) with (String " " (year_string y2)) in H.
  rewrite !read_digits_stop in H by done.
  injection H as Hd Hy. apply year_string_inj in Hy. congruence.
Qed.

(** Two instants have the same date string exactly when they fall on the
    same calendar date of the local zone. *)
Lemma toDateString_calendar_date tz a b :
  toDateString tz a = toDateString tz b <-> calendar_date tz a = calendar_date tz b.
Proof.
  unfold toDateString, calendar_date, local_fields.
  set (ta := a + tz a). set (tb := b + tz b).
  pose proof (date_fields_range ta) as [Hma Hda].
  pose proof (date_fields_range tb) as [Hmb Hdb].
  fold (year_string (df_year (date_fields ta))).
  fold (year_string (df_year (date_fields tb))).
  split.
  - intros H. apply date_string_inj in H; [done|lia..].
  - intros H.
    assert (Hy : df_year (date_fields ta) = df_year (date_fields tb)) by congruence.
    assert (Hm : df_month (date_fields ta) = df_month (date_fields tb)) by congruence.
    assert (Hd : df_date (date_fields ta) = df_date (date_fields tb)) by congruence.
    assert (Hdays : ta / msPerDay = tb / msPerDay).
    { apply civil_from_days_inj. rewrite !date_fields_civil. congruence. }
    assert (Hwd : df_day (date_fields ta) = df_day (date_fields tb)).
    { unfold date_fields. rewrite Hdays.
      by destruct (civil_from_days (tb / msPerDay)) as [[? ?] ?]. }
    by rewrite Hwd, Hy, Hm, Hd.
Qed.

(** ** Time-based rotation *)

Lemma for_each_ok {A : Type} (xs : list A) (body : A -> M unit) w :
  (forall x w', snd (body x w') = Ok tt) -> snd (for_each xs body w) = Ok tt.
Proof.
  intros Hb. revert w. induction xs as [|x xs IH]; intros w; [done|].
  simpl. rewrite exec_bind. specialize (Hb x w).
  destruct (body x w) as [w1 r]. simpl in Hb. subst r. apply IH.
Qed.

(** The cleanup always returns: a failing [unlinkSync] is swallowed. *)
Lemma remove_oldest_ok base keep w : snd (remove_oldest base keep w) = Ok tt.
Proof.
  unfold remove_oldest. rewrite exec_bind. simpl. rewrite exec_bind. simpl.
  destruct (keep <? _); [|done].
  apply for_each_ok. intros p w'. unfold try_catch.
  by destruct (unlinkSync p w') as [w1 [[]|e]].
Qed.

Section Timed.
Context (hid : nat) (path when : string) (interval backupCount maxFiles : Z)
  (zone : TimeZone) (clk : nat -> Date).

(** The time of the environment: the clock, the zone and the number of
    clock readings taken. *)
Definition env_is (n : nat) (w : World) : Prop :=
  tick w = n /\ tz w = zone /\ clock w = clk.

(** The handler is the timed handler on [path] that last rotated at
    [lastRotation], and [n] clock readings were taken. *)
Definition timed_inv (lastRotation : Date) (n : nat) : World -> Prop :=
  file_inv hid path
    (fun fs => KTimed fs when interval backupCount maxFiles lastRotation)
    (env_is n).

Lemma env_is_creates allowed n w w' : env_is n w -> creates allowed w w' -> env_is n w'.
Proof. intros He [-> _]. exact He. Qed.

Lemma timed_FileHandler_emit lr n r :
  yields (timed_inv lr n) (FileHandler_emit hid r) (fun _ => True).
Proof.
  apply fi_FileHandler_emit; try done.
  intros w w'. apply env_is_creates.
Qed.

Lemma timed_set_file lr n f :
  yields (timed_inv lr n) (set_file hid f) (fun _ => True).
Proof. by apply fi_set_file. Qed.

Lemma timed_creates {A : Type} lr n allowed (m : M A) :
  keeps (creates allowed) m -> yields (timed_inv lr n) m (fun _ => True).
Proof.
  apply yields_keeps. intros w w' [Hr He] Hcr. split.
  - by rewrite (creates_handlers _ _ _ Hcr).
  - by eapply env_is_creates.
Qed.

(** [rotate] reads the clock once and stores the reading as
    [lastRotation]. *)
Lemma timed_rotate lr n w :
  timed_inv lr n w ->
  timed_inv (clk n) (S n) (fst (TimedRotatingFileHandler_rotate hid w)).
Proof.
  intros Hinv. pose proof Hinv as [(h & Hh & fmt & lvl & md & fo & ->) He].
  unfold TimedRotatingFileHandler_rotate.
  rewrite exec_bind. unfold getH at 1. rewrite Hh. cbn [h_kind _file filename].
  rewrite exec_bind.
  (* closing the stream *)
  assert (Hclose : exists wa,
    (match fo with Some _ => set_file hid None | None => mret tt end) w = (wa, Ok tt)
    /\ timed_inv lr n wa).
  { destruct fo as [ws|]; [|by exists w].
    pose proof (timed_set_file lr n None w Hinv) as [H1 _].
    unfold set_file in *. rewrite exec_bind in *. unfold getH in *.
    rewrite Hh in *. simpl in *. by eexists. }
  destruct Hclose as (wa & -> & Ha). cbv iota beta.
  rewrite exec_bind. unfold get at 1. cbv iota beta zeta.
  rewrite exec_bind. unfold existsSync at 1. cbv iota beta.
  rewrite exec_bind.
  (* renaming the current file *)
  set (backupName := path +:+ "." +:+ _formatTimestamp (tz wa) lr).
  assert (Hmove : exists wb,
    (if bool_decide (is_Some (files wa !! path))
     then renameSync path backupName else mret tt) wa = (wb, Ok tt)
    /\ timed_inv lr n wb).
  { unfold renameSync. destruct (files wa !! path) as [f|] eqn:Hf.
    - rewrite bool_decide_eq_true_2 by done. cbv beta. rewrite Hf.
      eexists. split; [done|].
      pose proof (timed_creates lr n (fun _ => True) (renameSync path backupName)
                    (creates_renameSync _ _ _ I) wa Ha) as [H1 _].
      unfold renameSync in H1. by rewrite Hf in H1.
    - rewrite bool_decide_eq_false_2 by (by intros []). by exists wa. }
  destruct Hmove as (wb & -> & Hb). cbv iota beta.
  rewrite exec_bind. unfold _removeOldBackups.
  pose proof (remove_oldest_ok path (Z.min backupCount maxFiles) wb) as Hok.
  pose proof (timed_creates lr n (fun _ => False) _
                (creates_remove_oldest _ path (Z.min backupCount maxFiles)) wb Hb)
    as [Hc _].
  destruct (remove_oldest path (Z.min backupCount maxFiles) wb) as [wc r].
  simpl in Hok, Hc. subst r. cbv iota beta.
  (* reading the clock and storing it *)
  destruct Hc as [(h & Hhc & fmt' & lvl' & md' & fo' & ->) (Ht & Hz & Hk)].
  rewrite exec_bind. unfold new_Date at 1. cbv iota beta.
  unfold set_lastRotation. rewrite exec_bind. unfold getH at 1. simpl handlers.
  rewrite Hhc. cbn [h_kind h_formatter h_level]. simpl.
  rewrite Ht, Hk. split.
  - eexists. split; [apply list_lookup_insert_eq; by eapply lookup_lt_Some|].
    by exists fmt', lvl', md', fo'.
  - by split.
Qed.

Lemma timed_inv_emit_log lr n l w :
  timed_inv lr n w -> timed_inv lr n (set_emit_log l w).
Proof. intros [Hh He]. by split. Qed.

(** One [emit] of the timed handler: when [shouldRotate] holds for the
    record's timestamp, [rotate] runs, reading the clock once, and the
    reading becomes [lastRotation]; otherwise neither changes. *)
Lemma timed_Handler_emit lr n r w :
  timed_inv lr n w ->
  let rot := shouldRotate zone when interval lr (timestamp r) in
  timed_inv (if rot then clk n else lr) (if rot then S n else n)
    (fst (Handler_emit hid r w)).
Proof.
  intros Hinv. cbv zeta.
  pose proof Hinv as [(h & Hh & fmt & lvl & md & fo & ->) (Ht & Hz & Hk)].
  unfold Handler_emit. rewrite exec_bind. unfold getH at 1. rewrite Hh.
  cbv iota beta. rewrite exec_bind. unfold modify at 1. cbv iota beta.
  cbn [h_kind].
  set (wl := set_emit_log _ w).
  assert (Hl : timed_inv lr n wl) by (by apply timed_inv_emit_log).
  unfold TimedRotatingFileHandler_emit. rewrite exec_bind. unfold getH at 1.
  change (handlers wl) with (handlers w). rewrite Hh. cbv iota beta. cbn [h_kind].
  rewrite exec_bind. unfold get at 1. cbv iota beta.
  change (tz wl) with (tz w). rewrite Hz. rewrite exec_bind.
  destruct (shouldRotate zone when interval lr (timestamp r)).
  - pose proof (timed_rotate lr n wl Hl) as Hrot.
    destruct (TimedRotatingFileHandler_rotate hid wl) as [w1 [[]|e]]; [|exact Hrot].
    by apply timed_FileHandler_emit.
  - by apply timed_FileHandler_emit.
Qed.
End Timed.

(** A timed handler object and its [lastRotation]. *)
Definition timed_at (w : World) (hid : nat) (path when : string)
    (interval backupCount maxFiles : Z) (lastRotation : Date) : Prop :=
  exists fmt lvl md fo,
    handlers w !! hid =
    Some (mkHandler fmt lvl
            (KTimed (mkFileState path md fo) when interval backupCount maxFiles
               lastRotation)).

(** The rotations that run while [r] is emitted: within [emit] only
    [rotate] reads the clock, once each time it runs. *)
Definition rotations_during (hid : nat) (r : LogRecord) (w : World) : nat :=
  tick (fst (Handler_emit hid r w)) - tick w.

(** The claim as the specification words it: between two emissions there
    is one rotation when their timestamps fall on different calendar dates
    and none when they fall on the same. *)
Definition midnight_rotations_follow_record_dates : Prop :=
  forall (w : World) (hid : nat) (path : string)
         (interval backupCount maxFiles : Z) (lastRotation : Date)
         (r1 r2 : LogRecord),
    timed_at w hid path "midnight" interval backupCount maxFiles lastRotation ->
    rotations_during hid r2 (fst (Handler_emit hid r1 w)) =
    if decide (calendar_date (tz w) (timestamp r1)
               = calendar_date (tz w) (timestamp r2))
    then 0%nat else 1%nat.

(** A handler made on 2 November 2026; every later clock reading is
    [later]. *)
Definition timed_world (later : Date) : World :=
  fst (new_TimedRotatingFileHandler "app.log" "midnight" 1 5 100
         (empty_world (fun n => match n with O => 1793593800123 | S _ => later end)
            (fun _ => 0))).

(** A record stamped one millisecond before midnight of 3 November is
    emitted as the day turns: the rotation it triggers reads the clock on
    4 November, and a record of 4 November then causes no rotation. *)
Lemma rotation_clock_is_not_the_record : ~ midnight_rotations_follow_record_dates.
Proof.
  intros H.
  specialize (H (timed_world 1793750400001) 0%nat "app.log" 1 5 100 1793593800123
                (mkLogRecord "app" LogLevel.INFO "late" 1793750399999 (VObj []))
                (mkLogRecord "app" LogLevel.INFO "early" 1793750401000 (VObj []))).
  assert (Hat : timed_at (timed_world 1793750400001) 0 "app.log" "midnight" 1 5 100
                  1793593800123).
  { eexists _, _, _, _. vm_compute. reflexivity. }
  specialize (H Hat). vm_compute in H. discriminate.
Qed.

Lemma shouldRotate_midnight zone interval lastRotation ts :
  shouldRotate zone "midnight" interval lastRotation ts = true <->
  calendar_date zone ts <> calendar_date zone lastRotation.
Proof.
  unfold shouldRotate. change (String.eqb "midnight" "midnight") with true. cbv iota.
  rewrite negb_true_iff, <- toDateString_calendar_date.
  destruct (String.eqb_spec (toDateString zone ts) (toDateString zone lastRotation));
    split; congruence.
Qed.

(** C7, as the code has it. [shouldRotate] compares calendar dates for
    [midnight] and elapsed time for [hour] and [minute]. [rotate] sets
    [lastRotation] to the clock reading it takes, so two emissions are
    separated by one rotation when their dates differ and by none when
    they agree provided the reading of a rotation triggered by the first
    record falls on that record's date. *)
Theorem shouldRotate_periods_and_midnight_rotations
    (w : World) (hid : nat) (path : string)
    (interval backupCount maxFiles : Z) (lastRotation : Date)
    (r1 r2 : LogRecord) :
  (forall zone ts,
     (shouldRotate zone "midnight" interval lastRotation ts = true <->
      calendar_date zone ts <> calendar_date zone lastRotation) /\
     (shouldRotate zone "hour" interval lastRotation ts = true <->
      3600 * 1000 * interval <= ts - lastRotation) /\
     (shouldRotate zone "minute" interval lastRotation ts = true <->
      60 * 1000 * interval <= ts - lastRotation)) /\
  (timed_at w hid path "midnight" interval backupCount maxFiles lastRotation ->
   (calendar_date (tz w) (timestamp r1) <> calendar_date (tz w) lastRotation ->
    calendar_date (tz w) (clock w (tick w)) = calendar_date (tz w) (timestamp r1)) ->
   rotations_during hid r2 (fst (Handler_emit hid r1 w)) =
   if decide (calendar_date (tz w) (timestamp r1)
              = calendar_date (tz w) (timestamp r2))
   then 0%nat else 1%nat).
Proof.
  split.
  - intros zone ts. split; [apply shouldRotate_midnight|].
    unfold shouldRotate. split.
    + change (String.eqb "hour" "midnight") with false.
      change (String.eqb "hour" "hour") with true. cbv iota. apply Z.leb_le.
    + change (String.eqb "minute" "midnight") with false.
      change (String.eqb "minute" "hour") with false.
      change (String.eqb "minute" "minute") with true. cbv iota. apply Z.leb_le.
  - intros (fmt & lvl & md & fo & Hh) Hclock.
    assert (Hinv : timed_inv hid path "midnight" interval backupCount maxFiles
                     (tz w) (clock w) lastRotation (tick w) w).
    { split; [|done]. eexists. split; [exact Hh|]. by exists fmt, lvl, md, fo. }
    pose proof (timed_Handler_emit _ _ _ _ _ _ _ _ _ _ r1 w Hinv) as H1.
    cbv zeta in H1. unfold rotations_during.
    set (w1 := fst (Handler_emit hid r1 w)) in *.
    set (rot1 := shouldRotate (tz w) "midnight" interval lastRotation (timestamp r1)) in *.
    set (lr1 := if rot1 then clock w (tick w) else lastRotation) in *.
    assert (Hdate : calendar_date (tz w) lr1 = calendar_date (tz w) (timestamp r1)).
    { unfold lr1. destruct rot1 eqn:Hrot; unfold rot1 in Hrot.
      - apply Hclock. exact (proj1 (shouldRotate_midnight _ _ _ _) Hrot).
      - destruct (decide (calendar_date (tz w) (timestamp r1)
                          = calendar_date (tz w) lastRotation)) as [Heq|Hne]; [done|].
        apply (proj2 (shouldRotate_midnight (tz w) interval _ _)) in Hne.
        congruence. }
    pose proof (timed_Handler_emit _ _ _ _ _ _ _ _ _ _ r2 w1 H1) as H2.
    cbv zeta in H2. destruct H1 as [_ (Ht1 & _)]. destruct H2 as [_ (Ht2 & _)].
    rewrite Ht2, Ht1.
    destruct (shouldRotate (tz w) "midnight" interval lr1 (timestamp r2)) eqn:Hrot2.
    + apply (proj1 (shouldRotate_midnight _ _ _ _)) in Hrot2. rewrite Hdate in Hrot2.
      rewrite decide_False by congruence. lia.
    + rewrite decide_True; [lia|].
      destruct (decide (calendar_date (tz w) (timestamp r2)
                        = calendar_date (tz w) lr1)) as [Heq|Hne]; [congruence|].
      apply (proj2 (shouldRotate_midnight (tz w) interval _ _)) in Hne. congruence.
Qed.

Lemma midnight_rotations_witness :
  rotations_during 0
    (mkLogRecord "app" LogLevel.INFO "next day" 1793750401000 (VObj []))
    (fst (Handler_emit 0
            (mkLogRecord "app" LogLevel.INFO "late" 1793750399999 (VObj []))
            (timed_world 1793750399999)))
  = 1%nat.
Proof.
  refine (proj2 (shouldRotate_periods_and_midnight_rotations
            (timed_world 1793750399999) 0 "app.log" 1 5 100 1793593800123
            (mkLogRecord "app" LogLevel.INFO "late" 1793750399999 (VObj []))
            (mkLogRecord "app" LogLevel.INFO "next day" 1793750401000 (VObj [])))
            _ _).
  - eexists _, _, _, _. vm_compute. reflexivity.
  - intros _. vm_compute. reflexivity.
Defined.

(** ** JSON.parse *)

Definition backslash : ascii := ascii_of_N 92.

Definition hex_value (c : ascii) : option N :=
  let n := N_of_ascii c in
  if ((48 <=? n) && (n <=? 57))%N then Some (n - 48)%N
  else if ((97 <=? n) && (n <=? 102))%N then Some (n - 87)%N
  else if ((65 <=? n) && (n <=? 70))%N then Some (n - 55)%N
  else None.

(** The character an escape letter after a backslash stands for. *)
Definition unescape (e : ascii) : option ascii :=
  if Ascii.eqb e dquote then Some dquote
  else if Ascii.eqb e backslash then Some backslash
  else if Ascii.eqb e "/" then Some "/"%char
  else if Ascii.eqb e "b" then Some (ascii_of_N 8)
  else if Ascii.eqb e "f" then Some (ascii_of_N 12)
  else if Ascii.eqb e "n" then Some (ascii_of_N 10)
  else if Ascii.eqb e "r" then Some (ascii_of_N 13)
  else if Ascii.eqb e "t" then Some (ascii_of_N 9)
  else None.

(** The text of a string literal after its opening quote: the string it
    denotes and what follows the closing quote. A [\uXXXX] escape is read
    when it denotes a single byte. *)
Fixpoint parse_string_body (s : string) : option (string * string) :=
  match s with
  | EmptyString => None
  | String c rest =>
      if Ascii.eqb c dquote then Some ("", rest)
      else if Ascii.eqb c backslash then
        match rest with
        | EmptyString => None
        | String e rest1 =>
            if Ascii.eqb e "u" then
              match rest1 with
              | String h1 (String h2 (String h3 (String h4 rest2))) =>
                  match hex_value h1, hex_value h2, hex_value h3, hex_value h4 with
                  | Some a, Some b, Some c3, Some d =>
                      let code := (((a * 16 + b) * 16 + c3) * 16 + d)%N in
                      if (code <? 256)%N then
                        match parse_string_body rest2 with
                        | Some (body, after) => Some (String (ascii_of_N code) body, after)
                        | None => None
                        end
                      else None
                  | _, _, _, _ => None
                  end
              | _ => None
              end
            else
              match unescape e with
              | Some ch =>
                  match parse_string_body rest1 with
                  | Some (body, after) => Some (String ch body, after)
                  | None => None
                  end
              | None => None
              end
        end
      else
        match parse_string_body rest with
        | Some (body, after) => Some (String c body, after)
        | None => None
        end
  end.

(** The digits at the start of [s] and the text after them. *)
Fixpoint span_digits (s : string) : string * string :=
  match s with
  | String c rest =>
      if is_digit c then
        let '(ds, after) := span_digits rest in (String c ds, after)
      else ("", s)
  | EmptyString => ("", "")
  end.

(** The fraction of a number literal: a point and at least one digit.
    The result is the digits, none when there is no point. *)
Definition parse_fraction (s : string) : option (string * string) :=
  match s with
  | String c rest =>
      if Ascii.eqb c "." then
        match span_digits rest with
        | (EmptyString, _) => None
        | (ds, after) => Some (ds, after)
        end
      else Some ("", s)
  | EmptyString => Some ("", s)
  end.

(** The exponent of a number literal: [e] or [E], a sign or none, and at
    least one digit. The result is 0 when there is no exponent. *)
Definition parse_exponent (s : string) : option (Z * string) :=
  match s with
  | String c rest =>
      if (Ascii.eqb c "e" || Ascii.eqb c "E")%bool then
        let '(negative, digits) :=
          match rest with
          | String sign rest' =>
              if Ascii.eqb sign "-" then (true, rest')
              else if Ascii.eqb sign "+" then (false, rest')
              else (false, rest)
          | EmptyString => (false, rest)
          end in
        match digits with
        | String d _ =>
            if is_digit d then
              let '(e, after) := read_digits 0 digits in
              Some (if negative then - e else e, after)
            else None
        | EmptyString => None
        end
      else Some (0, s)
  | EmptyString => Some (0, s)
  end.

(** A number literal without its sign: the digits of the integer part,
    of which the first is 0 only when it is the only one, then a fraction
    and an exponent. *)
Definition parse_unsigned (negative : bool) (s : string)
  : option (Number * string) :=
  match span_digits s with
  | (EmptyString, _) => None
  | (String d more as int, after_int) =>
      if (Ascii.eqb d "0" && negb (String.eqb more ""))%bool then None
      else
        match parse_fraction after_int with
        | None => None
        | Some (frac, after_frac) =>
            match parse_exponent after_frac with
            | None => None
            | Some (e, after) =>
                Some (decimal negative (int +:+ frac)
                        (Z.of_nat (String.length int) + e),
                      after)
            end
        end
  end.

(** A number literal at the start of [s]. The value is the number the
    literal denotes, exactly. *)
Definition parse_number (s : string) : option (Number * string) :=
  match s with
  | String c rest =>
      if Ascii.eqb c "-" then parse_unsigned true rest
      else parse_unsigned false s
  | EmptyString => None
  end.

(** [s.startsWith(lit)]. *)
Fixpoint starts_with (lit s : string) : bool :=
  match lit with
  | EmptyString => true
  | String a lit' =>
      match s with
      | String b s' => Ascii.eqb a b && starts_with lit' s'
      | EmptyString => false
      end
  end.

(** A JSON value at the start of [s] and the text after it. [fuel] bounds
    the nesting and the number of members read. A repeated key keeps its
    last value. *)
Fixpoint parse_value (fuel : nat) (s : string) : option (value * string) :=
  match fuel with
  | O => None
  | S fuel' =>
      match s with
      | EmptyString => None
      | String c rest =>
          if Ascii.eqb c "{" then
            match rest with
            | String c' rest' =>
                if Ascii.eqb c' "}" then Some (VObj [], rest')
                else parse_members fuel' rest []
            | EmptyString => None
            end
          else if Ascii.eqb c dquote then
            match parse_string_body rest with
            | Some (body, after) => Some (VStr body, after)
            | None => None
            end
          else if starts_with "true" s then Some (VBool true, drop_string 4 s)
          else if starts_with "false" s then Some (VBool false, drop_string 5 s)
          else if starts_with "null" s then Some (VNull, drop_string 4 s)
          else
            match parse_number s with
            | Some (x, after) => Some (VNum x, after)
            | None => None
            end
      end
  end
with parse_members (fuel : nat) (s : string) (acc : list (string * value))
  : option (value * string) :=
  match fuel with
  | O => None
  | S fuel' =>
      match s with
      | String q rest =>
          if Ascii.eqb q dquote then
            match parse_string_body rest with
            | Some (key, String colon after_key) =>
                if Ascii.eqb colon ":" then
                  match parse_value fuel' after_key with
                  | Some (v, String sep after_value) =>
                      if Ascii.eqb sep "," then
                        parse_members fuel' after_value (obj_set key v acc)
                      else if Ascii.eqb sep "}" then
                        Some (VObj (obj_set key v acc), after_value)
                      else None
                  | _ => None
                  end
                else None
            | _ => None
            end
          else None
      | EmptyString => None
      end
  end.

(** [JSON.parse(s)]: the whole of [s] is one value. *)
Definition JSON_parse (s : string) : option value :=
  match parse_value (S (String.length s)) s with
  | Some (v, EmptyString) => Some v
  | _ => None
  end.

Example JSON_parse_sample :
  JSON_parse
    (JSON_stringify
       (VObj [("level", VStr "INFO"); ("message", VStr ("a" +:+ String dquote "b\c" +:+ newline));
              ("n", VNum (-42)); ("ok", VBool true);
              ("nested", VObj [("k", VNull)])]))
  = Some (VObj [("level", VStr "INFO"); ("message", VStr ("a" +:+ String dquote "b\c" +:+ newline));
                ("n", VNum (-42)); ("ok", VBool true);
                ("nested", VObj [("k", VNull)])]).
Proof. vm_compute. reflexivity. Qed.

(** ** Parsing what [JSON.stringify] writes *)

Definition cons_char (c : ascii) (r : option (string * string))
  : option (string * string) :=
  match r with
  | Some (body, after) => Some (String c body, after)
  | None => None
  end.

Lemma parse_plain_char c rest :
  Ascii.eqb c dquote = false -> Ascii.eqb c backslash = false ->
  parse_string_body (String c rest) = cons_char c (parse_string_body rest).
Proof. intros H1 H2. simpl. by rewrite H1, H2. Qed.

Lemma parse_letter_escape e ch rest :
  Ascii.eqb e "u" = false -> unescape e = Some ch ->
  parse_string_body (String backslash (String e rest))
  = cons_char ch (parse_string_body rest).
Proof. intros H1 H2. simpl. by rewrite H1, H2. Qed.

Lemma parse_u_escape h1 h2 h3 h4 (a b c d : N) rest :
  hex_value h1 = Some a -> hex_value h2 = Some b ->
  hex_value h3 = Some c -> hex_value h4 = Some d ->
  ((((a * 16 + b) * 16 + c) * 16 + d) < 256)%N ->
  parse_string_body
    (String backslash (String "u" (String h1 (String h2 (String h3 (String h4 rest))))))
  = cons_char (ascii_of_N (((a * 16 + b) * 16 + c) * 16 + d))
      (parse_string_body rest).
Proof.
  intros H1 H2 H3 H4 Hlt.
  change (parse_string_body
            (String backslash (String "u" (String h1 (String h2 (String h3 (String h4 rest)))))))
    with (match hex_value h1, hex_value h2, hex_value h3, hex_value h4 with
          | Some a, Some b, Some c3, Some d =>
              let code := (((a * 16 + b) * 16 + c3) * 16 + d)%N in
              if (code <? 256)%N then
                match parse_string_body rest with
                | Some (body, after) => Some (String (ascii_of_N code) body, after)
                | None => None
                end
              else None
          | _, _, _, _ => None
          end).
  rewrite H1, H2, H3, H4. cbv zeta. by rewrite (proj2 (N.ltb_lt _ _) Hlt).
Qed.

Lemma hex_value_hex_digit (d : N) : (d < 16)%N -> hex_value (hex_digit d) = Some d.
Proof.
  intros Hd.
  assert (H : (d = 0 \/ d = 1 \/ d = 2 \/ d = 3 \/ d = 4 \/ d = 5 \/ d = 6 \/ d = 7 \/
               d = 8 \/ d = 9 \/ d = 10 \/ d = 11 \/ d = 12 \/ d = 13 \/ d = 14 \/
               d = 15)%N) by lia.
  destruct_or!; subst; reflexivity.
Qed.

Lemma ascii_eqb_false_N (c d : ascii) :
  N_of_ascii c <> N_of_ascii d -> Ascii.eqb c d = false.
Proof. intros H. apply Ascii.eqb_neq. congruence. Qed.

Lemma parse_escaped_char (c : ascii) (rest : string) :
  parse_string_body (json_escape_char c +:+ rest)
  = cons_char c (parse_string_body rest).
Proof.
  unfold json_escape_char. cbv zeta.
  pose proof (ascii_N_embedding c) as Hc.
  pose proof (N_ascii_bounded c) as Hb.
  set (n := N_of_ascii c) in *. clearbody n.
  repeat case_match;
    repeat match goal with
      | H : (_ =? _)%N = true |- _ => apply N.eqb_eq in H
      | H : (_ =? _)%N = false |- _ => apply N.eqb_neq in H
      | H : (_ <? _)%N = true |- _ => apply N.ltb_lt in H
      | H : (_ <? _)%N = false |- _ => apply N.ltb_ge in H
      end.
  all: subst.
  all: try (apply parse_letter_escape; reflexivity).
  - change (parse_string_body
              (String backslash (String "u" (String "0" (String "0"
                 (String (hex_digit (n `div` 16)) (String (hex_digit (n `mod` 16)) rest))))))
            = cons_char (ascii_of_N n) (parse_string_body rest)).
    pose proof (N.div_mod n 16) as Hdm. pose proof (N.mod_lt n 16) as Hml.
    rewrite (parse_u_escape _ _ _ _ 0 0 (n `div` 16) (n `mod` 16)).
    + by replace (((0 * 16 + 0) * 16 + n `div` 16) * 16 + n `mod` 16)%N with n by lia.
    + reflexivity.
    + reflexivity.
    + apply hex_value_hex_digit. apply N.Div0.div_lt_upper_bound. lia.
    + apply hex_value_hex_digit. lia.
    + lia.
  - change (parse_string_body (String (ascii_of_N n) rest)
            = cons_char (ascii_of_N n) (parse_string_body rest)).
    apply parse_plain_char; apply ascii_eqb_false_N;
      rewrite N_ascii_embedding by done; vm_compute; lia.
Qed.

Lemma parse_escaped (s rest : string) :
  parse_string_body (json_escape s +:+ String dquote rest) = Some (s, rest).
Proof.
  induction s as [|c s IH].
  - reflexivity.
  - change (json_escape (String c s)) with (json_escape_char c +:+ json_escape s).
    by rewrite string_app_assoc, parse_escaped_char, IH.
Qed.

(** A text that does not go on with a digit. *)
Definition stops (s : string) : Prop :=
  match s with
  | EmptyString => True
  | String c _ => digit_of c = None
  end.

Definition starts_with_digit (s : string) : Prop :=
  match s with
  | EmptyString => False
  | String c _ => is_Some (digit_of c)
  end.

Lemma read_digits_stops n s : stops s -> read_digits n s = (n, s).
Proof. destruct s as [|c s]; [done|]. intros H. by apply read_digits_stop. Qed.

Lemma pretty_N_go_starts n s :
  starts_with_digit s -> starts_with_digit (pretty_N_go n s).
Proof.
  revert s. induction (N.lt_wf_0 n) as [n _ IH]; intros s Hs.
  destruct (decide (n = 0%N)) as [->|Hn]; [by rewrite pretty_N_go_0|].
  rewrite pretty_N_go_step by lia. apply IH; [apply N.div_lt; lia|].
  simpl. rewrite digit_of_pretty_N_char by (apply N.mod_lt; lia). by eexists.
Qed.

Lemma pretty_pos_starts p : starts_with_digit (pretty (Z.pos p)).
Proof.
  change (pretty (Z.pos p)) with (pretty_N_go (N.pos p) "").
  rewrite pretty_N_go_step by lia. apply pretty_N_go_starts.
  simpl. rewrite digit_of_pretty_N_char by (apply N.mod_lt; lia). by eexists.
Qed.

Lemma digit_char c :
  is_Some (digit_of c) -> (48 <= N_of_ascii c <= 57)%N.
Proof.
  unfold digit_of. intros [d Hd].
  destruct ((48 <=? N_of_ascii c)%N) eqn:H1, ((N_of_ascii c <=? 57)%N) eqn:H2;
    simpl in Hd; try done.
  apply N.leb_le in H1, H2. lia.
Qed.

Lemma is_digit_char c : is_digit c = true -> (48 <= N_of_ascii c <= 57)%N.
Proof.
  unfold is_digit. intros H. apply digit_char.
  destruct (digit_of c); [by eexists|done].
Qed.

(** ** Number literals *)

(** The digits of a finite number as [Number::toString] gives them: at
    least one, none but digits, and no zero at either end. *)
Definition canonical_digits (s : string) : bool :=
  match s with
  | String c _ =>
      negb (Ascii.eqb c "0") && all_digits s &&
      String.eqb (strip_trailing_zeros s) s
  | EmptyString => false
  end.

(** The mantissa of a number ends in no zero. *)
Definition wf_number (x : Number) : Prop :=
  match x with
  | Decimal _ m _ => Z.pos m mod 10 <> 0
  | _ => True
  end.

(** The numbers that a JSON text keeps: the finite ones, other than the
    negative zero. *)
Definition finite_number (x : Number) : Prop :=
  match x with
  | Decimal _ m _ => Z.pos m mod 10 <> 0
  | Zero negative => negative = false
  | NaN | Infinity _ => False
  end.

(** The number that a string of digits spells. *)
Definition mantissa_of (s : string) : positive := Z.to_pos (fst (read_digits 0 s)).

(** A text at which a number literal ends. *)
Definition ends_number (s : string) : bool :=
  match s with
  | String c _ =>
      negb (is_digit c || Ascii.eqb c "." || Ascii.eqb c "e" || Ascii.eqb c "E")
  | EmptyString => true
  end.

Lemma ends_number_stops s : ends_number s = true -> stops s.
Proof.
  destruct s as [|c s]; [done|]. simpl. unfold is_digit.
  by destruct (digit_of c).
Qed.

Lemma span_digits_stops s : stops s -> span_digits s = ("", s).
Proof.
  destruct s as [|c s]; [done|]. simpl. unfold is_digit. by intros ->.
Qed.

Lemma span_digits_app ds rest :
  all_digits ds = true -> stops rest -> span_digits (ds +:+ rest) = (ds, rest).
Proof.
  intros Hd Hs. induction ds as [|c ds IH]; [by apply span_digits_stops|].
  simpl in Hd. apply andb_true_iff in Hd as [Hc Hd].
  change (String c ds +:+ rest) with (String c (ds +:+ rest)).
  simpl. by rewrite Hc, IH.
Qed.

Lemma all_digits_app s1 s2 :
  all_digits (s1 +:+ s2) = all_digits s1 && all_digits s2.
Proof.
  induction s1 as [|c s1 IH]; [done|].
  change (String c s1 +:+ s2) with (String c (s1 +:+ s2)).
  simpl. by rewrite IH, andb_assoc.
Qed.

Lemma all_digits_zeros m : all_digits (repeat_char "0" m) = true.
Proof. induction m as [|m IH]; [done|]. simpl. exact IH. Qed.

Lemma take_drop_string n s : take_string n s +:+ drop_string n s = s.
Proof.
  revert s. induction n as [|n IH]; intros [|c s]; try done.
  simpl. change (String c (take_string n s) +:+ drop_string n s)
    with (String c (take_string n s +:+ drop_string n s)). by rewrite IH.
Qed.

Lemma take_string_length n s :
  (n <= String.length s)%nat -> String.length (take_string n s) = n.
Proof.
  revert s. induction n as [|n IH]; intros [|c s] H; simpl in *; try done; try lia.
  rewrite IH; lia.
Qed.

Lemma drop_string_nonempty n s :
  (n < String.length s)%nat -> drop_string n s <> "".
Proof.
  revert s. induction n as [|n IH]; intros [|c s] H; simpl in *; try done; try lia.
  apply IH. lia.
Qed.

(** ** The number a literal denotes *)

Lemma strip_leading_zeros_zeros m s :
  strip_leading_zeros (repeat_char "0" m +:+ s)
  = (fst (strip_leading_zeros s), snd (strip_leading_zeros s) + Z.of_nat m).
Proof.
  induction m as [|m IH].
  - change (repeat_char "0" 0 +:+ s) with s.
    destruct (strip_leading_zeros s) as [r z]. cbn [fst snd]. f_equal. lia.
  - change (repeat_char "0" (S m) +:+ s)
      with (String "0" (repeat_char "0" m +:+ s)).
    cbn [strip_leading_zeros]. change (Ascii.eqb "0" "0") with true. cbv iota.
    rewrite IH. f_equal. lia.
Qed.

Lemma strip_trailing_zeros_zeros m : strip_trailing_zeros (repeat_char "0" m) = "".
Proof. induction m as [|m IH]; [done|]. simpl. by rewrite IH. Qed.

Lemma strip_trailing_zeros_app s t :
  strip_trailing_zeros t = "" ->
  strip_trailing_zeros (s +:+ t) = strip_trailing_zeros s.
Proof.
  intros Ht. induction s as [|c s IH]; [done|].
  change (String c s +:+ t) with (String c (s +:+ t)). simpl. by rewrite IH.
Qed.

Lemma canonical_digits_inv s :
  canonical_digits s = true ->
  exists c rest, s = String c rest /\ Ascii.eqb c "0" = false /\
                 is_digit c = true /\ all_digits s = true /\
                 strip_trailing_zeros s = s.
Proof.
  destruct s as [|c rest]; [done|]. unfold canonical_digits.
  intros H. apply andb_true_iff in H as [H H3]. apply andb_true_iff in H as [H1 H2].
  exists c, rest. split; [done|]. split; [by destruct (Ascii.eqb c "0")|].
  split; [|split; [done|by apply String.eqb_eq]].
  simpl in H2. by apply andb_true_iff in H2 as [].
Qed.

(** Zeros after the digits of a number move its point only. *)
Lemma decimal_trailing negative s m point :
  canonical_digits s = true ->
  decimal negative (s +:+ repeat_char "0" m) point
  = Decimal negative (mantissa_of s) point.
Proof.
  intros Hs. destruct (canonical_digits_inv s Hs) as (c & rest & -> & Hc & _ & _ & Ht).
  unfold decimal.
  change (String c rest +:+ repeat_char "0" m)
    with (String c (rest +:+ repeat_char "0" m)).
  cbn [strip_leading_zeros]. rewrite Hc.
  change (String c (rest +:+ repeat_char "0" m))
    with (String c rest +:+ repeat_char "0" m).
  rewrite strip_trailing_zeros_app by apply strip_trailing_zeros_zeros.
  rewrite Ht. unfold mantissa_of. f_equal. lia.
Qed.

Lemma decimal_canonical negative s point :
  canonical_digits s = true ->
  decimal negative s point = Decimal negative (mantissa_of s) point.
Proof.
  intros Hs. rewrite <- (decimal_trailing negative s 0 point Hs).
  simpl. by rewrite string_app_nil_r.
Qed.

(** Zeros before the digits of a number move its point. *)
Lemma decimal_leading negative s m point :
  canonical_digits s = true ->
  decimal negative (repeat_char "0" m +:+ s) point
  = Decimal negative (mantissa_of s) (point - Z.of_nat m).
Proof.
  intros Hs. pose proof (decimal_canonical negative s (point - Z.of_nat m) Hs) as Hd.
  destruct (canonical_digits_inv s Hs) as (c & rest & -> & Hc & _ & _ & Ht).
  unfold decimal in *. rewrite strip_leading_zeros_zeros.
  cbn [strip_leading_zeros] in *. rewrite Hc in *. cbn [fst snd].
  rewrite Ht in *. f_equal; lia.
Qed.

(** ** Reading the parts of a literal *)

Lemma parse_fraction_none s : ends_number s = true -> parse_fraction s = Some ("", s).
Proof.
  destruct s as [|c s]; [done|]. simpl. intros H.
  destruct (Ascii.eqb c "."); [|done].
  by rewrite !orb_true_r in H.
Qed.

Lemma parse_fraction_digits ds rest :
  ds <> "" -> all_digits ds = true -> stops rest ->
  parse_fraction ("." +:+ ds +:+ rest) = Some (ds, rest).
Proof.
  intros Hne Hd Hs. change ("." +:+ ds +:+ rest) with (String "." (ds +:+ rest)).
  simpl. rewrite span_digits_app by done. by destruct ds.
Qed.

Lemma parse_exponent_none s : ends_number s = true -> parse_exponent s = Some (0, s).
Proof.
  destruct s as [|c s]; [done|]. simpl. intros H.
  destruct (Ascii.eqb c "e"); [by rewrite !orb_true_r in H|].
  destruct (Ascii.eqb c "E"); [by rewrite !orb_true_r in H|]. done.
Qed.

Lemma pretty_abs_starts e : starts_with_digit (pretty (Z.abs e)).
Proof.
  destruct e as [|p|p]; [by eexists|apply pretty_pos_starts..].
Qed.

Lemma parse_exponent_digits e rest :
  stops rest ->
  parse_exponent ("e" +:+ (if 0 <? e then "+" else "-") +:+ pretty (Z.abs e) +:+ rest)
  = Some (e, rest).
Proof.
  intros Hs.
  pose proof (read_digits_pretty (Z.abs e) rest ltac:(lia)) as Hr.
  rewrite (read_digits_stops _ rest Hs) in Hr.
  pose proof (pretty_abs_starts e) as Hd.
  destruct (pretty (Z.abs e)) as [|d ds] eqn:Hp; [done|].
  assert (Hdig : is_digit d = true).
  { unfold is_digit. simpl in Hd. by destruct Hd as [? ->]. }
  destruct (0 <? e) eqn:He; [apply Z.ltb_lt in He|apply Z.ltb_ge in He].
  - change ("e" +:+ "+" +:+ String d ds +:+ rest)
      with (String "e" (String "+" (String d ds +:+ rest))).
    cbn [parse_exponent Ascii.eqb Bool.eqb orb].
    change (Ascii.eqb "+" "-") with false. change (Ascii.eqb "+" "+") with true.
    cbv iota. change (String d ds +:+ rest) with (String d (ds +:+ rest)) in *.
    cbv beta iota. rewrite Hdig, Hr. do 2 f_equal. lia.
  - change ("e" +:+ "-" +:+ String d ds +:+ rest)
      with (String "e" (String "-" (String d ds +:+ rest))).
    cbn [parse_exponent Ascii.eqb Bool.eqb orb].
    change (Ascii.eqb "-" "-") with true.
    cbv iota. change (String d ds +:+ rest) with (String d (ds +:+ rest)) in *.
    cbv beta iota. rewrite Hdig, Hr. do 2 f_equal. lia.
Qed.

Lemma repeat_char_length c n : String.length (repeat_char c n) = n.
Proof. induction n as [|n IH]; simpl; [done|]. by rewrite IH. Qed.

Lemma some_decimal_eq negative m (p q : Z) (rest : string) :
  p = q -> Some (Decimal negative m p, rest) = Some (Decimal negative m q, rest).
Proof. by intros ->. Qed.

Lemma parse_unsigned_parts negative s d more after_int frac after_frac e rest :
  span_digits s = (String d more, after_int) ->
  (Ascii.eqb d "0" && negb (String.eqb more ""))%bool = false ->
  parse_fraction after_int = Some (frac, after_frac) ->
  parse_exponent after_frac = Some (e, rest) ->
  parse_unsigned negative s
  = Some (decimal negative (String d more +:+ frac)
            (Z.of_nat (String.length (String d more)) + e), rest).
Proof.
  intros Hi Hz Hf He. unfold parse_unsigned. by rewrite Hi, Hz, Hf, He.
Qed.

(** Reading the text of a positive number gives its digits and its
    point back. *)
Lemma parse_unsigned_decimal_text negative s n rest :
  canonical_digits s = true -> ends_number rest = true ->
  parse_unsigned negative (decimal_text s n +:+ rest)
  = Some (Decimal negative (mantissa_of s) n, rest).
Proof.
  intros Hs Hend.
  destruct (canonical_digits_inv s Hs) as (c & tl & Heq & Hc & Hcd & Hall & _).
  pose proof (ends_number_stops rest Hend) as Hstop.
  assert (Hlen : (0 < String.length s)%nat) by (rewrite Heq; simpl; lia).
  unfold decimal_text. cbv zeta.
  destruct ((Z.of_nat (String.length s) <=? n) && (n <=? 21)) eqn:H1.
  { (* the digits and zeros *)
    apply andb_true_iff in H1 as [H1 _]. apply Z.leb_le in H1.
    set (m := Z.to_nat (n - Z.of_nat (String.length s))).
    assert (Hsp : span_digits ((s +:+ repeat_char "0" m) +:+ rest)
                  = (String c (tl +:+ repeat_char "0" m), rest)).
    { rewrite span_digits_app; [by rewrite Heq| |done].
      by rewrite all_digits_app, Hall, all_digits_zeros. }
    rewrite (parse_unsigned_parts negative _ _ _ _ "" rest 0 rest Hsp).
    - change (String c (tl +:+ repeat_char "0" m)) with (String c tl +:+ repeat_char "0" m).
      rewrite <- Heq, string_app_nil_r, decimal_trailing by done.
      rewrite string_length_app, repeat_char_length. apply some_decimal_eq. subst m. lia.
    - by rewrite Hc.
    - by apply parse_fraction_none.
    - by apply parse_exponent_none. }
  destruct ((0 <? n) && (n <=? 21)) eqn:H2.
  { (* a point among the digits *)
    apply andb_true_iff in H2 as [H2 H2']. apply Z.ltb_lt in H2. apply Z.leb_le in H2'.
    apply andb_false_iff in H1 as [H1|H1];
      [apply Z.leb_gt in H1|apply Z.leb_gt in H1; lia].
    set (m := Z.to_nat n).
    assert (Hm : (0 < m < String.length s)%nat) by lia.
    pose proof (take_drop_string m s) as Htd.
    assert (Hd : all_digits (take_string m s) = true /\
                 all_digits (drop_string m s) = true).
    { apply andb_true_iff. by rewrite <- all_digits_app, Htd. }
    destruct Hd as [Hd1 Hd2].
    assert (Htk : exists tl', take_string m s = String c tl').
    { rewrite Heq. destruct m as [|m']; [lia|]. simpl. by eexists. }
    destruct Htk as (tl' & Htk).
    assert (Hsp : span_digits
                    ((take_string m s +:+ "." +:+ drop_string m s) +:+ rest)
                  = (String c tl', "." +:+ drop_string m s +:+ rest)).
    { rewrite !string_app_assoc, span_digits_app, Htk; done. }
    rewrite (parse_unsigned_parts negative _ _ _ _ (drop_string m s) rest 0 rest Hsp).
    - rewrite <- Htk, Htd, decimal_canonical by done.
      rewrite take_string_length by lia. apply some_decimal_eq. subst m. lia.
    - by rewrite Hc.
    - apply parse_fraction_digits; [apply drop_string_nonempty; lia|done|done].
    - by apply parse_exponent_none. }
  destruct ((-6 <? n) && (n <=? 0)) eqn:H3.
  { (* zeros before the digits *)
    apply andb_true_iff in H3 as [_ H3]. apply Z.leb_le in H3.
    set (m := Z.to_nat (- n)).
    assert (Hsp : span_digits (("0." +:+ repeat_char "0" m +:+ s) +:+ rest)
                  = ("0", "." +:+ (repeat_char "0" m +:+ s) +:+ rest)).
    { change ("0." +:+ repeat_char "0" m +:+ s)
        with ("0" +:+ "." +:+ repeat_char "0" m +:+ s).
      rewrite !string_app_assoc. by rewrite span_digits_app. }
    rewrite (parse_unsigned_parts negative _ _ _ _ (repeat_char "0" m +:+ s) rest 0 rest Hsp).
    - change ("0" +:+ repeat_char "0" m +:+ s) with (repeat_char "0" (S m) +:+ s).
      rewrite decimal_leading by done. apply some_decimal_eq. simpl String.length. try subst m. lia.
    - done.
    - apply parse_fraction_digits; [|by rewrite all_digits_app, all_digits_zeros|done].
      rewrite Heq. by destruct m.
    - by apply parse_exponent_none. }
  (* the exponent form *)
  assert (Hn : n <= -6 \/ 21 < n).
  { apply andb_false_iff in H2, H3.
    destruct H2 as [H2|H2], H3 as [H3|H3];
      repeat match goal with
        | H : (_ <? _) = false |- _ => apply Z.ltb_ge in H
        | H : (_ <=? _) = false |- _ => apply Z.leb_gt in H
        end; lia. }
  pose proof (parse_exponent_digits (n - 1) rest Hstop) as Hexp.
  assert (Hestop : stops ("e" +:+ (if 0 <? n - 1 then "+" else "-") +:+
                          pretty (Z.abs (n - 1)) +:+ rest)) by done.
  rewrite Heq in *. clear Heq. destruct tl as [|d' tl].
  - assert (Hsp : span_digits
                    ((String c "" +:+ "e" +:+ (if 0 <? n - 1 then "+" else "-") +:+
                      pretty (Z.abs (n - 1))) +:+ rest)
                  = (String c "", "e" +:+ (if 0 <? n - 1 then "+" else "-") +:+
                                  pretty (Z.abs (n - 1)) +:+ rest)).
    { rewrite !string_app_assoc. by rewrite span_digits_app. }
    rewrite (parse_unsigned_parts negative _ _ _ _ ""
               ("e" +:+ (if 0 <? n - 1 then "+" else "-") +:+
                pretty (Z.abs (n - 1)) +:+ rest) (n - 1) rest Hsp).
    + rewrite string_app_nil_r, decimal_canonical by done.
      apply some_decimal_eq. simpl String.length. try subst m. lia.
    + by rewrite Hc.
    + done.
    + exact Hexp.
  - assert (Hsp : span_digits
                    ((String c ("." +:+ String d' tl) +:+ "e" +:+
                      (if 0 <? n - 1 then "+" else "-") +:+
                      pretty (Z.abs (n - 1))) +:+ rest)
                  = (String c "", "." +:+ String d' tl +:+ "e" +:+
                                  (if 0 <? n - 1 then "+" else "-") +:+
                                  pretty (Z.abs (n - 1)) +:+ rest)).
    { change (String c ("." +:+ String d' tl)) with (String c "" +:+ "." +:+ String d' tl).
      rewrite !string_app_assoc. rewrite span_digits_app; [done| |done].
      simpl. by rewrite Hcd. }
    rewrite (parse_unsigned_parts negative _ _ _ _ (String d' tl)
               ("e" +:+ (if 0 <? n - 1 then "+" else "-") +:+
                pretty (Z.abs (n - 1)) +:+ rest) (n - 1) rest Hsp).
    + change (String c "" +:+ String d' tl) with (String c (String d' tl)).
      rewrite decimal_canonical by done. apply some_decimal_eq. simpl String.length. try subst m. lia.
    + by rewrite Hc.
    + apply parse_fraction_digits; [done| |done].
      simpl in Hall. by apply andb_true_iff in Hall as [_ Hall].
    + exact Hexp.
Qed.

Lemma parse_number_unsigned s r :
  parse_unsigned false s = Some r -> parse_number s = Some r.
Proof.
  destruct s as [|c s]; [done|]. intros H. unfold parse_number.
  destruct (Ascii.eqb c "-") eqn:Hc; [|done].
  apply Ascii.eqb_eq in Hc as ->. discriminate.
Qed.

(** The digits of a mantissa. *)
Lemma pretty_N_go_head n s :
  (0 < n)%N ->
  exists c tl, pretty_N_go n s = String c tl /\
               Ascii.eqb c "0" = false /\ is_digit c = true.
Proof.
  revert s. induction (N.lt_wf_0 n) as [n _ IH]; intros s Hn.
  rewrite pretty_N_go_step by lia.
  destruct (decide (n `div` 10 = 0)%N) as [H0|H0].
  - rewrite H0, pretty_N_go_0. eexists _, _. split; [done|].
    assert (Hlt : (n < 10)%N) by (apply N.div_small_iff in H0; lia).
    rewrite N.mod_small by done.
    assert (Hc : (n = 9 \/ n = 8 \/ n = 7 \/ n = 6 \/ n = 5 \/ n = 4 \/ n = 3 \/
                  n = 2 \/ n = 1)%N) by lia.
    destruct_or!; subst; done.
  - apply IH; [apply N.div_lt; lia|]. by apply N.neq_0_lt_0.
Qed.

Lemma pretty_N_go_all_digits n s :
  all_digits s = true -> all_digits (pretty_N_go n s) = true.
Proof.
  revert s. induction (N.lt_wf_0 n) as [n _ IH]; intros s Hs.
  destruct (decide (n = 0%N)) as [->|Hn]; [by rewrite pretty_N_go_0|].
  rewrite pretty_N_go_step by lia. apply IH; [apply N.div_lt; lia|].
  simpl. rewrite Hs, andb_true_r. unfold is_digit.
  by rewrite digit_of_pretty_N_char by (apply N.mod_lt; lia).
Qed.

Lemma strip_trailing_zeros_last t c :
  Ascii.eqb c "0" = false ->
  strip_trailing_zeros (t +:+ String c "") = t +:+ String c "".
Proof.
  intros Hc. induction t as [|d t IH]; [by simpl; rewrite Hc|].
  change (String d t +:+ String c "") with (String d (t +:+ String c "")).
  cbn [strip_trailing_zeros]. rewrite IH. by destruct t.
Qed.

Lemma pretty_mantissa_canonical m :
  Z.pos m mod 10 <> 0 -> canonical_digits (pretty (Z.pos m)) = true.
Proof.
  intros Hm. change (pretty (Z.pos m)) with (pretty_N_go (N.pos m) "").
  destruct (pretty_N_go_head (N.pos m) "" ltac:(lia)) as (c & tl & Heq & Hc & _).
  pose proof (pretty_N_go_all_digits (N.pos m) "" eq_refl) as Hall.
  assert (Hlast : strip_trailing_zeros (pretty_N_go (N.pos m) "")
                  = pretty_N_go (N.pos m) "").
  { rewrite pretty_N_go_step by lia.
    change (String (pretty_N_char (N.pos m `mod` 10)) "")
      with ("" +:+ String (pretty_N_char (N.pos m `mod` 10)) "").
    rewrite pretty_N_go_app. apply strip_trailing_zeros_last.
    assert (Hmod : (N.pos m `mod` 10 <> 0)%N).
    { intros H0. apply Hm. change (Z.pos m) with (Z.of_N (N.pos m)).
      change 10 with (Z.of_N 10). rewrite <- N2Z.inj_mod, H0. done. }
    pose proof (N.mod_lt (N.pos m) 10 ltac:(lia)) as Hlt.
    set (d := (N.pos m `mod` 10)%N) in *. clearbody d.
    assert (Hcases : (d = 1 \/ d = 2 \/ d = 3 \/ d = 4 \/ d = 5 \/ d = 6 \/
                      d = 7 \/ d = 8 \/ d = 9)%N) by lia.
    destruct_or!; subst d; done. }
  unfold canonical_digits. rewrite Heq in *. rewrite Hc, Hall, Hlast.
  by rewrite String.eqb_refl.
Qed.

Lemma mantissa_of_pretty m : mantissa_of (pretty (Z.pos m)) = m.
Proof.
  unfold mantissa_of.
  pose proof (read_digits_pretty (Z.pos m) "" ltac:(lia)) as Hr.
  rewrite string_app_nil_r in Hr. by rewrite Hr.
Qed.

(** What [JSON.parse] reads where [JSON.stringify] wrote a value: [null]
    for a number that is not finite, 0 for the negative zero, and the
    value itself otherwise. *)
Definition read_back (v : value) : value :=
  match v with
  | VNum NaN | VNum (Infinity _) => VNull
  | VNum (Zero _) => VNum (Zero false)
  | _ => v
  end.

(** The text of a finite number is read back as that number, the
    negative zero as 0. *)
Lemma parse_number_toString x rest :
  wf_number x -> x <> NaN -> (forall b, x <> Infinity b) ->
  ends_number rest = true ->
  exists y, read_back (VNum x) = VNum y /\
            parse_number (Number_toString x +:+ rest) = Some (y, rest).
Proof.
  intros Hx Hnan Hinf Hend. destruct x as [|b|negative|negative m n]; try done.
  - by destruct (Hinf b).
  - exists (Zero false). split; [done|]. apply parse_number_unsigned.
    change (Number_toString (Zero negative) +:+ rest) with ("0" +:+ rest).
    pose proof (ends_number_stops rest Hend) as Hstop.
    assert (Hsp : span_digits ("0" +:+ rest) = ("0", rest))
      by (by apply span_digits_app).
    rewrite (parse_unsigned_parts false _ _ _ _ "" rest 0 rest Hsp);
      [done|done|by apply parse_fraction_none|by apply parse_exponent_none].
  - exists (Decimal negative m n). split; [done|].
    simpl in Hx. apply pretty_mantissa_canonical in Hx.
    rewrite <- (mantissa_of_pretty m) at 2.
    unfold Number_toString. rewrite string_app_assoc.
    destruct negative.
    + change ("-" +:+ decimal_text (pretty (Z.pos m)) n +:+ rest)
        with (String "-" (decimal_text (pretty (Z.pos m)) n +:+ rest)).
      unfold parse_number. change (Ascii.eqb "-" "-") with true. cbv iota.
      by apply parse_unsigned_decimal_text.
    + apply parse_number_unsigned.
      change ("" +:+ decimal_text (pretty (Z.pos m)) n +:+ rest)
        with (decimal_text (pretty (Z.pos m)) n +:+ rest).
      by apply parse_unsigned_decimal_text.
Qed.

(** The text of a number that [JSON.stringify] writes starts with a digit
    or with a minus sign. *)
Lemma decimal_text_head s n :
  canonical_digits s = true ->
  exists c s', decimal_text s n = String c s' /\ is_digit c = true.
Proof.
  intros Hs.
  destruct (canonical_digits_inv s Hs) as (c & tl & -> & _ & Hcd & _ & _).
  unfold decimal_text. cbv zeta.
  destruct ((Z.of_nat (String.length (String c tl)) <=? n) && (n <=? 21)).
  { by eexists c, _. }
  destruct ((0 <? n) && (n <=? 21)) eqn:H2.
  { apply andb_true_iff in H2 as [H2 _]. apply Z.ltb_lt in H2.
    destruct (Z.to_nat n) as [|m] eqn:Hm; [lia|]. by eexists c, _. }
  destruct ((-6 <? n) && (n <=? 0)).
  { by eexists "0"%char, _. }
  destruct tl; by eexists c, _.
Qed.

Lemma Number_text_head x rest :
  wf_number x -> x <> NaN -> (forall b, x <> Infinity b) ->
  exists c s', Number_toString x +:+ rest = String c s' /\
               (is_digit c = true \/ c = "-"%char).
Proof.
  intros Hx Hnan Hinf. destruct x as [|b|negative|negative m n]; try done.
  - by destruct (Hinf b).
  - exists "0"%char, rest. split; [done|by left].
  - unfold Number_toString. destruct negative.
    + exists "-"%char, (decimal_text (pretty (Z.pos m)) n +:+ rest).
      split; [|by right]. by rewrite string_app_assoc.
    + simpl in Hx. apply pretty_mantissa_canonical in Hx.
      destruct (decimal_text_head _ n Hx) as (c & s' & Ht & Hc).
      change ("" +:+ decimal_text (pretty (Z.pos m)) n)
        with (decimal_text (pretty (Z.pos m)) n). rewrite Ht.
      exists c, (s' +:+ rest). split; [done|by left].
Qed.

(** A string, a number or a boolean. *)
Definition scalar (v : value) : Prop :=
  match v with
  | VStr _ | VBool _ => True
  | VNum x => wf_number x
  | _ => False
  end.

(** The values that a JSON text keeps as they are: strings, booleans and
    the finite numbers other than the negative zero. *)
Definition flat (v : value) : Prop :=
  match v with
  | VStr _ | VBool _ => True
  | VNum x => finite_number x
  | _ => False
  end.

Lemma flat_scalar v : flat v -> scalar v.
Proof. by destruct v as [| | |[]| |]. Qed.

Lemma read_back_flat v : flat v -> read_back v = v.
Proof. destruct v as [| | |[| |b|]| |]; try done. simpl. by intros ->. Qed.

Lemma read_back_scalar v : scalar v -> read_back v <> VUndef.
Proof. by destruct v as [| | |[]| |]. Qed.

Lemma json_quote_app k rest :
  json_quote k +:+ rest = String dquote (json_escape k +:+ String dquote rest).
Proof.
  unfold json_quote.
  change (String dquote (json_escape k) +:+ String dquote "")
    with (String dquote (json_escape k +:+ String dquote "")).
  change (String dquote (json_escape k +:+ String dquote "") +:+ rest)
    with (String dquote ((json_escape k +:+ String dquote "") +:+ rest)).
  by rewrite string_app_assoc.
Qed.

Lemma parse_value_scalar fuel v rest :
  scalar v -> ends_number rest = true ->
  parse_value (S fuel) (JSON_stringify v +:+ rest) = Some (read_back v, rest).
Proof.
  intros Hv Hs. destruct v as [| |[]|x|s|]; try done; try reflexivity.
  - simpl in Hv. destruct x as [|b|b|b m n]; [reflexivity|reflexivity| |].
    all: match goal with |- context [VNum ?y] => set (x := y) in * end.
    all: assert (Hnan : x <> NaN) by done.
    all: assert (Hinf : forall b', x <> Infinity b') by done.
    all: destruct (parse_number_toString x rest Hv Hnan Hinf Hs) as (y & Hy & Hn).
    all: destruct (Number_text_head x rest Hv Hnan Hinf) as (c & s' & Heq & Hc).
    all: change (JSON_stringify (VNum x)) with (Number_toString x).
    all: rewrite Hy, Heq in *.
    all: assert (Hn' : (N_of_ascii c <= 57)%N)
           by (destruct Hc as [Hd| ->];
               [apply is_digit_char in Hd; lia|vm_compute; discriminate]).
    all: assert (Hlow : (34 < N_of_ascii c)%N)
           by (destruct Hc as [Hd| ->];
               [apply is_digit_char in Hd; lia|vm_compute; reflexivity]).
    all: unfold parse_value.
    all: rewrite (ascii_eqb_false_N c "{") by (change (N_of_ascii "{") with 123%N; lia).
    all: rewrite (ascii_eqb_false_N c dquote) by (change (N_of_ascii dquote) with 34%N; lia).
    all: assert (Hp : forall (lit : ascii) (tl : string),
              (57 < N_of_ascii lit)%N -> starts_with (String lit tl) (String c s') = false)
           by (intros lit tl Hlit; simpl; by rewrite (ascii_eqb_false_N lit c) by lia).
    all: rewrite !Hp by (vm_compute; reflexivity).
    all: by rewrite Hn.
  - change (JSON_stringify (VStr s)) with (json_quote s).
    rewrite json_quote_app. simpl. by rewrite parse_escaped.
Qed.

(** The text of one member of an object. *)
Definition member_text (kv : string * value) : string :=
  json_quote (fst kv) +:+ ":" +:+ JSON_stringify (snd kv).

Definition set_entry (acc : list (string * value)) (kv : string * value)
  : list (string * value) :=
  obj_set (fst kv) (snd kv) acc.

(** An entry as it is read back. *)
Definition read_back_entry (kv : string * value) : string * value :=
  (fst kv, read_back (snd kv)).

Lemma JSON_stringify_flat_object fs :
  Forall (fun kv => scalar (snd kv)) fs ->
  JSON_stringify (VObj fs) = "{" +:+ join "," (List.map member_text fs) +:+ "}".
Proof.
  intros Hf. simpl JSON_stringify. do 3 f_equal.
  induction Hf as [|[k v] fs Hv Hf IH]; [done|].
  simpl. rewrite IH. by destruct v.
Qed.

Lemma parse_members_flat fs :
  fs <> [] -> Forall (fun kv => scalar (snd kv)) fs ->
  forall fuel acc rest,
    (length fs < fuel)%nat ->
    parse_members fuel (join "," (List.map member_text fs) +:+ "}" +:+ rest) acc
    = Some (VObj (fold_left set_entry (List.map read_back_entry fs) acc), rest).
Proof.
  intros Hne Hf. induction Hf as [|[k v] fs Hv Hf IH]; [done|].
  intros fuel acc rest Hfuel. destruct fuel as [|fuel]; [simpl in Hfuel; lia|].
  destruct fs as [|kv2 fs].
  - simpl join. unfold member_text. simpl fst. simpl snd.
    rewrite !string_app_assoc, json_quote_app.
    change (":" +:+ JSON_stringify v +:+ "}" +:+ rest)
      with (String ":" (JSON_stringify v +:+ String "}" rest)).
    simpl parse_members. rewrite parse_escaped. simpl.
    destruct fuel as [|fuel]; [simpl in Hfuel; lia|].
    by rewrite parse_value_scalar.
  - change (join "," (List.map member_text ((k, v) :: kv2 :: fs)))
      with (member_text (k, v) +:+ "," +:+ join "," (List.map member_text (kv2 :: fs))).
    unfold member_text at 1. simpl fst. simpl snd.
    rewrite !string_app_assoc, json_quote_app.
    change (":" +:+ JSON_stringify v +:+ "," +:+
            join "," (List.map member_text (kv2 :: fs)) +:+ "}" +:+ rest)
      with (String ":" (JSON_stringify v +:+
            String "," (join "," (List.map member_text (kv2 :: fs)) +:+ "}" +:+ rest))).
    simpl parse_members. rewrite parse_escaped. simpl Ascii.eqb. cbv iota.
    destruct fuel as [|fuel]; [simpl in Hfuel; lia|].
    rewrite parse_value_scalar by done. simpl Ascii.eqb. cbv iota.
    rewrite IH; [done|done|simpl in *; lia].
Qed.

Lemma member_text_head kv :
  exists tl, member_text kv = String dquote tl.
Proof.
  unfold member_text. rewrite json_quote_app. by eexists.
Qed.

Lemma join_members_length fs :
  (length fs <= String.length (join "," (List.map member_text fs)))%nat.
Proof.
  induction fs as [|kv fs IH]; [done|].
  destruct (member_text_head kv) as (tl & Hkv).
  destruct fs as [|kv2 fs].
  - change (join "," (List.map member_text [kv])) with (member_text kv).
    rewrite Hkv. simpl. lia.
  - change (join "," (List.map member_text (kv :: kv2 :: fs)))
      with (member_text kv +:+ "," +:+ join "," (List.map member_text (kv2 :: fs))).
    rewrite !string_length_app, Hkv. simpl in *. lia.
Qed.

Lemma join_members_head kv fs :
  exists tl, join "," (List.map member_text (kv :: fs)) = String dquote tl.
Proof.
  destruct (member_text_head kv) as (tl & Hkv). destruct fs as [|kv2 fs].
  - change (join "," (List.map member_text [kv])) with (member_text kv).
    by eexists.
  - change (join "," (List.map member_text (kv :: kv2 :: fs)))
      with (member_text kv +:+ "," +:+ join "," (List.map member_text (kv2 :: fs))).
    rewrite Hkv. by eexists.
Qed.

(** Parsing the text of an object of strings, numbers and booleans gives
    the object back, each key with its last value as it is read back. *)
Lemma JSON_parse_stringify_flat fs :
  Forall (fun kv => scalar (snd kv)) fs ->
  JSON_parse (JSON_stringify (VObj fs))
  = Some (VObj (fold_left set_entry (List.map read_back_entry fs) [])).
Proof.
  intros Hf. rewrite JSON_stringify_flat_object by done. unfold JSON_parse.
  destruct fs as [|kv fs]; [reflexivity|].
  pose proof (join_members_length (kv :: fs)) as Hlen.
  destruct (join_members_head kv fs) as (tl & Hhead).
  set (body := join "," (List.map member_text (kv :: fs)) +:+ "}").
  assert (Hp : parse_members (S (String.length body)) body []
               = Some (VObj (fold_left set_entry (List.map read_back_entry (kv :: fs)) []), "")).
  { pose proof (parse_members_flat (kv :: fs) ltac:(done) Hf
                  (S (String.length body)) [] "") as Hp.
    rewrite string_app_nil_r in Hp. apply Hp.
    unfold body. rewrite string_length_app. simpl in *. lia. }
  assert (Hbody : exists tl', body = String dquote tl').
  { unfold body. rewrite Hhead. by eexists. }
  destruct Hbody as (tl' & Hbody).
  change ("{" +:+ body) with (String "{" body).
  change (String.length (String "{" body)) with (S (String.length body)).
  change (parse_value (S (S (String.length body))) (String "{" body))
    with (match body with
          | String c' rest' =>
              if Ascii.eqb c' "}" then Some (VObj [], rest')
              else parse_members (S (String.length body)) body []
          | EmptyString => None
          end).
  rewrite Hbody at 1. change (Ascii.eqb dquote "}") with false. cbv iota.
  by rewrite Hp.
Qed.

(** ** Objects built with [obj_set] *)

Lemma assoc_In_keys k d : is_Some (assoc k d) -> In k (List.map fst d).
Proof.
  induction d as [|[k' v'] d IH]; simpl; [by intros []|].
  destruct (String.eqb k k') eqn:He; [|by right; apply IH].
  apply String.eqb_eq in He as ->. by left.
Qed.

Lemma assoc_app k (d1 d2 : list (string * value)) :
  assoc k (d1 ++ d2)
  = match assoc k d1 with Some v => Some v | None => assoc k d2 end.
Proof.
  induction d1 as [|[k' v'] d1 IH]; simpl; [done|].
  by destruct (String.eqb k k').
Qed.

Lemma assoc_None_keys k d : assoc k d = None <-> ~ In k (List.map fst d).
Proof.
  induction d as [|[k' v'] d IH]; simpl; [tauto|].
  destruct (String.eqb k k') eqn:He.
  - apply String.eqb_eq in He as ->. split; [done|tauto].
  - apply String.eqb_neq in He. rewrite IH. split; [|tauto].
    intros Hn [Heq|Hin]; [by subst|tauto].
Qed.

Lemma obj_insert_index_split i k v d :
  exists d1 d2, d = d1 ++ d2 /\ obj_insert_index i k v d = d1 ++ (k, v) :: d2.
Proof.
  induction d as [|[k' v'] d (d1 & d2 & Hd & IH)]; simpl.
  - by exists [], [].
  - destruct (array_index k') as [j|]; [destruct (j <? i)|].
    + exists ((k', v') :: d1), d2. split; [by rewrite Hd at 1|by rewrite IH].
    + by exists [], ((k', v') :: d).
    + by exists [], ((k', v') :: d).
Qed.

(** A key that is new is put somewhere among the entries, which keep
    their order. *)
Lemma obj_set_new k v d :
  assoc k d = None ->
  exists d1 d2, d = d1 ++ d2 /\ obj_set k v d = d1 ++ (k, v) :: d2.
Proof.
  intros Hk. unfold obj_set. rewrite Hk.
  destruct (array_index k) as [i|]; [apply obj_insert_index_split|].
  exists d, []. by rewrite app_nil_r.
Qed.

Lemma obj_set_old k v d :
  is_Some (assoc k d) -> obj_set k v d = obj_replace k v d.
Proof. intros [x Hx]. unfold obj_set. by rewrite Hx. Qed.

Lemma obj_set_fresh k v d :
  ~ In k (List.map fst d) -> array_index k = None -> obj_set k v d = d ++ [(k, v)].
Proof.
  intros Hk Hi. apply assoc_None_keys in Hk. unfold obj_set. by rewrite Hk, Hi.
Qed.

Lemma assoc_obj_replace_eq k v d :
  is_Some (assoc k d) -> assoc k (obj_replace k v d) = Some v.
Proof.
  induction d as [|[k' v'] d IH]; simpl; [by intros []|].
  destruct (String.eqb k k') eqn:He; simpl; rewrite ?String.eqb_refl, ?He; auto.
Qed.

Lemma assoc_obj_replace_ne k k' v d :
  k <> k' -> assoc k' (obj_replace k v d) = assoc k' d.
Proof.
  intros Hne. induction d as [|[k2 v2] d IH]; simpl; [done|].
  destruct (String.eqb k k2) eqn:He; simpl.
  - apply String.eqb_eq in He as <-. by rewrite (proj2 (String.eqb_neq k' k)).
  - by rewrite IH.
Qed.

Lemma keys_obj_replace k v d :
  is_Some (assoc k d) -> List.map fst (obj_replace k v d) = List.map fst d.
Proof.
  induction d as [|[k' v'] d IH]; simpl; [done|].
  destruct (String.eqb k k') eqn:He; simpl.
  - by apply String.eqb_eq in He as <-.
  - intros H. by rewrite IH.
Qed.

Lemma assoc_obj_set_eq k v d : assoc k (obj_set k v d) = Some v.
Proof.
  destruct (assoc k d) as [x|] eqn:Hk.
  - rewrite obj_set_old by (by rewrite Hk). apply assoc_obj_replace_eq. by rewrite Hk.
  - destruct (obj_set_new k v d Hk) as (d1 & d2 & Hd & ->).
    rewrite Hd, assoc_app in Hk. rewrite assoc_app.
    destruct (assoc k d1); [done|]. simpl. by rewrite String.eqb_refl.
Qed.

Lemma assoc_obj_set_ne k k' v d : k <> k' -> assoc k' (obj_set k v d) = assoc k' d.
Proof.
  intros Hne. destruct (assoc k d) as [x|] eqn:Hk.
  - rewrite obj_set_old by (by rewrite Hk). by apply assoc_obj_replace_ne.
  - destruct (obj_set_new k v d Hk) as (d1 & d2 & -> & ->).
    rewrite !assoc_app. simpl. by rewrite (proj2 (String.eqb_neq k' k)).
Qed.

Lemma keys_obj_set k v d :
  forall x, In x (List.map fst (obj_set k v d)) <-> x = k \/ In x (List.map fst d).
Proof.
  intros x. destruct (assoc k d) as [y|] eqn:Hk.
  - rewrite obj_set_old, keys_obj_replace by (by rewrite Hk).
    split; [tauto|]. intros [->|H]; [|done].
    apply assoc_In_keys. by rewrite Hk.
  - destruct (obj_set_new k v d Hk) as (d1 & d2 & -> & ->).
    rewrite !List.map_app, !in_app_iff. simpl. intuition.
Qed.

Lemma NoDup_keys_obj_set k v d :
  List.NoDup (List.map fst d) -> List.NoDup (List.map fst (obj_set k v d)).
Proof.
  intros Hnd. destruct (assoc k d) as [y|] eqn:Hk.
  - by rewrite obj_set_old, keys_obj_replace by (by rewrite Hk).
  - destruct (obj_set_new k v d Hk) as (d1 & d2 & Hd & ->).
    apply assoc_None_keys in Hk. rewrite Hd in *.
    rewrite List.map_app in *. simpl.
    apply NoDup_cons_iff in Hnd || idtac.
    apply (List.NoDup_Add (a := k) (l := List.map fst d1 ++ List.map fst d2)).
    + apply Add_app.
    + by split.
Qed.

Lemma Forall_obj_set (P : string * value -> Prop) k v d :
  P (k, v) -> Forall P d -> Forall P (obj_set k v d).
Proof.
  intros Hv Hd. destruct (assoc k d) as [y|] eqn:Hk.
  - rewrite obj_set_old by (by rewrite Hk). clear Hk.
    induction Hd as [|[k' v'] d Hv' Hd IH]; simpl; [constructor|].
    destruct (String.eqb k k'); constructor; done.
  - destruct (obj_set_new k v d Hk) as (d1 & d2 & Hd' & ->). rewrite Hd' in Hd.
    apply Forall_app in Hd as [H1 H2]. apply Forall_app. split; [done|].
    by constructor.
Qed.

Lemma scalar_obj_set k v d :
  scalar v -> Forall (fun kv => scalar (snd kv)) d ->
  Forall (fun kv => scalar (snd kv)) (obj_set k v d).
Proof. intros Hv Hd. by apply Forall_obj_set. Qed.

Lemma assoc_In k v d : assoc k d = Some v -> In (k, v) d.
Proof.
  induction d as [|[k' v'] d IH]; simpl; [done|].
  destruct (String.eqb k k') eqn:He.
  - apply String.eqb_eq in He as <-. intros [= ->]. by left.
  - intros H. right. by apply IH.
Qed.

Lemma assoc_fold_notin k es d :
  ~ In k (List.map fst es) -> assoc k (fold_left set_entry es d) = assoc k d.
Proof.
  revert d. induction es as [|[k' v'] es IH]; intros d Hn; simpl; [done|].
  simpl in Hn. rewrite IH by tauto. unfold set_entry. simpl.
  apply assoc_obj_set_ne. intros ->. tauto.
Qed.

Lemma assoc_fold_in k v es d :
  List.NoDup (List.map fst es) -> In (k, v) es ->
  assoc k (fold_left set_entry es d) = Some v.
Proof.
  revert d. induction es as [|[k' v'] es IH]; intros d Hnd Hin; [done|].
  simpl in Hnd. inversion Hnd as [|? ? Hnot Hnd']; subst. simpl.
  destruct Hin as [[= -> ->]|Hin].
  - rewrite assoc_fold_notin by done. apply assoc_obj_set_eq.
  - by apply IH.
Qed.

(** Setting the entries of an object with distinct keys one after the
    other, as [JSON.parse] does, gives an object with the same value at
    every key. *)
Lemma assoc_fold_rebuild k d :
  List.NoDup (List.map fst d) -> assoc k (fold_left set_entry d []) = assoc k d.
Proof.
  intros Hnd. destruct (assoc k d) as [v|] eqn:Hk.
  - apply assoc_fold_in; [done|]. by apply assoc_In.
  - rewrite assoc_fold_notin; [done|]. by apply assoc_None_keys.
Qed.

Lemma NoDup_keys_fold es d :
  List.NoDup (List.map fst d) -> List.NoDup (List.map fst (fold_left set_entry es d)).
Proof.
  revert d. induction es as [|kv es IH]; intros d Hd; simpl; [done|].
  apply IH. by apply NoDup_keys_obj_set.
Qed.

Lemma scalar_fold es d :
  Forall (fun kv => scalar (snd kv)) es -> Forall (fun kv => scalar (snd kv)) d ->
  Forall (fun kv => scalar (snd kv)) (fold_left set_entry es d).
Proof.
  intros Hes. revert d. induction Hes as [|kv es Hkv Hes IH]; intros d Hd; simpl; [done|].
  apply IH. by apply scalar_obj_set.
Qed.

Lemma assoc_read_back k d :
  assoc k (List.map read_back_entry d) = read_back <$> assoc k d.
Proof.
  induction d as [|[k' v'] d IH]; [done|]. simpl.
  by destruct (String.eqb k k').
Qed.

Lemma NoDup_keys_filter (f : string * value -> bool) d :
  List.NoDup (List.map fst d) -> List.NoDup (List.map fst (List.filter f d)).
Proof.
  induction d as [|kv d IH]; intros Hnd; simpl; [constructor|].
  simpl in Hnd. inversion Hnd as [|? ? Hnot Hnd']; subst.
  destruct (f kv); simpl; [|by apply IH].
  constructor; [|by apply IH]. intros Hin. apply Hnot.
  apply in_map_iff in Hin as (kv' & Heq & Hin). apply filter_In in Hin as [Hin _].
  apply in_map_iff. by exists kv'.
Qed.

(** [LogLevel[name]]. *)
Definition level_of_name (nm : string) : option Z :=
  snd <$> List.find (fun kv => String.eqb (fst kv) nm) LogLevel.keys.

Lemma level_of_name_getLogLevelName lvl :
  0 <= lvl <= 4 -> level_of_name (getLogLevelName lvl) = Some lvl.
Proof.
  intros H. assert (Hc : lvl = 0 \/ lvl = 1 \/ lvl = 2 \/ lvl = 3 \/ lvl = 4) by lia.
  destruct_or!; subst; reflexivity.
Qed.

(** ** The JSON line of a record *)

(** The claim as the specification words it: the parsed line gives back
    the level, the message and every context key. *)
Definition json_round_trip_recovers_everything : Prop :=
  forall (includeTimestamp includeName : bool) (record : LogRecord)
         (ctx : list (string * value)),
    extra record = VObj ctx ->
    List.NoDup (List.map fst ctx) ->
    Forall (fun kv => scalar (snd kv)) ctx ->
    0 <= level record <= 4 ->
    exists line parsed,
      JSONFormatter_format includeTimestamp includeName record = Ok line /\
      JSON_parse line = Some (VObj parsed) /\
      assoc "level" parsed = Some (VStr (getLogLevelName (level record))) /\
      assoc "message" parsed = Some (VStr (message record)) /\
      forall k v, In (k, v) ctx -> assoc k parsed = Some v.


(** A context key named [level] takes the place of the record's level in
    the line. *)
Example context_key_named_level_replaces_level :
  exists line,
    JSONFormatter_format false false
      (mkLogRecord "app" LogLevel.INFO "saved" 1793593800123
         (VObj [("level", VStr "seven")])) = Ok line /\
    JSON_parse line = Some (VObj [("level", VStr "seven"); ("message", VStr "saved")]).
Proof. eexists. split; [reflexivity|]. vm_compute. reflexivity. Qed.

(** A context key named [__proto__] is not in the line: the assignment
    [data[key] = value] reaches the accessor of [Object.prototype]. *)
Example context_key_named_proto_is_not_in_the_line :
  exists line,
    JSONFormatter_format false false
      (mkLogRecord "app" LogLevel.INFO "saved" 1793593800123
         (VObj [("__proto__", VStr "x"); ("user", VStr "bob")])) = Ok line /\
    JSON_parse line
    = Some (VObj [("level", VStr "INFO"); ("message", VStr "saved");
                  ("user", VStr "bob")]).
Proof. eexists. split; [reflexivity|]. vm_compute. reflexivity. Qed.

(** A number that is not finite is written as [null], and the negative
    zero as [0]. *)
Example numbers_that_are_not_kept :
  exists line,
    JSONFormatter_format false false
      (mkLogRecord "app" LogLevel.INFO "saved" 1793593800123
         (VObj [("ratio", VNum NaN); ("peak", VNum (Infinity false));
                ("delta", VNum (Zero true))])) = Ok line /\
    JSON_parse line
    = Some (VObj [("level", VStr "INFO"); ("message", VStr "saved");
                  ("ratio", VNull); ("peak", VNull); ("delta", VNum (Zero false))]).
Proof. eexists. split; [reflexivity|]. vm_compute. reflexivity. Qed.

Lemma fold_obj_assign es d :
  fold_left (fun d kv => obj_assign (fst kv) (snd kv) d) es d
  = fold_left set_entry
      (List.filter (fun kv => negb (String.eqb (fst kv) "__proto__")) es) d.
Proof.
  revert d. induction es as [|[k v] es IH]; intros d; [done|].
  cbn [fold_left List.filter fst snd]. unfold obj_assign at 2.
  destruct (String.eqb k "__proto__"); cbn [negb]; [apply IH|].
  cbn [fold_left]. apply IH.
Qed.



(** * Further properties of the library *)

(** ** Placeholders and the context argument (Logger.js, [_log]) *)

(** The number of matches of [/%s/g] in a message. *)
Fixpoint count_percent_s (msg : string) : nat :=
  match msg with
  | EmptyString => 0%nat
  | String c rest =>
      match rest with
      | String c' rest' =>
          if (Ascii.eqb c "%" && Ascii.eqb c' "s")%bool
          then S (count_percent_s rest')
          else count_percent_s rest
      | EmptyString => 0%nat
      end
  end.

(** Induction on a string two characters at a time, as the scan for [%s]
    proceeds. *)
Lemma string_pair_ind (P : string -> Prop) :
  P "" ->
  (forall c, P (String c "")) ->
  (forall c c' rest, P rest -> P (String c' rest) -> P (String c (String c' rest))) ->
  forall s, P s.
Proof.
  intros H0 H1 H2.
  assert (H : forall s, P s /\ forall c, P (String c s)).
  { induction s as [|c' s [IH1 IH2]]; [by split|].
    split; [apply IH2|]. intros c. apply H2; [done|apply IH2]. }
  intros s. apply H.
Qed.

Lemma replace_percent_s_step c c' rest args :
  replace_percent_s (String c (String c' rest)) args =
  if (Ascii.eqb c "%" && Ascii.eqb c' "s")%bool then
    (toString (fst (shift args)) +:+ fst (replace_percent_s rest (snd (shift args))),
     snd (replace_percent_s rest (snd (shift args))))
  else
    (String c (fst (replace_percent_s (String c' rest) args)),
     snd (replace_percent_s (String c' rest) args)).
Proof.
  change (replace_percent_s (String c (String c' rest)) args) with
    (if (Ascii.eqb c "%" && Ascii.eqb c' "s")%bool then
       let '(v, args1) := shift args in
       let '(out, args2) := replace_percent_s rest args1 in
       (toString v +:+ out, args2)
     else
       let '(out, args1) := replace_percent_s (String c' rest) args in
       (String c out, args1)).
  destruct (Ascii.eqb c "%" && Ascii.eqb c' "s")%bool.
  - destruct (shift args) as [v args1]. simpl.
    by destruct (replace_percent_s rest args1).
  - by destruct (replace_percent_s (String c' rest) args).
Qed.

Lemma count_percent_s_step c c' rest :
  count_percent_s (String c (String c' rest)) =
  if (Ascii.eqb c "%" && Ascii.eqb c' "s")%bool
  then S (count_percent_s rest)
  else count_percent_s (String c' rest).
Proof. reflexivity. Qed.

Lemma shift_drop args : snd (shift args) = drop 1 args.
Proof. by destruct args. Qed.

(** Each placeholder takes one argument off the front of [args]. *)
Lemma replace_percent_s_rest msg args :
  snd (replace_percent_s msg args) = drop (count_percent_s msg) args.
Proof.
  revert args. induction msg as [| c | c c' rest IH1 IH2] using string_pair_ind;
    intros args; [done..|].
  rewrite replace_percent_s_step, count_percent_s_step.
  destruct (Ascii.eqb c "%" && Ascii.eqb c' "s")%bool; cbn [snd].
  - rewrite IH1, shift_drop. by rewrite drop_drop.
  - apply IH2.
Qed.

(** A message without a placeholder is left as it is. *)
Lemma replace_percent_s_verbatim msg args :
  count_percent_s msg = 0%nat -> fst (replace_percent_s msg args) = msg.
Proof.
  revert args. induction msg as [| c | c c' rest IH1 IH2] using string_pair_ind;
    intros args Hc; [done..|].
  rewrite replace_percent_s_step. rewrite count_percent_s_step in Hc.
  destruct (Ascii.eqb c "%" && Ascii.eqb c' "s")%bool; [done|].
  cbn [fst]. f_equal. by apply IH2.
Qed.

Lemma format_args_rest msg args :
  snd (format_args msg args) = drop (count_percent_s msg) args.
Proof.
  unfold format_args. destruct args as [|v args]; simpl.
  - by rewrite drop_nil.
  - apply replace_percent_s_rest.
Qed.

Lemma format_args_verbatim msg args :
  count_percent_s msg = 0%nat \/ args = [] -> fst (format_args msg args) = msg.
Proof.
  unfold format_args. intros [Hc| ->]; [|done].
  destruct args; simpl; [done|]. by apply replace_percent_s_verbatim.
Qed.

(** The first of the arguments that are left is the one after as many
    arguments as the message has placeholders. *)
Lemma first_left_argument msg (args : list value) :
  match drop (count_percent_s msg) args with v :: _ => v | [] => VObj [] end
  = default (VObj []) (args !! count_percent_s msg).
Proof.
  destruct (drop (count_percent_s msg) args) as [|v rest] eqn:Hd.
  - apply drop_nil_inv in Hd.
    by rewrite (proj2 (lookup_ge_None args (count_percent_s msg))).
  - assert (Hl : drop (count_percent_s msg) args !! 0%nat = Some v) by by rewrite Hd.
    rewrite lookup_drop, Nat.add_0_r in Hl. by rewrite Hl.
Qed.


(** ** What one accepted call adds to the record of [emit] calls *)

(** The calls a logger makes on its own handlers with one record. *)
Definition own_calls (w : World) (this : Logger) (record : LogRecord)
  : list (nat * LogRecord) :=
  List.map (fun h => (h, record)) (live w (lg_handlers this)).

Lemma _log_accepted_calls fuel lid lvl msg args w this :
  loggers w !! lid = Some this -> lg_level this <= lvl ->
  exists w2,
    emitted (own_calls w this (build_record this lvl msg args (clock w (tick w))))
      w w2 /\
    (tick w < tick w2)%nat /\
    _log (S fuel) lid lvl msg args w =
    match lg_propagate this, lg_parent this with
    | true, Some parent =>
        _log fuel parent lvl msg (drop (count_percent_s msg) args) w2
    | _, _ => (w2, Ok tt)
    end.
Proof.
  intros Hl Hle. rewrite (_log_accepted _ _ _ _ _ _ this) by done. cbv zeta.
  set (record := build_record this lvl msg args (clock w (tick w))).
  set (w1 := set_tick (S (tick w)) w).
  pose proof (dispatch_emitted (lg_handlers this) record w1) as Hd.
  assert (H1 : emitted [] w w1) by (apply set_tick_emitted; lia).
  pose proof (emitted_trans _ _ _ _ _ H1 Hd) as H2. simpl in H2.
  exists (fst (dispatch (lg_handlers this) record w1)).
  split; [exact H2|]. split; [pose proof (em_tick _ _ _ Hd); simpl in *; lia|].
  by rewrite format_args_rest.
Qed.


(** A child under a root logger, both with one memory handler of their
    own. *)
Definition chain_world : World :=
  fst ((root ← new_Logger "app";
        m ← new_Handler (KMemory 1000 []);
        addHandler root m;;
        child ← new_Logger "app.db";
        setL child (mkLogger "app.db" LogLevel.INFO [] true (Some root) ∅);;
        m' ← new_Handler (KMemory 1000 []);
        addHandler child m')
       (empty_world (fun n => 1793593800123 + Z.of_nat n) (fun _ => 0))).


(** ** Logging an exception (Logger.js, [exception]) *)

(** [target.k = v] in strict code, as modules are: setting a property of
    [undefined] or [null] and creating one on a primitive throw a
    [TypeError]. *)
Definition set_prop (target : value) (k : string) (v : value) : result value :=
  match target with
  | VObj fields => Ok (VObj (obj_set k v fields))
  | VUndef =>
      Throw (Error ("Cannot set properties of undefined (setting '" +:+ k +:+ "')"))
  | VNull =>
      Throw (Error ("Cannot set properties of null (setting '" +:+ k +:+ "')"))
  | VBool _ =>
      Throw (Error ("Cannot create property '" +:+ k +:+ "' on boolean '" +:+
                    toString target +:+ "'"))
  | VNum _ =>
      Throw (Error ("Cannot create property '" +:+ k +:+ "' on number '" +:+
                    toString target +:+ "'"))
  | VStr _ =>
      Throw (Error ("Cannot create property '" +:+ k +:+ "' on string '" +:+
                    toString target +:+ "'"))
  end.

(** [error ? error.stack : new Error().stack]. An error object is an
    object with a [stack]; [here] is the trace [new Error().stack] gives
    at the call. *)
Definition exception_trace (error : value) (here : string) : result value :=
  if truthy error then get_prop error "stack" else Ok (VStr here).

(** [Logger.exception]. Only the first of [args] is passed on. *)
Definition exception (fuel lid : nat) (msg : string) (error : value)
    (here : string) (args : list value) : M unit :=
  let extra := match args with v :: _ => v | [] => VObj [] end in
  extra ← lift_result (set_prop extra "exc_info" (VBool true));
  exc_text ← lift_result (exception_trace error here);
  extra ← lift_result (set_prop extra "exc_text" exc_text);
  _log fuel lid LogLevel.ERROR msg [extra].

(** The context [exception] passes to [_log]. *)
Definition exception_context (ctx : list (string * value)) (trace : value)
  : list (string * value) :=
  obj_set "exc_text" trace (obj_set "exc_info" (VBool true) ctx).

Lemma exception_run fuel lid msg error here args ctx trace w :
  match args with v :: _ => v | [] => VObj [] end = VObj ctx ->
  exception_trace error here = Ok trace ->
  exception fuel lid msg error here args w =
  _log fuel lid LogLevel.ERROR msg [VObj (exception_context ctx trace)] w.
Proof.
  intros Hctx Htr. unfold exception. rewrite Hctx, Htr. reflexivity.
Qed.

Lemma build_record_context this lvl msg args now :
  extra (build_record this lvl msg args now)
  = match args !! count_percent_s msg with
    | None | Some VUndef => VObj []
    | Some v => v
    end.
Proof.
  unfold build_record, new_LogRecord. cbn [extra].
  rewrite format_args_rest, first_left_argument.
  by destruct (args !! count_percent_s msg) as [[]|].
Qed.

(** The calls a call of [_log] makes after those on the logger's own
    handlers. *)
Lemma _log_accepted_emit_log fuel lid lvl msg args w this :
  loggers w !! lid = Some this -> lg_level this <= lvl ->
  exists rest,
    emit_log (fst (_log (S fuel) lid lvl msg args w))
    = emit_log w
      ++ own_calls w this (build_record this lvl msg args (clock w (tick w)))
      ++ rest.
Proof.
  intros Hl Hle.
  destruct (_log_accepted_calls fuel lid lvl msg args w this Hl Hle)
    as (w2 & Hem & _ & Heq).
  rewrite Heq.
  destruct (lg_propagate this), (lg_parent this) as [p|];
    try (exists []; cbn [fst]; by rewrite (em_log _ _ _ Hem), app_nil_r).
  destruct (_log_emitted fuel p lvl msg (drop (count_percent_s msg) args) w2)
    as (l & Hl' & _).
  exists l. rewrite (em_log _ _ _ Hl'), (em_log _ _ _ Hem). by rewrite <- app_assoc.
Qed.



(** ** A new child logs through the parent's handlers twice *)



(** ** Removing a handler (Logger.js, [removeHandler]) *)

Lemma remove_first_absent h hs : h ∉ hs -> remove_first h hs = hs.
Proof.
  induction hs as [|x hs IH]; intros Hn; [done|]. simpl.
  destruct (Nat.eqb_spec h x) as [->|Hne]; [by destruct Hn; left|].
  f_equal. apply IH. intros Hin. apply Hn. by right.
Qed.

Lemma remove_first_split h pre post :
  h ∉ pre -> remove_first h (pre ++ h :: post) = pre ++ post.
Proof.
  induction pre as [|x pre IH]; intros Hn; simpl.
  - by rewrite Nat.eqb_refl.
  - destruct (Nat.eqb_spec h x) as [->|Hne]; [by destruct Hn; left|].
    f_equal. apply IH. intros Hin. apply Hn. by right.
Qed.

(** X5. [removeHandler] takes the first registration of the handler out
    of the logger's list and leaves the others in their order, a later
    registration of the same handler included; for a handler that is not
    registered it changes nothing. So removing a handler that was just
    added gives back the list as it was only if the handler was not
    already in it. *)
Theorem removeHandler_removes_first_registration
    (w : World) (lid hid : nat) (this : Logger) :
  loggers w !! lid = Some this ->
  let after m := lg_handlers <$> loggers (fst (m w)) !! lid in
  (forall pre post,
     lg_handlers this = pre ++ hid :: post -> hid ∉ pre ->
     after (removeHandler lid hid) = Some (pre ++ post) /\
     after (addHandler lid hid;; removeHandler lid hid)
     = Some (pre ++ post ++ [hid])) /\
  (hid ∉ lg_handlers this ->
   fst (removeHandler lid hid w) = w /\
   after (addHandler lid hid;; removeHandler lid hid) = Some (lg_handlers this)).
Proof.
  intros Hl. cbv zeta. pose proof (lookup_lt_Some _ _ _ Hl) as Hlt.
  assert (Hrun :
            lg_handlers <$> loggers (fst ((addHandler lid hid;; removeHandler lid hid) w)) !! lid
            = Some (remove_first hid (lg_handlers this ++ [hid]))).
  { unfold addHandler, removeHandler.
    unfold mbind, M_bind, getL, setL, modify. simpl. rewrite Hl. simpl.
    rewrite list_lookup_insert_eq by done. simpl.
    rewrite list_lookup_insert_eq by (by rewrite length_insert). done. }
  split.
  - intros pre post Hhs Hn. split.
    + unfold removeHandler, mbind, M_bind, getL, setL, modify. simpl. rewrite Hl.
      simpl. rewrite list_lookup_insert_eq by done. simpl.
      by rewrite Hhs, remove_first_split.
    + rewrite Hrun, Hhs, <- app_assoc. simpl.
      by rewrite (remove_first_split hid pre (post ++ [hid])).
  - intros Hn. split.
    + unfold removeHandler, mbind, M_bind, getL, setL, modify. simpl. rewrite Hl.
      simpl. rewrite remove_first_absent by done.
      destruct this; simpl. rewrite list_insert_id by done. by destruct w.
    + rewrite Hrun. f_equal.
      rewrite <- (app_nil_r (lg_handlers this)) at 2.
      by apply (remove_first_split hid (lg_handlers this) []).
Qed.

Lemma removeHandler_witness :
  lg_handlers <$>
    loggers (fst ((addHandler 0 0;; removeHandler 0 0) family_world)) !! 0%nat
  = Some ([] ++ [] ++ [0%nat]).
Proof.
  destruct (removeHandler_removes_first_registration family_world 0 0
              (mkLogger "app" LogLevel.INFO [0%nat] true None ∅) eq_refl)
    as [H _].
  apply (H [] [] eq_refl). apply not_elem_of_nil.
Defined.

(** ** [Handler.handle] (handlers.js) *)

(** X6. [handle] never throws, whatever the class of the handler. A record
    below the level of the handler changes nothing. Any other record is
    passed to [emit] once, and when [emit] throws, as that of the abstract
    [Handler] does, the message of the error is written to the standard
    error stream after what [emit] had done. *)
Theorem handle_filters_by_level_and_reports_failures
    (w : World) (hid : nat) (record : LogRecord) (h : Handler) :
  handlers w !! hid = Some h ->
  let w' := fst (Handler_handle hid record w) in
  snd (Handler_handle hid record w) = Ok tt /\
  (forall lvl, h_level h = Some lvl -> level record < lvl -> w' = w) /\
  ((forall lvl, h_level h = Some lvl -> lvl <= level record) ->
   emit_log w' = emit_log w ++ [(hid, record)] /\
   match Handler_emit hid record w with
   | (w1, Ok _) => w' = w1
   | (w1, Throw e) =>
       w' = set_stderr
              (stderr w1 ++ ["Handler error: " +:+ exn_message e +:+ newline]) w1
   end).
Proof.
  intros Hh. cbv zeta. pose proof (lookup_lt_Some _ _ _ Hh) as Hlt.
  assert (Hrun : Handler_handle hid record w =
                 if Handler_filter h record
                 then try_catch (Handler_emit hid record)
                        (fun error =>
                           console_error ("Handler error: " +:+ exn_message error)) w
                 else (w, Ok tt)).
  { unfold Handler_handle. rewrite exec_bind. unfold getH at 1. rewrite Hh.
    by destruct (Handler_filter h record). }
  rewrite Hrun. clear Hrun. split; [|split].
  - destruct (Handler_filter h record); [apply guarded_emit_ok|done].
  - intros lvl Hlvl Hlo. unfold Handler_filter. rewrite Hlvl.
    by rewrite (proj2 (Z.leb_gt _ _) Hlo).
  - intros Hpass.
    assert (Hf : Handler_filter h record = true).
    { unfold Handler_filter. destruct (h_level h) as [lvl|]; [|done].
      apply Z.leb_le. by apply Hpass. }
    rewrite Hf. split.
    + pose proof (guarded_emit_emitted hid record w) as Hem.
      rewrite (em_log _ _ _ Hem). unfold live. simpl.
      by rewrite bool_decide_eq_true_2.
    + unfold try_catch. by destruct (Handler_emit hid record w) as [w1 [[]|e]].
Qed.

Lemma handle_witness :
  fst (Handler_handle 0
         (mkLogRecord "multi" LogLevel.INFO "Info message" 1793593800123 (VObj []))
         filter_world)
  = filter_world.
Proof.
  destruct (handle_filters_by_level_and_reports_failures filter_world 0
              (mkLogRecord "multi" LogLevel.INFO "Info message" 1793593800123 (VObj []))
              (mkHandler None (Some LogLevel.ERROR) (KMemory 1000 [])) eq_refl)
    as (_ & H & _).
  apply (H LogLevel.ERROR eq_refl). done.
Defined.

(** ** The buffer of a memory handler (handlers.js, [MemoryHandler]) *)

(** [MemoryHandler.clear]. *)
Definition MemoryHandler_clear (hid : nat) : M unit := set_buffer hid [].

Lemma memory_emit hid r w fmt lvl cap buf :
  handlers w !! hid = Some (mkHandler fmt lvl (KMemory cap buf)) ->
  handlers (fst (Handler_emit hid r w)) !! hid
  = Some (mkHandler fmt lvl
            (KMemory cap
               (if cap <? Z.of_nat (length (buf ++ [r]))
                then tail (buf ++ [r]) else buf ++ [r]))).
Proof.
  intros Hh. pose proof (lookup_lt_Some _ _ _ Hh) as Hlt.
  unfold Handler_emit, MemoryHandler_emit, set_buffer.
  unfold mbind, M_bind, getH, setH, modify. simpl. rewrite Hh. simpl.
  rewrite Hh. simpl. rewrite Hh. simpl.
  by rewrite list_lookup_insert_eq.
Qed.

Lemma keep_last_step {A : Type} (cap : nat) (buf : list A) (r : A) :
  (length buf <= cap)%nat ->
  (if Z.of_nat cap <? Z.of_nat (length (buf ++ [r]))
   then tail (buf ++ [r]) else buf ++ [r])
  = drop (length (buf ++ [r]) - cap) (buf ++ [r]).
Proof.
  intros Hlen. rewrite length_app. simpl.
  destruct (Z.ltb_spec (Z.of_nat cap) (Z.of_nat (length buf + 1))) as [Hlt|Hge].
  - replace (length buf + 1 - cap)%nat with 1%nat by lia.
    by destruct (buf ++ [r]).
  - by replace (length buf + 1 - cap)%nat with 0%nat by lia.
Qed.

Lemma keep_last_app {A : Type} (cap : nat) (l rs : list A) :
  drop (length (drop (length l - cap) l ++ rs) - cap) (drop (length l - cap) l ++ rs)
  = drop (length (l ++ rs) - cap) (l ++ rs).
Proof.
  destruct (decide (length l <= cap)%nat) as [Hle|Hgt].
  - replace (length l - cap)%nat with 0%nat by lia. done.
  - rewrite <- (drop_app_le l rs) by lia.
    rewrite drop_drop, length_drop, !length_app. f_equal. lia.
Qed.

(** X7. A memory handler of capacity [n >= 0] whose buffer is within its
    capacity holds, after any records are emitted to it, the last [n] of
    the records it held and received, oldest first; the earlier ones are
    dropped. After [clear] it holds none. *)
Theorem memory_handler_keeps_last_records
    (w : World) (hid : nat) (fmt : option Formatter) (lvl : option Z)
    (capacity : Z) (buffer : list LogRecord) (records : list LogRecord) :
  handlers w !! hid = Some (mkHandler fmt lvl (KMemory capacity buffer)) ->
  0 <= capacity ->
  Z.of_nat (length buffer) <= capacity ->
  let w' := emit_all hid records w in
  let all := buffer ++ records in
  getRecords w' hid = drop (length all - Z.to_nat capacity) all /\
  Z.of_nat (length (getRecords w' hid)) <= capacity /\
  getRecords (fst (MemoryHandler_clear hid w')) hid = [].
Proof.
  intros Hh Hcap Hlen. cbv zeta.
  assert (Hmain : handlers (emit_all hid records w) !! hid
                  = Some (mkHandler fmt lvl
                            (KMemory capacity
                               (drop (length (buffer ++ records) - Z.to_nat capacity)
                                  (buffer ++ records))))).
  { revert w buffer Hh Hlen. induction records as [|r rs IH]; intros w buffer Hh Hlen.
    - simpl. rewrite app_nil_r.
      by replace (length buffer - Z.to_nat capacity)%nat with 0%nat by lia.
    - simpl emit_all. pose proof (memory_emit hid r w _ _ _ _ Hh) as Hstep.
      replace capacity with (Z.of_nat (Z.to_nat capacity)) in Hstep at 2 by lia.
      rewrite keep_last_step in Hstep by lia.
      set (buf' := drop _ (buffer ++ [r])) in Hstep.
      assert (Hlen' : Z.of_nat (length buf') <= capacity).
      { unfold buf'. rewrite length_drop, length_app. simpl. lia. }
      rewrite (IH _ buf' Hstep Hlen'). do 3 f_equal.
      unfold buf'. rewrite keep_last_app. by rewrite <- app_assoc. }
  unfold getRecords. rewrite Hmain. simpl. split; [done|]. split.
  - rewrite length_drop, length_app in *. lia.
  - pose proof (lookup_lt_Some _ _ _ Hmain) as Hlt.
    unfold MemoryHandler_clear, set_buffer, mbind, M_bind, getH, setH, modify.
    simpl. rewrite Hmain. simpl. by rewrite list_lookup_insert_eq.
Qed.

Lemma memory_handler_witness :
  getRecords
    (emit_all 0 [sample_record "one"; sample_record "two"; sample_record "three"]
       (fst (new_Handler (KMemory 2 [])
               (empty_world (fun n => 1793593800123 + Z.of_nat n) (fun _ => 0)))))
    0
  = drop (length ([] ++ [sample_record "one"; sample_record "two";
                         sample_record "three"]) - Z.to_nat 2)
      ([] ++ [sample_record "one"; sample_record "two"; sample_record "three"]).
Proof.
  apply (memory_handler_keeps_last_records
           (fst (new_Handler (KMemory 2 [])
                   (empty_world (fun n => 1793593800123 + Z.of_nat n) (fun _ => 0))))
           0 None None 2 []
           [sample_record "one"; sample_record "two"; sample_record "three"]
           eq_refl); simpl; lia.
Defined.

(** ** What a file handler writes (handlers.js, [FileHandler]) *)

(** The text of the log file when the handler starts to write: nothing
    when there is no file, and nothing when a handler that has no open
    stream opens the file with the flag ['w']. *)
Definition text_before (w : World) (fs : FileState) : string :=
  match _file fs, mode fs with
  | None, ModeWrite => ""
  | _, _ => from_option content "" (files w !! filename fs)
  end.

(** An open stream of the handler is on its file, and the file exists. *)
Definition stream_on_file (w : World) (fs : FileState) : Prop :=
  forall ws, _file fs = Some ws ->
    ws_path ws = filename fs /\ is_Some (files w !! filename fs).

Lemma get_fh_run hid w fmt lvl k fs :
  handlers w !! hid = Some (mkHandler fmt lvl k) -> kind_fh k = Some fs ->
  get_fh hid w = (w, Ok fs).
Proof.
  intros Hh Hk. unfold get_fh. rewrite exec_bind. unfold getH. rewrite Hh.
  simpl. by rewrite Hk.
Qed.

Lemma set_file_run hid f w fmt lvl k fs :
  handlers w !! hid = Some (mkHandler fmt lvl k) -> kind_fh k = Some fs ->
  set_file hid f w =
  (set_handlers
     (<[hid := mkHandler fmt lvl
                 (kind_with_fh (mkFileState (filename fs) (mode fs) f) k)]>
        (handlers w)) w,
   Ok tt).
Proof.
  intros Hh Hk. unfold set_file. rewrite exec_bind. unfold getH. rewrite Hh.
  simpl. by rewrite Hk.
Qed.

Lemma set_handlers_id w hid h :
  handlers w !! hid = Some h -> set_handlers (<[hid := h]> (handlers w)) w = w.
Proof. intros Hh. rewrite list_insert_id by done. by destruct w. Qed.

Lemma Handler_format_run hid record w fmt lvl k :
  handlers w !! hid = Some (mkHandler fmt lvl k) ->
  Handler_format hid record w =
  (set_handlers
     (<[hid := mkHandler (Some (default default_formatter fmt)) lvl k]>
        (handlers w)) w,
   Formatter_format (tz w) (default default_formatter fmt) record).
Proof.
  intros Hh. unfold Handler_format. rewrite exec_bind. unfold getH. rewrite Hh.
  cbn [h_formatter h_level h_kind]. destruct fmt as [f|]; simpl.
  - by rewrite set_handlers_id.
  - reflexivity.
Qed.

Lemma kind_fh_with fs k fs' :
  kind_fh k = Some fs -> kind_fh (kind_with_fh fs' k) = Some fs'.
Proof. by destruct k. Qed.

Lemma kind_with_with fs' fs'' k :
  kind_with_fh fs'' (kind_with_fh fs' k) = kind_with_fh fs'' k.
Proof. by destruct k. Qed.

Lemma kind_with_same fs k : kind_fh k = Some fs -> kind_with_fh fs k = k.
Proof. destruct k; simpl; congruence. Qed.

(** [_openFile]: a handler without a stream gets one on its file, which is
    created, or emptied under the flag ['w']. *)
Lemma _openFile_run hid w fmt lvl k fs :
  handlers w !! hid = Some (mkHandler fmt lvl k) -> kind_fh k = Some fs ->
  stream_on_file w fs ->
  exists w1,
    _openFile hid w = (w1, Ok tt) /\
    handlers w1 =
    <[hid := mkHandler fmt lvl
               (kind_with_fh
                  (mkFileState (filename fs) (mode fs)
                     (Some (mkWriteStream (filename fs)
                              (from_option bytesWritten 0 (_file fs))))) k)]>
      (handlers w) /\
    content <$> files w1 !! filename fs = Some (text_before w fs) /\
    (forall p, p <> filename fs -> files w1 !! p = files w !! p) /\
    tz w1 = tz w /\ emit_log w1 = emit_log w /\ loggers w1 = loggers w /\
    stdout w1 = stdout w /\ stderr w1 = stderr w.
Proof.
  intros Hh Hk Hon. unfold _openFile. rewrite exec_bind.
  rewrite (get_fh_run _ _ _ _ _ _ Hh Hk).
  destruct fs as [path md fo]. unfold stream_on_file, text_before in *.
  cbn [_file mode filename from_option] in *.
  destruct fo as [ws|].
  - destruct (Hon ws eq_refl) as [Hp [f Hf]]. simpl in Hp. subst path.
    exists w. split; [done|]. rewrite Hf. simpl. split; [|done].
    destruct ws as [p b]. simpl in *.
    rewrite (kind_with_same _ _ Hk). by rewrite list_insert_id.
  - rewrite exec_bind. unfold createWriteStream. cbv iota beta.
    set (w0 := match files w !! path, md with
               | Some _, ModeAppend => w
               | _, _ => put_file path "" w
               end).
    assert (H0 : handlers w0 = handlers w /\ tz w0 = tz w /\
                 emit_log w0 = emit_log w /\ loggers w0 = loggers w /\
                 stdout w0 = stdout w /\ stderr w0 = stderr w /\
                 content <$> files w0 !! path
                 = Some (match md with
                         | ModeWrite => ""
                         | ModeAppend => from_option content "" (files w !! path)
                         end) /\
                 forall p, p <> path -> files w0 !! p = files w !! p).
    { unfold w0, put_file.
      destruct (files w !! path) as [f|] eqn:Hf, md; simpl;
        rewrite ?lookup_insert_eq, ?Hf; repeat split; try done;
        by intros p Hp; rewrite lookup_insert_ne. }
    destruct H0 as (Hh0 & Htz0 & Hel0 & Hlg0 & Hso0 & Hse0 & Hc0 & Hother0).
    assert (Hh0' : handlers w0 !! hid = Some (mkHandler fmt lvl k))
      by (by rewrite Hh0).
    rewrite (set_file_run _ _ _ _ _ _ _ Hh0' Hk). cbn [filename mode].
    eexists. split; [reflexivity|]. simpl. rewrite Hh0.
    split; [done|]. split; [by destruct md|]. done.
Qed.

(** What one [emit] adds to the file: the rendered line, or nothing when
    the formatter throws. *)
Definition written (r : result string) : string :=
  match r with
  | Ok line => line +:+ newline
  | Throw _ => ""
  end.

(** One [FileHandler.emit]: the file is opened if it was not, the handler
    keeps the formatter, and the rendered line is appended; the stream
    stays open and has counted the bytes. When the formatter throws,
    [emit] throws after the file was opened. *)
Lemma FileHandler_emit_run hid record w fmt lvl k fs :
  handlers w !! hid = Some (mkHandler fmt lvl k) ->
  kind_fh k = Some fs ->
  stream_on_file w fs ->
  let r := Formatter_format (tz w) (default default_formatter fmt) record in
  exists w',
    FileHandler_emit hid record w
    = (w', match r with Ok _ => Ok tt | Throw e => Throw e end) /\
    content <$> files w' !! filename fs = Some (text_before w fs +:+ written r) /\
    (forall p, p <> filename fs -> files w' !! p = files w !! p) /\
    handlers w' =
    <[hid := mkHandler (Some (default default_formatter fmt)) lvl
               (kind_with_fh
                  (mkFileState (filename fs) (mode fs)
                     (Some (mkWriteStream (filename fs)
                              (from_option bytesWritten 0 (_file fs)
                               + Z.of_nat (String.length (written r))))))
                  k)]> (handlers w) /\
    tz w' = tz w /\ emit_log w' = emit_log w /\ loggers w' = loggers w /\
    stdout w' = stdout w /\ stderr w' = stderr w.
Proof.
  intros Hh Hk Hon r. pose proof (lookup_lt_Some _ _ _ Hh) as Hlt.
  destruct (_openFile_run _ _ _ _ _ _ Hh Hk Hon)
    as (w1 & Hopen & Hh1 & Hc1 & Hother1 & Htz1 & Hel1 & Hlg1 & Hso1 & Hse1).
  unfold FileHandler_emit. rewrite exec_bind, Hopen.
  set (fs1 := mkFileState (filename fs) (mode fs)
                (Some (mkWriteStream (filename fs)
                         (from_option bytesWritten 0 (_file fs))))) in *.
  assert (Hh1' : handlers w1 !! hid = Some (mkHandler fmt lvl (kind_with_fh fs1 k)))
    by (rewrite Hh1; by apply list_lookup_insert_eq).
  rewrite exec_bind, (Handler_format_run _ _ _ _ _ _ Hh1'), Htz1. fold r.
  set (w2 := set_handlers _ w1).
  assert (Hh2 : handlers w2 !! hid
                = Some (mkHandler (Some (default default_formatter fmt)) lvl
                          (kind_with_fh fs1 k))).
  { unfold w2. simpl. apply list_lookup_insert_eq. by rewrite Hh1, length_insert. }
  destruct r as [line|e]; cbn [written].
  - rewrite exec_bind, (get_fh_run _ _ _ _ _ _ Hh2 (kind_fh_with _ _ _ Hk)).
    cbn [fs1 _file]. rewrite exec_bind. unfold WriteStream_write. cbv iota beta.
    cbn [ws_path bytesWritten].
    destruct (files w1 !! filename fs) as [f1|] eqn:Hf1; [|done]. simpl in Hc1.
    change (files w2) with (files w1). rewrite Hf1.
    set (w3 := put_file _ _ w2).
    assert (Hh3 : handlers w3 !! hid
                  = Some (mkHandler (Some (default default_formatter fmt)) lvl
                            (kind_with_fh fs1 k))) by done.
    rewrite (set_file_run _ _ _ _ _ _ _ Hh3 (kind_fh_with _ _ _ Hk)).
    eexists. split; [reflexivity|]. cbn [fs1 filename mode]. simpl.
    rewrite lookup_insert_eq. simpl.
    split; [by injection Hc1 as Hc1; rewrite Hc1|].
    split; [by intros p Hp; rewrite lookup_insert_ne; auto|].
    rewrite Hh1, !list_insert_insert_eq, kind_with_with. done.
  - exists w2. split; [done|]. simpl. rewrite string_app_nil_r, Z.add_0_r.
    split; [done|]. split; [done|].
    rewrite Hh1, !list_insert_insert_eq. done.
Qed.

Definition concat_lines (lines : list string) : string :=
  foldr String.append "" lines.

Lemma Handler_emit_file hid r w fmt lvl fs :
  handlers w !! hid = Some (mkHandler fmt lvl (KFile fs)) ->
  Handler_emit hid r w
  = FileHandler_emit hid r (set_emit_log (emit_log w ++ [(hid, r)]) w).
Proof.
  intros Hh. unfold Handler_emit. rewrite exec_bind. unfold getH at 1.
  by rewrite Hh.
Qed.

(** The first [emit] of a file handler, in the terms of [emit_all]. *)
Lemma file_emit_first hid r w fmt lvl fs :
  handlers w !! hid = Some (mkHandler fmt lvl (KFile fs)) ->
  stream_on_file w fs ->
  let f := default default_formatter fmt in
  let out := written (Formatter_format (tz w) f r) in
  exists w' file',
    fst (Handler_emit hid r w) = w' /\
    files w' !! filename fs = Some file' /\
    content file' = text_before w fs +:+ out /\
    (forall p, p <> filename fs -> files w' !! p = files w !! p) /\
    tz w' = tz w /\
    handlers w' !! hid
    = Some (mkHandler (Some f) lvl
              (KFile (mkFileState (filename fs) (mode fs)
                        (Some (mkWriteStream (filename fs)
                                 (from_option bytesWritten 0 (_file fs)
                                  + Z.of_nat (String.length out))))))).
Proof.
  intros Hh Hon. cbv zeta. rewrite (Handler_emit_file _ _ _ _ _ _ Hh).
  set (w0 := set_emit_log _ w).
  assert (Hh0 : handlers w0 !! hid = Some (mkHandler fmt lvl (KFile fs))) by done.
  destruct (FileHandler_emit_run hid r w0 _ _ _ _ Hh0 eq_refl Hon)
    as (w' & Hrun & Hc & Hother & Hh' & Htz & _).
  rewrite Hrun. cbn [fst].
  change (tz w0) with (tz w) in *. change (files w0) with (files w) in *.
  change (text_before w0 fs) with (text_before w fs) in *.
  destruct (files w' !! filename fs) as [file'|] eqn:Hf'; [|done].
  exists w', file'. split; [done|]. split; [done|].
  split; [by injection Hc|]. split; [done|]. split; [done|].
  rewrite Hh'. apply list_lookup_insert_eq. by eapply lookup_lt_Some.
Qed.

Lemma file_emit_all hid f lvl path md ws file rs w :
  handlers w !! hid
  = Some (mkHandler (Some f) lvl (KFile (mkFileState path md (Some ws)))) ->
  ws_path ws = path ->
  files w !! path = Some file ->
  content <$> files (emit_all hid rs w) !! path
  = Some (content file +:+ concat_lines (rendered (tz w) f rs)) /\
  forall p, p <> path -> files (emit_all hid rs w) !! p = files w !! p.
Proof.
  revert w ws file. induction rs as [|r rs IH]; intros w ws file Hh Hws Hf.
  { simpl. rewrite Hf. simpl. by rewrite string_app_nil_r. }
  simpl emit_all. rewrite rendered_cons.
  assert (Hon : stream_on_file w (mkFileState path md (Some ws))).
  { intros ws' [= <-]. split; [done|]. by exists file. }
  destruct (file_emit_first hid r w _ _ _ Hh Hon)
    as (w' & file' & -> & Hf' & Hc & Hother & Htz & Hh').
  cbn [filename mode _file default from_option] in *.
  unfold text_before in Hc. cbn [_file mode filename] in Hc.
  rewrite Hf in Hc. simpl in Hc.
  destruct (IH _ _ file' Hh' eq_refl Hf') as [IH1 IH2].
  rewrite Htz in IH1. split.
  - rewrite IH1. f_equal. rewrite Hc.
    destruct (Formatter_format (tz w) f r) as [line|e]; simpl.
    + by rewrite <- !string_app_assoc.
    + by rewrite string_app_nil_r.
  - intros p Hp. rewrite IH2 by done. by apply Hother.
Qed.

(** X8. A file handler writes each record it is given as one line at the
    end of its file, in the order of the calls: after any records are
    emitted, the file holds what it held before, followed by the lines of
    the records the formatter renders, each with a newline, and no other
    file has changed. A handler that has no open stream first opens the
    file, which empties it when the handler was made with the flag ['w'];
    so after [close] such a handler starts the file afresh. *)
Theorem file_handler_appends_lines_in_order
    (w : World) (hid : nat) (fmt : option Formatter) (lvl : option Z)
    (fs : FileState) (r : LogRecord) (rs : list LogRecord) :
  handlers w !! hid = Some (mkHandler fmt lvl (KFile fs)) ->
  stream_on_file w fs ->
  let w' := emit_all hid (r :: rs) w in
  content <$> files w' !! filename fs
  = Some (text_before w fs +:+
          concat_lines (rendered (tz w) (default default_formatter fmt) (r :: rs))) /\
  (forall p, p <> filename fs -> files w' !! p = files w !! p) /\
  (forall old, files w !! filename fs = Some old ->
     text_before w fs = match _file fs, mode fs with
                        | None, ModeWrite => ""
                        | _, _ => content old
                        end).
Proof.
  intros Hh Hon. cbv zeta. simpl emit_all. rewrite rendered_cons.
  destruct (file_emit_first hid r w _ _ _ Hh Hon)
    as (w' & file' & -> & Hf' & Hc & Hother & Htz & Hh').
  destruct (file_emit_all hid _ _ _ _ _ file' rs w' Hh' eq_refl Hf') as [IH1 IH2].
  rewrite Htz in IH1. split; [|split].
  - rewrite IH1. f_equal. rewrite Hc.
    destruct (Formatter_format (tz w) (default default_formatter fmt) r)
      as [line|e]; simpl.
    + by rewrite <- !string_app_assoc.
    + by rewrite string_app_nil_r.
  - intros p Hp. rewrite IH2 by done. by apply Hother.
  - intros old Hold. unfold text_before. rewrite Hold.
    by destruct (_file fs), (mode fs).
Qed.

Lemma file_handler_appends_witness :
  content <$>
    files (emit_all 0 [sample_record "one"; sample_record "two"]
             (fst (new_Handler (KFile (mkFileState "app.log" ModeAppend None))
                     (empty_world (fun n => 1793593800123 + Z.of_nat n)
                        (fun _ => 0))))) !! "app.log"
  = Some ("" +:+
          concat_lines
            (rendered (fun _ => 0) default_formatter
               [sample_record "one"; sample_record "two"])).
Proof.
  refine (proj1 (file_handler_appends_lines_in_order
           (fst (new_Handler (KFile (mkFileState "app.log" ModeAppend None))
                   (empty_world (fun n => 1793593800123 + Z.of_nat n) (fun _ => 0))))
           0 None None (mkFileState "app.log" ModeAppend None)
           (sample_record "one") [sample_record "two"] eq_refl _)).
  intros ws Hws. discriminate.
Defined.

(** ** The JSON line holds no control character *)

(** Every character of [s] is at or above the space: none is a newline or
    another control character. *)
Definition printable (s : string) : Prop :=
  Forall (fun c => (32 <= N_of_ascii c)%N) (list_ascii_of_string s).

Lemma printable_app s1 s2 : printable s1 -> printable s2 -> printable (s1 +:+ s2).
Proof.
  unfold printable. intros H1 H2. induction s1 as [|c s1 IH]; [done|].
  change (list_ascii_of_string (String c s1 +:+ s2))
    with (c :: list_ascii_of_string (s1 +:+ s2)).
  simpl in H1. inversion H1; subst. constructor; auto.
Qed.

Lemma printable_cons c s :
  (32 <= N_of_ascii c)%N -> printable s -> printable (String c s).
Proof. intros Hc Hs. by constructor. Qed.

Lemma hex_digit_printable n : (32 <= N_of_ascii (hex_digit n))%N.
Proof.
  unfold hex_digit. generalize (N.to_nat n). intros k.
  do 16 (destruct k as [|k]; [vm_compute; discriminate|]).
  simpl. by destruct k; vm_compute.
Qed.

Lemma json_escape_char_printable c : printable (json_escape_char c).
Proof.
  unfold json_escape_char.
  repeat case_match; try (by repeat constructor; vm_compute).
  - apply printable_app; [by repeat constructor; vm_compute|].
    repeat (apply printable_cons; [apply hex_digit_printable|]). constructor.
  - apply printable_cons; [|constructor].
    match goal with H : (_ <? 32)%N = false |- _ => apply N.ltb_ge in H end. done.
Qed.

Lemma json_escape_printable s : printable (json_escape s).
Proof.
  induction s as [|c s IH]; [constructor|].
  simpl. apply printable_app; [apply json_escape_char_printable | done].
Qed.

Lemma json_quote_printable s : printable (json_quote s).
Proof.
  unfold json_quote. apply printable_cons; [by vm_compute|].
  apply printable_app; [apply json_escape_printable|by repeat constructor; vm_compute].
Qed.

Lemma pretty_N_char_printable d : (32 <= N_of_ascii (pretty_N_char d))%N.
Proof. unfold pretty_N_char. by repeat case_match; vm_compute. Qed.

Lemma pretty_N_go_printable n s : printable s -> printable (pretty_N_go n s).
Proof.
  revert s. induction (N.lt_wf_0 n) as [n _ IH]; intros s Hs.
  destruct (decide (n = 0%N)) as [->|Hn]; [by rewrite pretty_N_go_0|].
  rewrite pretty_N_go_step by lia. apply IH; [apply N.div_lt; lia|].
  apply printable_cons; [apply pretty_N_char_printable | done].
Qed.

Lemma pretty_Z_printable (z : Z) : printable (pretty z).
Proof.
  destruct z as [|p|p].
  - by repeat constructor; vm_compute.
  - change (pretty (Z.pos p)) with (pretty_N_go (N.pos p) "").
    apply pretty_N_go_printable. constructor.
  - change (pretty (Z.neg p)) with (String "-" (pretty_N_go (N.pos p) "")).
    apply printable_cons; [by vm_compute|]. apply pretty_N_go_printable. constructor.
Qed.

Lemma repeat_char_printable c k :
  (32 <= N_of_ascii c)%N -> printable (repeat_char c k).
Proof. intros Hc. induction k as [|k IH]; [constructor|by apply printable_cons]. Qed.

Lemma take_string_printable k s : printable s -> printable (take_string k s).
Proof.
  revert s. induction k as [|k IH]; intros [|c s] Hs; try constructor.
  - by inversion Hs.
  - apply IH. by inversion Hs.
Qed.

Lemma drop_string_printable k s : printable s -> printable (drop_string k s).
Proof.
  revert s. induction k as [|k IH]; intros [|c s] Hs; try done.
  apply IH. by inversion Hs.
Qed.

Lemma decimal_text_printable s n : printable s -> printable (decimal_text s n).
Proof.
  intros Hs. unfold decimal_text. cbv zeta.
  destruct (_ && _).
  { apply printable_app; [done|]. by apply repeat_char_printable. }
  destruct (_ && _).
  { apply printable_app; [by apply take_string_printable|].
    apply printable_cons; [by vm_compute|]. by apply drop_string_printable. }
  destruct (_ && _).
  { do 2 (apply printable_cons; [by vm_compute|]).
    apply printable_app; [by apply repeat_char_printable|done]. }
  apply printable_app.
  - destruct s as [|d [|d' rest]]; [done..|].
    inversion Hs; subst. apply printable_cons; [done|].
    by apply printable_cons; [by vm_compute|].
  - apply printable_cons; [by vm_compute|]. apply printable_app.
    + by destruct (0 <? n - 1); repeat constructor; vm_compute.
    + apply pretty_Z_printable.
Qed.

Lemma Number_toString_printable x : printable (Number_toString x).
Proof.
  destruct x as [|[]|b|b m n]; try (by repeat constructor; vm_compute).
  unfold Number_toString. apply printable_app.
  - by destruct b; repeat constructor; vm_compute.
  - apply decimal_text_printable, pretty_Z_printable.
Qed.

Lemma join_printable sep items :
  printable sep -> Forall printable items -> printable (join sep items).
Proof.
  intros Hsep Hitems. induction Hitems as [|x rest Hx Hrest IH]; [constructor|].
  destruct rest as [|y rest']; [done|].
  change (join sep (x :: y :: rest')) with (x +:+ sep +:+ join sep (y :: rest')).
  by repeat apply printable_app.
Qed.

(** Induction on a value and, for an object, on the values of its
    fields. *)
Lemma value_fields_ind (P : value -> Prop) :
  P VUndef -> P VNull -> (forall b, P (VBool b)) -> (forall n, P (VNum n)) ->
  (forall s, P (VStr s)) ->
  (forall fields, Forall (fun kv => P (snd kv)) fields -> P (VObj fields)) ->
  forall v, P v.
Proof.
  intros Hu Hn Hb Hz Hs Ho. fix IH 1.
  intros [| |b|n|s|fields]; [exact Hu|exact Hn|apply Hb|apply Hz|apply Hs|].
  apply Ho. induction fields as [|[k v] fields IHf]; constructor; [apply IH | exact IHf].
Qed.

Lemma JSON_stringify_printable v : printable (JSON_stringify v).
Proof.
  induction v as [| |b|n|s|fields IH] using value_fields_ind.
  - by repeat constructor; vm_compute.
  - by repeat constructor; vm_compute.
  - by destruct b; repeat constructor; vm_compute.
  - destruct n as [|b|b|b m n]; try (by repeat constructor; vm_compute).
    apply (Number_toString_printable (Decimal b m n)).
  - apply json_quote_printable.
  - simpl. apply printable_cons; [by vm_compute|].
    apply printable_app; [|by repeat constructor; vm_compute].
    apply join_printable; [by repeat constructor; vm_compute|].
    induction IH as [|[k v] fields Hv Hrest IHf]; [constructor|].
    simpl in Hv.
    assert (Hm : printable (json_quote k +:+ ":" +:+ JSON_stringify v)).
    { apply printable_app; [apply json_quote_printable|].
      apply printable_cons; [by vm_compute | done]. }
    destruct v; try (constructor; [exact Hm | exact IHf]). exact IHf.
Qed.

(** X9. The line the JSON formatter renders holds no newline and no other
    control character, whatever the message, the logger name and the
    context of the record hold: a record is always one line. *)
Theorem json_line_has_no_control_character
    (includeTimestamp includeName : bool) (record : LogRecord) (line : string) :
  JSONFormatter_format includeTimestamp includeName record = Ok line ->
  printable line /\
  ~ In (ascii_of_N 10) (list_ascii_of_string line).
Proof.
  unfold JSONFormatter_format. intros H.
  destruct (JSONFormatter_data includeTimestamp includeName record) as [data|e];
    [|discriminate].
  injection H as <-.
  pose proof (JSON_stringify_printable (VObj data)) as Hp. split; [exact Hp|].
  intros Hin. apply list_elem_of_In in Hin.
  pose proof (proj1 (Forall_forall _ _) Hp _ Hin) as Hle.
  apply N.leb_le in Hle. vm_compute in Hle. discriminate.
Qed.

Lemma json_line_has_no_control_character_witness :
  exists line,
    JSONFormatter_format true true
      (mkLogRecord "api" LogLevel.ERROR
         ("first" +:+ newline +:+ "second") 1793593800123
         (VObj [("detail", VStr newline)])) = Ok line /\
    ~ In (ascii_of_N 10) (list_ascii_of_string line).
Proof.
  eexists. split; [reflexivity|].
  exact (proj2 (json_line_has_no_control_character true true
                  (mkLogRecord "api" LogLevel.ERROR
                     ("first" +:+ newline +:+ "second") 1793593800123
                     (VObj [("detail", VStr newline)])) _ eq_refl)).
Defined.

(** ** The coloured formatter (formatters.js, [ColoredFormatter]) *)

(** An ANSI escape sequence. *)
Definition esc (code : string) : string := String (ascii_of_N 27) code.

(** [ColoredFormatter.COLORS]. *)
Definition COLORS : list (string * string) :=
  [("DEBUG", esc "[36m"); ("INFO", esc "[32m"); ("WARNING", esc "[33m");
   ("ERROR", esc "[31m"); ("CRITICAL", esc "[35m"); ("RESET", esc "[0m")].

(** [this.COLORS[k] || '']. *)
Definition COLORS_get (k : string) : string :=
  match List.find (fun kv => String.eqb (fst kv) k) COLORS with
  | Some kv => snd kv
  | None => ""
  end.

(** [ColoredFormatter.format]; its [_formatDate] is that of
    [SimpleFormatter]. *)
Definition ColoredFormatter_format (useColors : bool) (tz : TimeZone)
    (record : LogRecord) : result string :=
  let timestamp := _formatDate tz (timestamp record) in
  let color := COLORS_get (getLogLevelName (level record)) in
  let reset := COLORS_get "RESET" in
  let level := padEnd (getLogLevelName (level record)) 8 in
  let name := padEnd (name record) 15 in
  let formatted :=
    if useColors then
      "[" +:+ timestamp +:+ "] " +:+ color +:+ level +:+ reset +:+ " " +:+
      name +:+ ": " +:+ message record
    else
      "[" +:+ timestamp +:+ "] " +:+ level +:+ " " +:+ name +:+ ": " +:+
      message record in
  match get_prop (extra record) "exc_text" with
  | Throw e => Throw e
  | Ok exc_text =>
      let formatted :=
        if truthy exc_text then
          if useColors then
            formatted +:+
            String (ascii_of_N 10)
              (COLORS_get "ERROR" +:+ toString exc_text +:+ COLORS_get "RESET")
          else formatted +:+ String (ascii_of_N 10) (toString exc_text)
        else formatted in
      let extraFields :=
        join " "
          (List.map (fun kv => fst kv +:+ "=" +:+ toString (snd kv))
             (extra_entries (extra record))) in
      Ok (if negb (String.eqb extraFields "") then
            if useColors then
              formatted +:+ " | " +:+ COLORS_get "DEBUG" +:+ extraFields +:+
              COLORS_get "RESET"
            else formatted +:+ " | " +:+ extraFields
          else formatted)
  end.

(** Remove the escape sequences from a text: each runs from an escape
    character to the next [m]. [inside] tells whether the scan is within
    one. *)
Fixpoint strip_colors (inside : bool) (s : string) : string :=
  match s with
  | EmptyString => ""
  | String c rest =>
      if inside then strip_colors (negb (Ascii.eqb c "m")) rest
      else if Ascii.eqb c (ascii_of_N 27) then strip_colors true rest
      else String c (strip_colors false rest)
  end.

(** No character of [s] is the escape character. *)
Definition esc_free (s : string) : Prop :=
  Forall (fun c => c <> ascii_of_N 27) (list_ascii_of_string s).

Lemma esc_free_app s1 s2 : esc_free s1 -> esc_free s2 -> esc_free (s1 +:+ s2).
Proof.
  unfold esc_free. intros H1 H2. induction s1 as [|c s1 IH]; [done|].
  change (list_ascii_of_string (String c s1 +:+ s2))
    with (c :: list_ascii_of_string (s1 +:+ s2)).
  simpl in H1. inversion H1; subst. constructor; auto.
Qed.

Lemma printable_esc_free s : printable s -> esc_free s.
Proof.
  unfold printable, esc_free. intros H. eapply Forall_impl; [exact H|].
  intros c Hc ->. vm_compute in Hc. by apply Hc.
Qed.

Lemma strip_colors_app s t :
  esc_free s -> strip_colors false (s +:+ t) = s +:+ strip_colors false t.
Proof.
  unfold esc_free. induction s as [|c s IH]; intros Hs; [done|].
  simpl in Hs. inversion Hs as [|? ? Hc Hs']; subst.
  change (String c s +:+ t) with (String c (s +:+ t)).
  change (String c s +:+ strip_colors false t)
    with (String c (s +:+ strip_colors false t)).
  simpl. rewrite (proj2 (Ascii.eqb_neq _ _) Hc). by rewrite IH.
Qed.

Lemma strip_colors_free s : esc_free s -> strip_colors false s = s.
Proof.
  intros Hs. rewrite <- (string_app_nil_r s) at 1.
  rewrite strip_colors_app by done. simpl. apply string_app_nil_r.
Qed.

Lemma strip_colors_code k t :
  strip_colors false (COLORS_get k +:+ t) = strip_colors false t.
Proof.
  unfold COLORS_get, COLORS. cbn [List.find fst snd].
  repeat (destruct (String.eqb _ k); [reflexivity|]). reflexivity.
Qed.

Lemma strip_colors_nl t :
  strip_colors false (String (ascii_of_N 10) t)
  = String (ascii_of_N 10) (strip_colors false t).
Proof. reflexivity. Qed.

Lemma string_nl_app s t :
  String (ascii_of_N 10) s +:+ t = String (ascii_of_N 10) (s +:+ t).
Proof. reflexivity. Qed.

Lemma strip_colors_code_end k : strip_colors false (COLORS_get k) = "".
Proof.
  rewrite <- (string_app_nil_r (COLORS_get k)). by rewrite strip_colors_code.
Qed.

Lemma repeat_char_esc_free c n : c <> ascii_of_N 27 -> esc_free (repeat_char c n).
Proof. intros Hc. induction n as [|n IH]; [constructor|]. by constructor. Qed.

Lemma pad_num_printable n width : printable (pad_num n width).
Proof.
  unfold pad_num, padStart. apply printable_app; [|apply pretty_Z_printable].
  apply repeat_char_printable. by vm_compute.
Qed.

Lemma _formatDate_printable tz d : printable (_formatDate tz d).
Proof.
  unfold _formatDate. cbv zeta.
  repeat first
    [ apply pad_num_printable
    | apply pretty_Z_printable
    | apply printable_app
    | by repeat constructor; vm_compute ].
Qed.

Lemma getLogLevelName_printable lvl : printable (getLogLevelName lvl).
Proof.
  unfold getLogLevelName, LogLevel.keys. cbn [List.find fst snd].
  repeat (destruct (_ =? lvl); [by repeat constructor; vm_compute|]).
  by repeat constructor; vm_compute.
Qed.

Lemma padEnd_esc_free s n : esc_free s -> esc_free (padEnd s n).
Proof.
  intros Hs. unfold padEnd. apply esc_free_app; [done|].
  apply repeat_char_esc_free. by vm_compute.
Qed.

Lemma join_esc_free sep items :
  esc_free sep -> Forall esc_free items -> esc_free (join sep items).
Proof.
  intros Hsep Hitems. induction Hitems as [|x rest Hx Hrest IH]; [constructor|].
  destruct rest as [|y rest']; [done|].
  change (join sep (x :: y :: rest')) with (x +:+ sep +:+ join sep (y :: rest')).
  by repeat apply esc_free_app.
Qed.

(** X10. Without colours the coloured formatter renders a record exactly
    as the simple formatter does. With colours it renders the same text
    with escape sequences added: when the message, the logger name, the
    trace and the context hold no escape character, removing the escape
    sequences from the coloured line gives the line of the simple
    formatter; and it throws on the records the simple formatter throws
    on. *)
Theorem colored_line_is_simple_line_with_escape_sequences
    (tz : TimeZone) (record : LogRecord) :
  ColoredFormatter_format false tz record = SimpleFormatter_format tz record /\
  (esc_free (message record) ->
   esc_free (name record) ->
   (forall v, get_prop (extra record) "exc_text" = Ok v -> esc_free (toString v)) ->
   Forall (fun kv => esc_free (fst kv) /\ esc_free (toString (snd kv)))
     (extra_entries (extra record)) ->
   match ColoredFormatter_format true tz record, SimpleFormatter_format tz record with
   | Ok colored, Ok plain => strip_colors false colored = plain
   | Throw e, Throw e' => e = e'
   | _, _ => False
   end).
Proof.
  split.
  { unfold ColoredFormatter_format, SimpleFormatter_format. cbv zeta.
    destruct (get_prop (extra record) "exc_text") as [exc_text|e]; [|done].
    by destruct (truthy exc_text), (negb _). }
  intros Hmsg Hname Hexc Hctx.
  unfold ColoredFormatter_format, SimpleFormatter_format. cbv zeta.
  destruct (get_prop (extra record) "exc_text") as [exc_text|e]; [|done].
  specialize (Hexc exc_text eq_refl).
  set (fields := join " " _).
  assert (Hfields : esc_free fields).
  { apply join_esc_free; [by repeat constructor; vm_compute|].
    apply Forall_forall. intros x Hx.
    apply list_elem_of_In, in_map_iff in Hx as ([k v] & <- & Hin).
    apply list_elem_of_In in Hin.
    destruct (proj1 (Forall_forall _ _) Hctx _ Hin) as [Hk Hv].
    apply esc_free_app; [done|]. apply esc_free_app; [|done].
    by repeat constructor; vm_compute. }
  assert (Hts : esc_free (_formatDate tz (timestamp record)))
    by apply printable_esc_free, _formatDate_printable.
  assert (Hlvl : esc_free (padEnd (getLogLevelName (level record)) 8))
    by apply padEnd_esc_free, printable_esc_free, getLogLevelName_printable.
  assert (Hnm : esc_free (padEnd (name record) 15)) by by apply padEnd_esc_free.
  assert (Hlit : forall s, printable s -> esc_free s) by apply printable_esc_free.
  destruct (truthy exc_text), (negb (String.eqb fields ""));
    rewrite ?string_app_assoc, ?string_nl_app, ?string_app_assoc;
    repeat first
      [ rewrite strip_colors_code
      | rewrite strip_colors_code_end
      | rewrite strip_colors_nl
      | rewrite strip_colors_app by
          first [ assumption | by apply Hlit; repeat constructor; vm_compute ]
      | rewrite strip_colors_free by assumption ];
    rewrite ?string_app_nil_r; reflexivity.
Qed.

Lemma colored_line_witness :
  match ColoredFormatter_format true (fun _ => 0)
          (mkLogRecord "app" LogLevel.WARNING "disk almost full" 1793593800123
             (VObj [("free", VNum 12)])),
        SimpleFormatter_format (fun _ => 0)
          (mkLogRecord "app" LogLevel.WARNING "disk almost full" 1793593800123
             (VObj [("free", VNum 12)]))
  with
  | Ok colored, Ok plain => strip_colors false colored = plain
  | Throw e, Throw e' => e = e'
  | _, _ => False
  end.
Proof.
  apply (proj2 (colored_line_is_simple_line_with_escape_sequences (fun _ => 0)
                  (mkLogRecord "app" LogLevel.WARNING "disk almost full"
                     1793593800123 (VObj [("free", VNum 12)])))).
  - apply printable_esc_free. repeat constructor; by vm_compute.
  - apply printable_esc_free. repeat constructor; by vm_compute.
  - intros v [= <-]. apply printable_esc_free. repeat constructor; by vm_compute.
  - change (extra_entries _) with [("free", VNum 12)].
    constructor; [|constructor].
    split; apply printable_esc_free; repeat constructor; by vm_compute.
Defined.

(** ** The names of the levels (Logger.js, [getLogLevelName]) *)

(** X11. [getLogLevelName] gives the five levels their names, which are
    distinct, and from which [LogLevel] gives the level back; every other
    number is named [UNKNOWN], which is the name of no level. *)
Theorem getLogLevelName_names_five_levels (lvl : Z) :
  (0 <= lvl <= 4 ->
   level_of_name (getLogLevelName lvl) = Some lvl /\
   getLogLevelName lvl <> "UNKNOWN") /\
  (~ 0 <= lvl <= 4 -> getLogLevelName lvl = "UNKNOWN") /\
  level_of_name "UNKNOWN" = None /\
  (String.length (getLogLevelName lvl) <= 8)%nat.
Proof.
  split; [|split; [|split]].
  - intros H. assert (Hc : lvl = 0 \/ lvl = 1 \/ lvl = 2 \/ lvl = 3 \/ lvl = 4) by lia.
    destruct_or!; subst; by vm_compute.
  - intros H. unfold getLogLevelName, LogLevel.keys. cbn [List.find fst snd].
    unfold LogLevel.DEBUG, LogLevel.INFO, LogLevel.WARNING, LogLevel.ERROR,
      LogLevel.CRITICAL.
    repeat match goal with
           | |- context [?a =? lvl] => destruct (Z.eqb_spec a lvl); [lia|]
           end.
    done.
  - reflexivity.
  - unfold getLogLevelName, LogLevel.keys. cbn [List.find fst snd].
    repeat (destruct (_ =? lvl); [vm_compute; lia|]). vm_compute. lia.
Qed.

(** ** The level named in the options (index.js, [createLogger];
    config.js, [quickLogger]) *)

(** [c.toUpperCase()] for a character of a byte string: the letters [a]
    to [z] have a capital; the other characters are kept. *)
Definition toUpperCase_char (c : ascii) : ascii :=
  let n := N_of_ascii c in
  if ((97 <=? n) && (n <=? 122))%N then ascii_of_N (n - 32) else c.

Fixpoint toUpperCase (s : string) : string :=
  match s with
  | EmptyString => ""
  | String c rest => String (toUpperCase_char c) (toUpperCase rest)
  end.

(** The [levelMap] of [createLogger] and [quickLogger]. *)
Definition levelMap : list (string * Z) :=
  [("DEBUG", LogLevel.DEBUG); ("INFO", LogLevel.INFO);
   ("WARNING", LogLevel.WARNING); ("ERROR", LogLevel.ERROR);
   ("CRITICAL", LogLevel.CRITICAL)].

(** [x || d] for [x] a number or [undefined]: zero and [undefined] are
    falsy. *)
Definition or_default (x : option Z) (d : Z) : Z :=
  match x with
  | Some n => if n =? 0 then d else n
  | None => d
  end.

(** [levelMap[level.toUpperCase()] || LogLevel.INFO]: the level
    [createLogger] passes to [setupBasicLogger], and [quickLogger]
    likewise. *)
Definition numericLevel (level : string) : Z :=
  or_default
    (snd <$> List.find (fun kv => String.eqb (fst kv) (toUpperCase level)) levelMap)
    LogLevel.INFO.

(** X12. The level that [createLogger] and [quickLogger] compute from the
    name in the options is never DEBUG: DEBUG is zero, which [||] takes
    for a missing entry, so the name [DEBUG], in any case of its letters,
    gives INFO, as every unknown name does. The other four names give
    their levels. A logger set to the computed level therefore drops
    every debug call. *)
Theorem level_from_options_is_never_debug
    (levelName : string) (fuel lid : nat) (msg : string) (args : list value)
    (w : World) (this : Logger) :
  loggers w !! lid = Some this ->
  LogLevel.INFO <= numericLevel levelName <= LogLevel.CRITICAL /\
  numericLevel "DEBUG" = LogLevel.INFO /\
  numericLevel "debug" = LogLevel.INFO /\
  numericLevel "INFO" = LogLevel.INFO /\
  numericLevel "warning" = LogLevel.WARNING /\
  numericLevel "Error" = LogLevel.ERROR /\
  numericLevel "CRITICAL" = LogLevel.CRITICAL /\
  numericLevel "verbose" = LogLevel.INFO /\
  let w1 := fst (Logger_setLevel lid (numericLevel levelName) w) in
  debug (S fuel) lid msg args w1 = (w1, Ok tt).
Proof.
  intros Hl.
  assert (Hrange : LogLevel.INFO <= numericLevel levelName <= LogLevel.CRITICAL).
  { unfold numericLevel, levelMap. cbn [List.find fst snd].
    repeat (destruct (String.eqb _ (toUpperCase levelName)); [by vm_compute|]).
    by vm_compute. }
  split; [exact Hrange|]. do 7 (split; [reflexivity|]). cbv zeta.
  pose proof (lookup_lt_Some _ _ _ Hl) as Hlt.
  unfold debug.
  eapply (_log_dropped fuel lid LogLevel.DEBUG msg args _
            (mkLogger (lg_name this) (numericLevel levelName) (lg_handlers this)
               (lg_propagate this) (lg_parent this) (lg_children this))).
  - unfold Logger_setLevel, mbind, M_bind, getL, setL, modify. rewrite Hl. simpl.
    by apply list_lookup_insert_eq.
  - simpl. unfold LogLevel.INFO, LogLevel.DEBUG in *. lia.
Qed.

Lemma level_from_options_witness :
  let w1 := fst (Logger_setLevel 0 (numericLevel "DEBUG") family_world) in
  debug 1 0 "Debug message" [] w1 = (w1, Ok tt).
Proof.
  apply (level_from_options_is_never_debug "DEBUG" 0 0 "Debug message" []
           family_world (mkLogger "app" LogLevel.INFO [0%nat] true None ∅) eq_refl).
Defined.

(** ** The columns of the plain line (formatters.js, [SimpleFormatter]) *)

Lemma padStart_length s n c :
  String.length (padStart s n c) = Nat.max n (String.length s).
Proof. unfold padStart. rewrite string_length_app, repeat_char_length. lia. Qed.

Lemma padEnd_length s n : String.length (padEnd s n) = Nat.max n (String.length s).
Proof. unfold padEnd. rewrite string_length_app, repeat_char_length. lia. Qed.

(** A number of [k + 1] digits is written with [k + 1] characters. *)
Lemma pretty_N_go_length (k : nat) (n : N) (s : string) :
  (10 ^ N.of_nat k <= n < 10 ^ N.of_nat (S k))%N ->
  String.length (pretty_N_go n s) = (S k + String.length s)%nat.
Proof.
  revert n s. induction k as [|k IH]; intros n s Hn.
  - change (10 ^ N.of_nat 0)%N with 1%N in Hn.
    change (10 ^ N.of_nat 1)%N with 10%N in Hn.
    rewrite pretty_N_go_step by lia.
    rewrite N.div_small by lia. by rewrite pretty_N_go_0.
  - rewrite pretty_N_go_step.
    2: { pose proof (N.pow_nonzero 10 (N.of_nat (S k))). lia. }
    rewrite (IH (n `div` 10)%N).
    + simpl. lia.
    + rewrite !Nat2N.inj_succ, !N.pow_succ_r' in Hn.
      rewrite Nat2N.inj_succ, N.pow_succ_r'.
      split.
      * apply N.div_le_lower_bound; lia.
      * apply N.Div0.div_lt_upper_bound; lia.
Qed.

Lemma pretty_length_1 (n : Z) : 0 <= n < 10 -> String.length (pretty n) = 1%nat.
Proof.
  intros Hn. destruct n as [|p|p]; [done| |lia].
  change (pretty (Z.pos p)) with (pretty_N_go (N.pos p) "").
  rewrite (pretty_N_go_length 0); [done|]. simpl. lia.
Qed.

Lemma pretty_length_2 (n : Z) : 10 <= n < 100 -> String.length (pretty n) = 2%nat.
Proof.
  intros Hn. destruct n as [|p|p]; [lia| |lia].
  change (pretty (Z.pos p)) with (pretty_N_go (N.pos p) "").
  rewrite (pretty_N_go_length 1); [done|]. simpl. lia.
Qed.

Lemma pretty_length_4 (n : Z) :
  1000 <= n < 10000 -> String.length (pretty n) = 4%nat.
Proof.
  intros Hn. destruct n as [|p|p]; [lia| |lia].
  change (pretty (Z.pos p)) with (pretty_N_go (N.pos p) "").
  rewrite (pretty_N_go_length 3); [done|]. simpl. lia.
Qed.

Lemma pad_num_2_length (n : Z) :
  0 <= n < 100 -> String.length (pad_num n 2) = 2%nat.
Proof.
  intros Hn. unfold pad_num. rewrite padStart_length.
  destruct (decide (n < 10)).
  - rewrite pretty_length_1 by lia. done.
  - rewrite pretty_length_2 by lia. done.
Qed.

Lemma time_fields_range t :
  0 <= df_hours (date_fields t) < 24 /\
  0 <= df_minutes (date_fields t) < 60 /\
  0 <= df_seconds (date_fields t) < 60.
Proof.
  unfold date_fields. destruct (civil_from_days (t / msPerDay)) as [[y m] d].
  simpl. unfold msPerDay. repeat split; Z.div_mod_to_equations; lia.
Qed.

(** In the years 1000 to 9999 the timestamp has nineteen characters. *)
Lemma _formatDate_length tz d :
  1000 <= df_year (local_fields tz d) <= 9999 ->
  String.length (_formatDate tz d) = 19%nat.
Proof.
  intros Hy. unfold _formatDate. cbv zeta. unfold local_fields in *.
  pose proof (date_fields_range (d + tz d)) as [Hm Hd].
  pose proof (time_fields_range (d + tz d)) as (Hh & Hmin & Hs).
  rewrite !string_length_app, pretty_length_4 by lia.
  rewrite !pad_num_2_length by lia. done.
Qed.

Lemma getLogLevelName_length lvl : (String.length (getLogLevelName lvl) <= 8)%nat.
Proof.
  unfold getLogLevelName, LogLevel.keys. cbn [List.find fst snd].
  repeat (destruct (_ =? lvl); [vm_compute; lia|]). vm_compute. lia.
Qed.



(** ** Removing the oldest files (handlers.js, [_cleanupOldFiles],
    [_removeOldBackups], [_getMatchingFiles]) *)

(** The files [_getMatchingFiles] lists: those named after the log file,
    a dot and anything. *)
Definition matching (base : string) (w : World) : list string :=
  List.filter (String.prefix (base +:+ ".")) (List.map fst (map_to_list (files w))).

(** The modification time the sort reads for a name. *)
Definition mtime_of (w : World) (p : string) : Z :=
  from_option mtime 0 (files w !! p).

(** The files the cleanup deletes when it keeps [keep]: the first of the
    matching files sorted by modification time. *)
Definition oldest_beyond (base : string) (keep : Z) (w : World) : list string :=
  let sorted := sort_by_mtime w (matching base w) in
  if keep <? Z.of_nat (length sorted)
  then take (Z.to_nat (Z.of_nat (length sorted) - keep)) sorted
  else [].

Definition by_mtime (x y : string * Z) : Prop := snd x <= snd y.

Lemma insert_by_mtime_perm x l : insert_by_mtime x l ≡ₚ x :: l.
Proof.
  induction l as [|y l IH]; [done|]. simpl.
  destruct (snd x <=? snd y); [done|]. rewrite IH. apply perm_swap.
Qed.

Lemma insert_by_mtime_sorted x l :
  StronglySorted by_mtime l -> StronglySorted by_mtime (insert_by_mtime x l).
Proof.
  induction l as [|y l IH]; intros Hs; simpl.
  - by repeat constructor.
  - apply StronglySorted_inv in Hs as [Hl Hy].
    destruct (Z.leb_spec (snd x) (snd y)) as [Hle|Hgt].
    + constructor; [by constructor|]. constructor; [done|].
      eapply Forall_impl; [exact Hy|]. intros z Hz. unfold by_mtime in *. lia.
    + constructor; [by apply IH|].
      rewrite insert_by_mtime_perm. constructor; [|done]. unfold by_mtime. lia.
Qed.

Lemma sort_pairs_perm (l : list (string * Z)) : foldr insert_by_mtime [] l ≡ₚ l.
Proof.
  induction l as [|x l IH]; [done|]. simpl.
  rewrite insert_by_mtime_perm. by f_equiv.
Qed.

Lemma sort_pairs_sorted (l : list (string * Z)) :
  StronglySorted by_mtime (foldr insert_by_mtime [] l).
Proof.
  induction l as [|x l IH]; simpl; [constructor|]. by apply insert_by_mtime_sorted.
Qed.

Lemma sort_by_mtime_perm w names : sort_by_mtime w names ≡ₚ names.
Proof.
  unfold sort_by_mtime. rewrite sort_pairs_perm, List.map_map. simpl.
  by rewrite List.map_id.
Qed.

(** In the sorted list a name comes before the names that are not older. *)
Lemma sort_by_mtime_split w names n p q :
  p ∈ take n (sort_by_mtime w names) ->
  q ∈ drop n (sort_by_mtime w names) ->
  mtime_of w p <= mtime_of w q.
Proof.
  unfold sort_by_mtime.
  set (pairs := List.map (fun p => (p, from_option mtime 0 (files w !! p))) names).
  set (sorted := foldr insert_by_mtime [] pairs).
  assert (Hsnd : Forall (fun x => snd x = mtime_of w (fst x)) sorted).
  { apply Forall_forall. intros x Hx.
    assert (Hin : x ∈ pairs) by (by rewrite <- (sort_pairs_perm pairs)).
    apply list_elem_of_In, in_map_iff in Hin as (p' & <- & _). done. }
  pose proof (sort_pairs_sorted pairs) as Hsorted. fold sorted in Hsorted.
  change (List.map fst sorted) with (fst <$> sorted).
  rewrite <- fmap_take, <- fmap_drop.
  intros (x & -> & Hx)%list_elem_of_fmap (y & -> & Hy)%list_elem_of_fmap.
  rewrite <- (take_drop n sorted) in Hsorted.
  pose proof (StronglySorted_app_1_elem_of _ _ _ _ _ Hsorted Hx Hy) as Hxy.
  assert (Hx' : x ∈ sorted) by (by eapply subseteq_take).
  assert (Hy' : y ∈ sorted) by (by eapply subseteq_drop).
  rewrite <- (proj1 (Forall_forall _ _) Hsnd x Hx').
  rewrite <- (proj1 (Forall_forall _ _) Hsnd y Hy'). exact Hxy.
Qed.

(** Deleting each of [ps], whether it exists or not. *)
Definition delete_all (ps : list string) (m : gmap string File) : gmap string File :=
  foldl (fun m p => delete p m) m ps.

Lemma lookup_delete_all ps m q :
  delete_all ps m !! q = if decide (q ∈ ps) then None else m !! q.
Proof.
  unfold delete_all. revert m. induction ps as [|p ps IH]; intros m.
  - destruct (decide (q ∈ [])) as [H|H]; [by apply elem_of_nil in H|done].
  - cbn [foldl]. rewrite IH.
    destruct (decide (q ∈ ps)) as [Hin|Hnin], (decide (q ∈ p :: ps)) as [Hin'|Hnin'];
      try done.
    + destruct Hnin'. by right.
    + apply elem_of_cons in Hin' as [->|?]; [apply lookup_delete_eq|done].
    + apply lookup_delete_ne. intros ->. apply Hnin'. by left.
Qed.

Lemma guarded_unlink_run p w :
  try_catch (unlinkSync p) (fun _ => mret tt) w
  = (set_files (delete p (files w)) w, Ok tt).
Proof.
  unfold try_catch, unlinkSync. destruct (files w !! p) eqn:Hp; [done|].
  simpl. rewrite delete_id by done. by destruct w.
Qed.

Lemma unlink_each_run ps w :
  for_each ps (fun oldFile => try_catch (unlinkSync oldFile) (fun _ => mret tt)) w
  = (set_files (delete_all ps (files w)) w, Ok tt).
Proof.
  revert w. induction ps as [|p ps IH]; intros w; simpl.
  - by destruct w.
  - rewrite exec_bind, guarded_unlink_run, IH. by destruct w.
Qed.

Lemma remove_oldest_run base keep w :
  remove_oldest base keep w
  = (set_files (delete_all (oldest_beyond base keep w) (files w)) w, Ok tt).
Proof.
  unfold remove_oldest, oldest_beyond. rewrite exec_bind.
  change (_getMatchingFiles base w) with (w, @Ok (list string) (matching base w)).
  cbv iota beta. rewrite exec_bind. unfold get at 1. cbv iota beta zeta.
  destruct (keep <? _).
  - apply unlink_each_run.
  - simpl. by destruct w.
Qed.

Lemma matching_elem base w p :
  p ∈ matching base w <->
  is_Some (files w !! p) /\ String.prefix (base +:+ ".") p = true.
Proof.
  unfold matching. rewrite list_elem_of_In, filter_In, <- list_elem_of_In.
  change (List.map fst (map_to_list (files w))) with (fst <$> map_to_list (files w)).
  rewrite list_elem_of_fmap. split.
  - intros [([q f] & -> & Hin) Hpre]. apply elem_of_map_to_list in Hin.
    split; [by exists f | done].
  - intros [[f Hf] Hpre]. split; [|done]. exists (p, f). split; [done|].
    by apply elem_of_map_to_list.
Qed.

Lemma matching_NoDup base w : NoDup (matching base w).
Proof.
  unfold matching. apply NoDup_ListNoDup, List.NoDup_filter, NoDup_ListNoDup.
  apply NoDup_fst_map_to_list.
Qed.

Lemma oldest_beyond_matching base keep w p :
  p ∈ oldest_beyond base keep w -> p ∈ matching base w.
Proof.
  unfold oldest_beyond. cbv zeta. destruct (keep <? _); [|by intros ?%elem_of_nil].
  intros Hp. apply subseteq_take in Hp. by rewrite sort_by_mtime_perm in Hp.
Qed.

(** X14. The cleanup of a rotation deletes only files named after the log
    file, a dot and anything, and of those the oldest by modification
    time: every file it deletes is at least as old as every such file it
    keeps. The files it keeps are unchanged, at most [keep] of the named
    files are left (none when [keep] is not positive), and when there were
    at most [keep] it deletes nothing. The log file itself is never
    deleted. It does not throw. *)
Theorem cleanup_keeps_newest_matching_files
    (base : string) (keep : Z) (w : World) :
  let w' := fst (remove_oldest base keep w) in
  let removed := oldest_beyond base keep w in
  snd (remove_oldest base keep w) = Ok tt /\
  (forall p, files w' !! p = if decide (p ∈ removed) then None else files w !! p) /\
  (forall p, p ∈ removed ->
     is_Some (files w !! p) /\ String.prefix (base +:+ ".") p = true) /\
  (base ∉ removed) /\
  (forall p q, p ∈ removed -> q ∈ matching base w' ->
     mtime_of w p <= mtime_of w q) /\
  Z.of_nat (length (matching base w')) <= Z.max 0 keep /\
  (Z.of_nat (length (matching base w)) <= keep -> w' = w).
Proof.
  cbv zeta. rewrite remove_oldest_run. cbn [fst snd].
  set (removed := oldest_beyond base keep w).
  set (w' := set_files _ w).
  assert (Hlook : forall p,
            files w' !! p = if decide (p ∈ removed) then None else files w !! p)
    by (intros p; apply lookup_delete_all).
  assert (Hsub : forall p, p ∈ removed -> p ∈ matching base w)
    by apply oldest_beyond_matching.
  assert (Hkept : forall q, q ∈ matching base w' <->
                            q ∈ matching base w /\ q ∉ removed).
  { intros q. rewrite !matching_elem, Hlook.
    destruct (decide (q ∈ removed)); [|tauto].
    split; [by intros [[] _]|tauto]. }
  pose proof (sort_by_mtime_perm w (matching base w)) as Hperm.
  set (sorted := sort_by_mtime w (matching base w)) in *.
  split; [done|]. split; [exact Hlook|]. split; [|split; [|split; [|split]]].
  - intros p Hp. by apply matching_elem, Hsub.
  - intros Hb. apply Hsub, matching_elem in Hb as [_ Hpre].
    assert (Hlen : (String.length (base +:+ ".") <= String.length base)%nat).
    { clear -Hpre. revert Hpre. generalize (base +:+ "."). intros s.
      revert s. induction base as [|c b IH]; intros [|c' s]; simpl; try done; try lia.
      destruct (Ascii.ascii_dec c' c); [|done]. intros H. apply IH in H. lia. }
    rewrite string_length_app in Hlen. simpl in Hlen. lia.
  - intros p q Hp Hq. apply Hkept in Hq as [Hq Hnq].
    unfold removed, oldest_beyond in Hp, Hnq. cbv zeta in Hp, Hnq. fold sorted in Hp, Hnq.
    destruct (keep <? Z.of_nat (length sorted)); [|by apply elem_of_nil in Hp].
    eapply sort_by_mtime_split; [exact Hp|].
    rewrite <- Hperm, <- (take_drop (Z.to_nat (Z.of_nat (length sorted) - keep)) sorted)
      in Hq.
    apply elem_of_app in Hq as [Hq|Hq]; [done|exact Hq].
  - assert (Hnd : NoDup sorted) by (rewrite Hperm; apply matching_NoDup).
    unfold removed, oldest_beyond in Hkept. cbv zeta in Hkept. fold sorted in Hkept.
    destruct (Z.ltb_spec keep (Z.of_nat (length sorted))) as [Hlt|Hge].
    + set (n := Z.to_nat (Z.of_nat (length sorted) - keep)) in *.
      assert (Hp : matching base w' ≡ₚ drop n sorted).
      { apply NoDup_Permutation.
        - apply matching_NoDup.
        - rewrite <- (take_drop n sorted) in Hnd. by apply NoDup_app in Hnd as (_ & _ & ?).
        - intros q. rewrite Hkept, <- Hperm.
          rewrite <- (take_drop n sorted) at 1. rewrite elem_of_app.
          rewrite <- (take_drop n sorted) in Hnd. apply NoDup_app in Hnd as (_ & Hd & _).
          split; [tauto|]. intros Hq. split; [by right|]. intros Hq'. by apply (Hd q). }
      rewrite Hp, length_drop. lia.
    + assert (Hp : matching base w' ≡ₚ sorted).
      { apply NoDup_Permutation; [apply matching_NoDup|done|].
        intros q. rewrite Hkept, <- Hperm. split; [tauto|].
        intros Hq. split; [done|]. apply not_elem_of_nil. }
      rewrite Hp. lia.
  - intros Hle. unfold w', removed, oldest_beyond. cbv zeta. fold sorted.
    rewrite <- Hperm in Hle. rewrite (proj2 (Z.ltb_ge _ _) Hle). simpl. by destruct w.
Qed.

(** ** Renumbering the backups (handlers.js, [RotatingFileHandler.rotate]) *)

(** What one step of the renumbering loop does to the files: backup [i],
    when there is one, becomes backup [i + 1], replacing it. *)
Definition shift_files (base : string) (i : Z) (m : gmap string File)
  : gmap string File :=
  match m !! backup_name base i with
  | Some f => <[backup_name base (i + 1) := f]> (delete (backup_name base i) m)
  | None => m
  end.

Lemma shift_backup_run base i w :
  shift_backup base i w = (set_files (shift_files base i (files w)) w, Ok tt).
Proof.
  unfold shift_backup, shift_files. cbv zeta. rewrite exec_bind.
  unfold existsSync at 1. cbv iota beta.
  assert (Hne : backup_name base (i + 1) <> backup_name base i)
    by (intros H%backup_name_inj; lia).
  destruct (files w !! backup_name base i) as [f|] eqn:Hsrc.
  2: { rewrite bool_decide_eq_false_2 by (by intros []). simpl. by destruct w. }
  rewrite bool_decide_eq_true_2 by done.
  rewrite exec_bind. unfold existsSync at 1. cbv iota beta.
  rewrite exec_bind. unfold unlinkSync, renameSync.
  destruct (files w !! backup_name base (i + 1)) as [g|] eqn:Hdst.
  - rewrite bool_decide_eq_true_2 by done. rewrite Hdst. simpl.
    rewrite lookup_delete_ne by done. rewrite Hsrc. simpl.
    rewrite (delete_delete (files w)), insert_delete_eq. done.
  - rewrite bool_decide_eq_false_2 by (by intros []). simpl. by rewrite Hsrc.
Qed.

(** The renumbering loop over the backups [n] down to 1. *)
Definition shift_all (base : string) (n : nat) (m : gmap string File)
  : gmap string File :=
  foldl (fun m i => shift_files base i m) m (rev (seqZ 1 (Z.of_nat n))).

Lemma shift_each_run base (l : list Z) w :
  for_each l (shift_backup base) w
  = (set_files (foldl (fun m i => shift_files base i m) (files w) l) w, Ok tt).
Proof.
  revert w. induction l as [|i l IH]; intros w; simpl.
  - by destruct w.
  - rewrite exec_bind, shift_backup_run, IH. done.
Qed.

Lemma shift_files_lookup base i m :
  shift_files base i m !! backup_name base (i + 1)
  = match m !! backup_name base i with
    | Some f => Some f
    | None => m !! backup_name base (i + 1)
    end /\
  shift_files base i m !! backup_name base i = None /\
  forall p, p <> backup_name base i -> p <> backup_name base (i + 1) ->
            shift_files base i m !! p = m !! p.
Proof.
  assert (Hne : backup_name base (i + 1) <> backup_name base i)
    by (intros H%backup_name_inj; lia).
  unfold shift_files. destruct (m !! backup_name base i) as [f|] eqn:Hsrc.
  - split; [apply lookup_insert_eq|]. split.
    + rewrite lookup_insert_ne by done. apply lookup_delete_eq.
    + intros p H1 H2. rewrite lookup_insert_ne by done. by apply lookup_delete_ne.
  - done.
Qed.

Lemma shift_all_lookup base (n : nat) m :
  (forall k, 2 <= k <= Z.of_nat n ->
     shift_all base n m !! backup_name base k = m !! backup_name base (k - 1)) /\
  ((1 <= n)%nat ->
   shift_all base n m !! backup_name base 1 = None /\
   shift_all base n m !! backup_name base (Z.of_nat n + 1)
   = match m !! backup_name base (Z.of_nat n) with
     | Some f => Some f
     | None => m !! backup_name base (Z.of_nat n + 1)
     end) /\
  (forall p, (forall k, 1 <= k <= Z.of_nat n + 1 -> p <> backup_name base k) ->
     shift_all base n m !! p = m !! p).
Proof.
  revert m. induction n as [|n IH]; intros m.
  { split; [intros k Hk; lia|]. split; [lia|]. done. }
  unfold shift_all. rewrite seqZ_S, rev_unit. cbn [foldl].
  fold (shift_all base n (shift_files base (1 + Z.of_nat n) m)).
  set (m1 := shift_files base (1 + Z.of_nat n) m).
  destruct (shift_files_lookup base (1 + Z.of_nat n) m) as (Hdst & Hsrc & Hother).
  fold m1 in Hdst, Hsrc, Hother.
  destruct (IH m1) as (IH1 & IH2 & IH3).
  assert (Hinj : forall a b, a <> b -> backup_name base a <> backup_name base b)
    by (intros a b Hab H%backup_name_inj; lia).
  replace (Z.of_nat (S n)) with (Z.of_nat n + 1) by lia.
  replace (1 + Z.of_nat n) with (Z.of_nat n + 1) in * by lia.
  split; [|split].
  - intros k Hk. destruct (decide (k = Z.of_nat n + 1)) as [->|Hne].
    + destruct IH2 as [_ IH2]; [lia|]. rewrite IH2, Hsrc.
      replace (Z.of_nat n + 1 - 1) with (Z.of_nat n) by lia.
      rewrite Hother by (apply Hinj; lia).
      by destruct (m !! backup_name base (Z.of_nat n)).
    + rewrite IH1 by lia. apply Hother; apply Hinj; lia.
  - intros _. split.
    + destruct n as [|n'].
      * unfold shift_all. simpl. exact Hsrc.
      * by apply IH2; lia.
    + rewrite IH3 by (intros k Hk; apply Hinj; lia).
      replace (Z.of_nat n + 1 + 1) with (Z.of_nat n + 1 + 1) by lia.
      exact Hdst.
  - intros p Hp. rewrite IH3 by (intros k Hk; apply Hp; lia).
    apply Hother; apply Hp; lia.
Qed.

(** The source of backup [k] in a rotation: backup [k - 1], and the log
    file itself for the first backup. *)
Definition rotation_source (path : string) (k : Z) : string :=
  if k =? 1 then path else backup_name path (k - 1).

Lemma backup_name_matching path k :
  String.prefix (path +:+ ".") (backup_name path k) = true.
Proof.
  unfold backup_name. generalize (pretty k). intros s.
  rewrite <- string_app_assoc. generalize (path +:+ "."). intros pre.
  induction pre as [|c pre IH]; simpl; [by destruct s|].
  by destruct (Ascii.ascii_dec c c).
Qed.

Lemma path_not_matching path : String.prefix (path +:+ ".") path = false.
Proof.
  induction path as [|c path IH]; [done|]. simpl.
  by destruct (Ascii.ascii_dec c c).
Qed.

(** What [rotate] leaves behind when the files named after the log file
    are its numbered backups. *)
Lemma rotate_run_renumbered
    (w : World) (hid : nat) (fmt : option Formatter) (lvl : option Z)
    (path : string) (md : OpenMode) (fo : option WriteStream)
    (maxBytes backupCount maxFiles : Z) :
  handlers w !! hid =
    Some (mkHandler fmt lvl
            (KRotating (mkFileState path md fo) maxBytes backupCount maxFiles)) ->
  1 <= backupCount <= maxFiles ->
  (forall p, p ∈ matching path w ->
             exists k, 1 <= k <= backupCount /\ p = backup_name path k) ->
  let w' := fst (RotatingFileHandler_rotate hid w) in
  snd (RotatingFileHandler_rotate hid w) = Ok tt /\
  files w' !! path = None /\
  (forall k, 1 <= k < backupCount ->
     files w' !! backup_name path k = files w !! rotation_source path k) /\
  files w' !! backup_name path backupCount
  = match files w !! rotation_source path backupCount with
    | Some f => Some f
    | None => files w !! backup_name path backupCount
    end /\
  (forall p, p <> path ->
     (forall k, 1 <= k <= backupCount -> p <> backup_name path k) ->
     files w' !! p = files w !! p) /\
  handlers w' !! hid =
    Some (mkHandler fmt lvl
            (KRotating (mkFileState path md None) maxBytes backupCount maxFiles)).
Proof.
  intros Hh Hbc Hfam. cbv zeta.
  pose proof (lookup_lt_Some _ _ _ Hh) as Hlt.
  set (n := Z.to_nat (backupCount - 1)).
  assert (Hn : Z.of_nat n = backupCount - 1) by lia.
  set (m2 := shift_all path n (files w)).
  set (m3 := match m2 !! path with
             | Some f => <[backup_name path 1 := f]> (delete path m2)
             | None => m2
             end).
  set (hs := <[hid := mkHandler fmt lvl
                       (KRotating (mkFileState path md None)
                          maxBytes backupCount maxFiles)]> (handlers w)).
  (* the renumbering and the renaming of the log file *)
  assert (Hrun : exists wb,
            RotatingFileHandler_rotate hid w = remove_oldest path maxFiles wb /\
            files wb = m3 /\ handlers wb = hs).
  { unfold RotatingFileHandler_rotate.
    rewrite exec_bind. unfold getH at 1. rewrite Hh. cbn [h_kind _file filename].
    rewrite exec_bind.
    assert (Hclose : exists wa,
      (match fo with Some _ => set_file hid None | None => mret tt end) w
      = (wa, Ok tt) /\ files wa = files w /\ handlers wa = hs).
    { destruct fo.
      - rewrite (set_file_rotating _ _ _ _ _ _ _ _ _ _ _ Hh). by eexists.
      - exists w. split; [done|]. split; [done|]. unfold hs.
        by rewrite list_insert_id. }
    destruct Hclose as (wa & -> & Hfa & Hha).
    rewrite exec_bind, shift_each_run. rewrite <- Hn. fold (shift_all path n (files wa)).
    rewrite Hfa. fold m2.
    rewrite exec_bind. unfold existsSync at 1. cbv iota beta.
    rewrite exec_bind. unfold _cleanupOldFiles, renameSync. cbn [files set_files].
    unfold m3. destruct (m2 !! path) as [f|] eqn:Hf.
    - rewrite bool_decide_eq_true_2 by done. cbn [files set_files]. rewrite Hf.
      eexists. split; [reflexivity|]. by split.
    - rewrite bool_decide_eq_false_2 by (by intros []).
      eexists. split; [reflexivity|]. by split. }
  destruct Hrun as (wb & -> & Hfb & Hhb).
  (* the files after the renaming *)
  destruct (shift_all_lookup path n (files w)) as (S1 & S2 & S3). fold m2 in S1, S2, S3.
  assert (Hpath2 : m2 !! path = files w !! path).
  { apply S3. intros k _. apply not_eq_sym, backup_name_not_path. }
  assert (Hinj : forall a b, a <> b -> backup_name path a <> backup_name path b)
    by (intros a b Hab H%backup_name_inj; lia).
  assert (L0 : m3 !! path = None).
  { unfold m3. destruct (m2 !! path) eqn:Hf; [|done].
    rewrite lookup_insert_ne by apply backup_name_not_path. apply lookup_delete_eq. }
  assert (L3 : forall p, p <> path -> p <> backup_name path 1 -> m3 !! p = m2 !! p).
  { intros p H1 H2. unfold m3. destruct (m2 !! path) eqn:Hf; [|done].
    rewrite lookup_insert_ne by done. by apply lookup_delete_ne. }
  assert (L1 : m3 !! backup_name path 1
               = match files w !! path with
                 | Some f => Some f
                 | None => m2 !! backup_name path 1
                 end).
  { unfold m3. rewrite <- Hpath2. destruct (m2 !! path) eqn:Hf; [|done].
    apply lookup_insert_eq. }
  assert (Lk : forall k, 1 <= k < backupCount ->
                 m3 !! backup_name path k = files w !! rotation_source path k).
  { intros k Hk. unfold rotation_source.
    destruct (Z.eqb_spec k 1) as [->|Hk1].
    - rewrite L1. destruct S2 as [S2 _]; [lia|]. rewrite S2.
      by destruct (files w !! path).
    - rewrite L3 by (first [apply backup_name_not_path | apply Hinj; lia]).
      apply S1. lia. }
  assert (Llast : m3 !! backup_name path backupCount
                  = match files w !! rotation_source path backupCount with
                    | Some f => Some f
                    | None => files w !! backup_name path backupCount
                    end).
  { unfold rotation_source. destruct (Z.eqb_spec backupCount 1) as [Hb1|Hb1].
    - rewrite Hb1, L1. assert (n = 0%nat) as Hn0 by lia.
      unfold m2. rewrite Hn0. done.
    - rewrite L3 by (first [apply backup_name_not_path | apply Hinj; lia]).
      destruct S2 as [_ S2]; [lia|]. rewrite Hn in S2.
      replace (backupCount - 1 + 1) with backupCount in S2 by lia. exact S2. }
  assert (Lother : forall p, p <> path ->
                     (forall k, 1 <= k <= backupCount -> p <> backup_name path k) ->
                     m3 !! p = files w !! p).
  { intros p Hp Hk. rewrite L3 by (first [done | apply Hk; lia]).
    apply S3. intros k Hk'. apply Hk. lia. }
  (* the cleanup finds nothing to delete *)
  assert (Hcount : Z.of_nat (length (matching path wb)) <= maxFiles).
  { assert (Hsub : matching path wb ⊆+ (backup_name path <$> seqZ 1 backupCount)).
    { apply NoDup_submseteq; [apply matching_NoDup|].
      intros p Hp. apply matching_elem in Hp as [Hex Hpre]. rewrite Hfb in Hex.
      destruct (decide (p ∈ backup_name path <$> seqZ 1 backupCount))
        as [Hin|Hno]; [done|].
      assert (Hp : p <> path).
      { intros ->. by rewrite path_not_matching in Hpre. }
      assert (Hk : forall k, 1 <= k <= backupCount -> p <> backup_name path k).
      { intros k Hk ->. apply Hno, list_elem_of_fmap. exists k. split; [done|].
        apply elem_of_seqZ. lia. }
      rewrite Lother in Hex by done.
      destruct (Hfam p) as (k & Hk' & ->); [by apply matching_elem|].
      by destruct (Hk k Hk'). }
    apply submseteq_length in Hsub. rewrite length_fmap, length_seqZ in Hsub. lia. }
  assert (Hnoop : remove_oldest path maxFiles wb = (wb, Ok tt)).
  { rewrite remove_oldest_run. unfold oldest_beyond. cbv zeta.
    pose proof (sort_by_mtime_perm wb (matching path wb)) as Hperm.
    rewrite <- Hperm in Hcount. rewrite (proj2 (Z.ltb_ge _ _) Hcount). simpl.
    by destruct wb. }
  rewrite Hnoop. cbn [fst snd]. rewrite Hfb, Hhb.
  split; [done|]. split; [exact L0|]. split; [exact Lk|]. split; [exact Llast|].
  split; [exact Lother|]. unfold hs. by apply list_lookup_insert_eq.
Qed.

(** X15. A rotation of a handler with [backupCount >= 1] renumbers the
    files without losing any but the oldest: when the files named after
    the log file are its backups 1 to [backupCount] and [maxFiles] allows
    that many, then after [rotate] the log file is gone, backup 1 is the
    old log file, each backup [k] up to [backupCount] is the old backup
    [k - 1] with its text and modification time, and what the old last
    backup held is dropped when there was a backup before it. Where
    backup [k - 1] was missing, backup [k] is missing afterwards, the old
    one having moved up, except that the last backup then stays as it
    was. No other file changes, and the handler is left without an open
    stream. *)
Theorem rotation_renumbers_backups
    (w : World) (hid : nat) (fmt : option Formatter) (lvl : option Z)
    (path : string) (md : OpenMode) (fo : option WriteStream)
    (maxBytes backupCount maxFiles : Z) :
  handlers w !! hid =
    Some (mkHandler fmt lvl
            (KRotating (mkFileState path md fo) maxBytes backupCount maxFiles)) ->
  1 <= backupCount <= maxFiles ->
  (forall p, p ∈ matching path w ->
             exists k, 1 <= k <= backupCount /\ p = backup_name path k) ->
  let w' := fst (RotatingFileHandler_rotate hid w) in
  snd (RotatingFileHandler_rotate hid w) = Ok tt /\
  files w' !! path = None /\
  (forall k, 1 <= k < backupCount ->
     files w' !! backup_name path k = files w !! rotation_source path k) /\
  files w' !! backup_name path backupCount
  = match files w !! rotation_source path backupCount with
    | Some f => Some f
    | None => files w !! backup_name path backupCount
    end /\
  (forall p, p <> path ->
     (forall k, 1 <= k <= backupCount -> p <> backup_name path k) ->
     files w' !! p = files w !! p) /\
  handlers w' !! hid =
    Some (mkHandler fmt lvl
            (KRotating (mkFileState path md None) maxBytes backupCount maxFiles)).
Proof. exact (rotate_run_renumbered w hid fmt lvl path md fo maxBytes backupCount maxFiles). Qed.

Lemma rotation_renumbers_witness :
  let w := emit_all 0 [sample_record "one"] (rotating_world 2) in
  let w' := fst (RotatingFileHandler_rotate 0 w) in
  files w' !! "app.log" = None /\
  files w' !! backup_name "app.log" 1 = files w !! rotation_source "app.log" 1.
Proof.
  cbv zeta.
  destruct (rotation_renumbers_backups
              (emit_all 0 [sample_record "one"] (rotating_world 2)) 0
              (Some default_formatter) None "app.log" ModeAppend
              (Some (mkWriteStream "app.log" 52)) 10 2 100)
    as (_ & H1 & H2 & _).
  - vm_compute. reflexivity.
  - lia.
  - intros p Hp.
    assert (Hm : matching "app.log" (emit_all 0 [sample_record "one"] (rotating_world 2))
                 = []) by (vm_compute; reflexivity).
    rewrite Hm in Hp. exact (False_ind _ (proj1 (elem_of_nil p) Hp)).
  - split; [exact H1|]. apply (H2 1). lia.
Defined.

(** ** A timed handler that keeps no backup *)

Lemma set_file_timed hid f w fmt lvl path md fo wh iv bc mf lr :
  handlers w !! hid =
    Some (mkHandler fmt lvl (KTimed (mkFileState path md fo) wh iv bc mf lr)) ->
  set_file hid f w =
  (set_handlers
     (<[hid := mkHandler fmt lvl (KTimed (mkFileState path md f) wh iv bc mf lr)]>
        (handlers w)) w,
   Ok tt).
Proof.
  intros Hh. unfold set_file. rewrite exec_bind. unfold getH. by rewrite Hh.
Qed.

(** With nothing to keep the cleanup deletes every file named after the
    log file and a dot. *)
Lemma remove_oldest_keeps_none base keep w p :
  keep <= 0 -> String.prefix (base +:+ ".") p = true ->
  files (fst (remove_oldest base keep w)) !! p = None.
Proof.
  intros Hk Hpre. rewrite remove_oldest_run. cbn [fst files set_files].
  rewrite lookup_delete_all.
  destruct (decide (p ∈ oldest_beyond base keep w)) as [|Hn]; [done|].
  destruct (files w !! p) as [f|] eqn:Hp; [|done]. destruct Hn.
  assert (Hm : p ∈ matching base w) by (apply matching_elem; eauto).
  unfold oldest_beyond. cbv zeta.
  pose proof (sort_by_mtime_perm w (matching base w)) as Hperm.
  rewrite <- Hperm in Hm. set (sorted := sort_by_mtime w (matching base w)) in *.
  destruct (Z.ltb_spec keep (Z.of_nat (length sorted))) as [Hlt|Hge].
  - rewrite take_ge by lia. done.
  - destruct sorted; [by apply elem_of_nil in Hm|simpl in Hge; lia].
Qed.

Lemma remove_oldest_other base keep w p :
  String.prefix (base +:+ ".") p = false ->
  files (fst (remove_oldest base keep w)) !! p = files w !! p.
Proof.
  intros Hpre. rewrite remove_oldest_run. cbn [fst files set_files].
  rewrite lookup_delete_all.
  destruct (decide (p ∈ oldest_beyond base keep w)) as [Hin|]; [|done].
  apply oldest_beyond_matching, matching_elem in Hin as [_ Hin]. congruence.
Qed.

(** The name [rotate] gives the backup: the log file's name and the time
    of the last rotation. *)
Definition timed_backup_name (w : World) (path : string) (lastRotation : Date)
  : string :=
  path +:+ "." +:+ _formatTimestamp (tz w) lastRotation.

Lemma timed_backup_name_matching w path lastRotation :
  String.prefix (path +:+ ".") (timed_backup_name w path lastRotation) = true.
Proof.
  unfold timed_backup_name. generalize (_formatTimestamp (tz w) lastRotation).
  intros s. rewrite <- string_app_assoc. generalize (path +:+ "."). intros pre.
  induction pre as [|c pre IH]; simpl; [by destruct s|].
  by destruct (Ascii.ascii_dec c c).
Qed.

(** [rotate] of a timed handler, step by step: the stream is dropped, the
    log file is renamed, the cleanup runs, and the time of the rotation is
    read from the clock. *)
Lemma timed_rotate_run hid w fmt lvl path md fo when interval backupCount maxFiles
    lastRotation :
  handlers w !! hid =
    Some (mkHandler fmt lvl
            (KTimed (mkFileState path md fo) when interval backupCount maxFiles
               lastRotation)) ->
  exists wb wc,
    TimedRotatingFileHandler_rotate hid w = (wc, Ok tt) /\
    files wb =
      match files w !! path with
      | Some f => <[timed_backup_name w path lastRotation := f]>
                    (delete path (files w))
      | None => files w
      end /\
    files wc = files (fst (remove_oldest path (Z.min backupCount maxFiles) wb)) /\
    handlers wc !! hid =
      Some (mkHandler fmt lvl
              (KTimed (mkFileState path md None) when interval backupCount maxFiles
                 (clock w (tick w)))) /\
    tick wc = S (tick w).
Proof.
  intros Hh. pose proof (lookup_lt_Some _ _ _ Hh) as Hlt.
  unfold TimedRotatingFileHandler_rotate.
  rewrite exec_bind. unfold getH at 1. rewrite Hh. cbn [h_kind _file filename].
  rewrite exec_bind.
  set (h1 := mkHandler fmt lvl
               (KTimed (mkFileState path md None) when interval backupCount
                  maxFiles lastRotation)).
  assert (Hclose : exists wa,
    (match fo with Some _ => set_file hid None | None => mret tt end) w
    = (wa, Ok tt) /\ files wa = files w /\ tz wa = tz w /\
    clock wa = clock w /\ tick wa = tick w /\
    handlers wa !! hid = Some h1).
  { destruct fo.
    - rewrite (set_file_timed _ _ _ _ _ _ _ _ _ _ _ _ _ Hh). eexists.
      split; [reflexivity|]. do 4 (split; [done|]).
      simpl. by apply list_lookup_insert_eq.
    - exists w. by repeat split. }
  destruct Hclose as (wa & -> & Hfa & Htza & Hca & Hta & Hha).
  rewrite exec_bind. unfold get at 1. cbv iota beta zeta. rewrite Htza.
  fold (timed_backup_name w path lastRotation).
  set (backupName := timed_backup_name w path lastRotation).
  rewrite exec_bind. unfold existsSync at 1. cbv iota beta.
  rewrite exec_bind.
  assert (Hren : exists wb,
    (if bool_decide (is_Some (files wa !! path))
     then renameSync path backupName else mret tt) wa = (wb, Ok tt) /\
    handlers wb = handlers wa /\ clock wb = clock w /\ tick wb = tick w /\
    files wb = match files w !! path with
               | Some f => <[backupName := f]> (delete path (files w))
               | None => files w
               end).
  { unfold renameSync. destruct (files w !! path) as [f|] eqn:Hf.
    - assert (Hf' : files wa !! path = Some f) by (by rewrite Hfa).
      rewrite bool_decide_eq_true_2 by (by rewrite Hf'). rewrite Hf'. eexists.
      split; [reflexivity|]. cbn [files set_files]. by rewrite Hfa.
    - assert (Hf' : files wa !! path = None) by (by rewrite Hfa).
      rewrite bool_decide_eq_false_2 by (rewrite Hf'; by intros []).
      exists wa. by repeat split. }
  destruct Hren as (wb & -> & Hhb & Hcb & Htb & Hfb).
  rewrite exec_bind. unfold _removeOldBackups.
  rewrite remove_oldest_run.
  set (wk := set_files _ wb).
  rewrite exec_bind. unfold new_Date at 1. cbv iota beta.
  unfold set_lastRotation. rewrite exec_bind. unfold getH at 1.
  assert (Hhk : handlers (set_tick (S (tick wk)) wk) !! hid = Some h1).
  { simpl. by rewrite Hhb. }
  rewrite Hhk. cbn [h_kind h1 h_formatter h_level].
  exists wb. eexists. split; [reflexivity|]. split; [exact Hfb|].
  split; [simpl; by rewrite remove_oldest_run|]. split.
  - simpl. rewrite Hcb, Htb. apply list_lookup_insert_eq. by rewrite Hhb, <- (lookup_lt_is_Some), Hha.
  - simpl. by rewrite Htb.
Qed.

(** X16. A timed handler with [backupCount] (or [maxFiles]) at zero or
    below keeps nothing of what it rotates: [rotate] renames the log file
    to its dated backup and the cleanup that follows deletes that backup
    with every other file named after the log file and a dot. After the
    rotation neither the log file nor any such file exists; files with
    other names are untouched. *)
Theorem timed_rotation_without_backups_deletes_the_log
    (w : World) (hid : nat) (fmt : option Formatter) (lvl : option Z)
    (path : string) (md : OpenMode) (fo : option WriteStream)
    (when : string) (interval backupCount maxFiles : Z) (lastRotation : Date) :
  handlers w !! hid =
    Some (mkHandler fmt lvl
            (KTimed (mkFileState path md fo) when interval backupCount maxFiles
               lastRotation)) ->
  Z.min backupCount maxFiles <= 0 ->
  let w' := fst (TimedRotatingFileHandler_rotate hid w) in
  snd (TimedRotatingFileHandler_rotate hid w) = Ok tt /\
  files w' !! path = None /\
  (forall p, String.prefix (path +:+ ".") p = true -> files w' !! p = None) /\
  (forall p, p <> path -> String.prefix (path +:+ ".") p = false ->
             files w' !! p = files w !! p).
Proof.
  intros Hh Hkeep. cbv zeta.
  destruct (timed_rotate_run _ _ _ _ _ _ _ _ _ _ _ _ Hh)
    as (wb & wc & -> & Hfb & Hfc & _). cbn [fst snd].
  pose proof (timed_backup_name_matching w path lastRotation) as Hbn.
  set (backupName := timed_backup_name w path lastRotation) in *.
  assert (Hne : backupName <> path).
  { intros Heq. rewrite Heq, path_not_matching in Hbn. discriminate. }
  rewrite Hfc. split; [done|]. split; [|split].
  - rewrite remove_oldest_other by apply path_not_matching. rewrite Hfb.
    destruct (files w !! path) eqn:Hf; [|done].
    rewrite lookup_insert_ne by done. apply lookup_delete_eq.
  - intros p Hp. by apply remove_oldest_keeps_none.
  - intros p Hp Hpre. rewrite remove_oldest_other by done. rewrite Hfb.
    destruct (files w !! path) eqn:Hf; [|done].
    rewrite lookup_insert_ne by (intros <-; congruence).
    by apply lookup_delete_ne.
Qed.

Lemma timed_rotation_without_backups_witness :
  let w :=
    emit_all 0 [sample_record "one"]
      (fst (new_TimedRotatingFileHandler "app.log" "midnight" 1 0 100
              (empty_world (fun n => 1793593800123 + Z.of_nat n) (fun _ => 0)))) in
  files (fst (TimedRotatingFileHandler_rotate 0 w)) !! "app.log" = None.
Proof.
  cbv zeta.
  refine (proj1 (proj2 (timed_rotation_without_backups_deletes_the_log
           (emit_all 0 [sample_record "one"]
              (fst (new_TimedRotatingFileHandler "app.log" "midnight" 1 0 100
                      (empty_world (fun n => 1793593800123 + Z.of_nat n)
                         (fun _ => 0)))))
           0 (Some default_formatter) None "app.log" ModeAppend
           (Some (mkWriteStream "app.log" 52)) "midnight" 1 0 100 1793593800123
           _ _))).
  - vm_compute. reflexivity.
  - vm_compute. discriminate.
Defined.


(** The cleanup deletes nothing when the files it lists are within what
    it keeps. *)
Lemma remove_oldest_within base keep w :
  Z.of_nat (length (matching base w)) <= keep ->
  files (fst (remove_oldest base keep w)) = files w.
Proof.
  intros Hle. rewrite remove_oldest_run. unfold oldest_beyond. cbv zeta.
  pose proof (sort_by_mtime_perm w (matching base w)) as Hperm.
  rewrite <- Hperm in Hle. by rewrite (proj2 (Z.ltb_ge _ _) Hle).
Qed.

(** ** What a rotation with [backupCount = 0] keeps *)

(** C6. With [backupCount = 0] a rotation does not truncate the log file
    and keeps a backup all the same: when the cleanup has room for one
    more file, the log file is moved, with its text and modification
    time, to [path.1], replacing an earlier one; nothing exists at [path]
    afterwards and no other file changes. *)
Theorem rotate_with_zero_backups_keeps_log_as_first
    (w : World) (hid : nat) (fmt : option Formatter) (lvl : option Z)
    (path : string) (md : OpenMode) (fo : option WriteStream)
    (maxBytes maxFiles : Z) (old : File) :
  handlers w !! hid =
    Some (mkHandler fmt lvl
            (KRotating (mkFileState path md fo) maxBytes 0 maxFiles)) ->
  files w !! path = Some old ->
  Z.of_nat (length (matching path w)) + 1 <= maxFiles ->
  let w' := fst (RotatingFileHandler_rotate hid w) in
  snd (RotatingFileHandler_rotate hid w) = Ok tt /\
  files w' !! path = None /\
  files w' !! backup_name path 1 = Some old /\
  (forall p, p <> path -> p <> backup_name path 1 ->
             files w' !! p = files w !! p).
Proof.
  intros Hh Hold Hroom. cbv zeta.
  assert (Hrun : exists wb,
            RotatingFileHandler_rotate hid w = remove_oldest path maxFiles wb /\
            files wb = <[backup_name path 1 := old]> (delete path (files w))).
  { unfold RotatingFileHandler_rotate.
    rewrite exec_bind. unfold getH at 1. rewrite Hh. cbn [h_kind _file filename].
    rewrite exec_bind.
    assert (Hclose : exists wa,
      (match fo with Some _ => set_file hid None | None => mret tt end) w
      = (wa, Ok tt) /\ files wa = files w).
    { destruct fo.
      - rewrite (set_file_rotating _ _ _ _ _ _ _ _ _ _ _ Hh). by eexists.
      - by eexists. }
    destruct Hclose as (wa & -> & Hfa).
    change (rev (seqZ 1 (0 - 1))) with (@nil Z). simpl for_each.
    rewrite exec_bind. change (@mret M M_ret unit tt wa) with (wa, @Ok unit tt).
    cbv iota beta.
    rewrite exec_bind. unfold existsSync at 1. cbv iota beta.
    rewrite exec_bind. unfold _cleanupOldFiles, renameSync.
    assert (Hf : files wa !! path = Some old) by (by rewrite Hfa).
    rewrite bool_decide_eq_true_2 by (by rewrite Hf). rewrite Hf.
    eexists. split; [reflexivity|]. simpl. by rewrite Hfa. }
  destruct Hrun as (wb & -> & Hfb).
  assert (Hne : backup_name path 1 <> path) by apply backup_name_not_path.
  assert (Hcount : Z.of_nat (length (matching path wb)) <= maxFiles).
  { assert (Hsub : matching path wb ⊆+ backup_name path 1 :: matching path w).
    { apply NoDup_submseteq; [apply matching_NoDup|].
      intros p Hp. apply matching_elem in Hp as [Hex Hpre]. rewrite Hfb in Hex.
      destruct (decide (p = backup_name path 1)) as [->|Hp]; [by left|right].
      rewrite lookup_insert_ne in Hex by done.
      destruct (decide (p = path)) as [->|Hp'].
      - by rewrite path_not_matching in Hpre.
      - rewrite lookup_delete_ne in Hex by done. by apply matching_elem. }
    apply submseteq_length in Hsub. simpl in Hsub. lia. }
  rewrite (remove_oldest_within _ _ _ Hcount), Hfb.
  split; [by rewrite remove_oldest_run|]. split; [|split].
  - rewrite lookup_insert_ne by done. apply lookup_delete_eq.
  - apply lookup_insert_eq.
  - intros p H1 H2. rewrite lookup_insert_ne by done. by apply lookup_delete_ne.
Qed.

Lemma rotate_with_zero_backups_keeps_log_witness :
  let w := emit_all 0 [sample_record "one"] (rotating_world 0) in
  files (fst (RotatingFileHandler_rotate 0 w)) !! backup_name "app.log" 1
  = Some (mkFile ("[2026-11-02 04:30:00] INFO     app            : one" +:+ newline) 1).
Proof.
  cbv zeta.
  refine (proj1 (proj2 (proj2
           (rotate_with_zero_backups_keeps_log_as_first
              (emit_all 0 [sample_record "one"] (rotating_world 0)) 0
              (Some default_formatter) None "app.log" ModeAppend
              (Some (mkWriteStream "app.log" 52)) 10 100
              (mkFile ("[2026-11-02 04:30:00] INFO     app            : one"
                       +:+ newline) 1)
              _ _ _)))).
  - vm_compute. reflexivity.
  - vm_compute. reflexivity.
  - vm_compute. discriminate.
Defined.

(** What the rotation of a timed handler leaves behind when the cleanup
    has nothing to delete. *)
Lemma timed_rotate_run_renamed
    (w : World) (hid : nat) (fmt : option Formatter) (lvl : option Z)
    (path : string) (md : OpenMode) (fo : option WriteStream)
    (when : string) (interval backupCount maxFiles : Z) (lastRotation : Date)
    (old : File) :
  handlers w !! hid =
    Some (mkHandler fmt lvl
            (KTimed (mkFileState path md fo) when interval backupCount maxFiles
               lastRotation)) ->
  files w !! path = Some old ->
  Z.of_nat (length (matching path w)) + 1 <= Z.min backupCount maxFiles ->
  let w' := fst (TimedRotatingFileHandler_rotate hid w) in
  let backupName := path +:+ "." +:+ _formatTimestamp (tz w) lastRotation in
  snd (TimedRotatingFileHandler_rotate hid w) = Ok tt /\
  files w' !! path = None /\
  files w' !! backupName = Some old /\
  (forall p, p <> path -> p <> backupName -> files w' !! p = files w !! p) /\
  handlers w' !! hid =
    Some (mkHandler fmt lvl
            (KTimed (mkFileState path md None) when interval backupCount maxFiles
               (clock w (tick w)))) /\
  tick w' = S (tick w).
Proof.
  intros Hh Hold Hroom. cbv zeta.
  destruct (timed_rotate_run _ _ _ _ _ _ _ _ _ _ _ _ Hh)
    as (wb & wc & -> & Hfb & Hfc & Hhc & Htc). cbn [fst snd].
  pose proof (timed_backup_name_matching w path lastRotation) as Hbn.
  fold (timed_backup_name w path lastRotation).
  set (backupName := timed_backup_name w path lastRotation) in *.
  assert (Hne : backupName <> path).
  { intros Heq. rewrite Heq, path_not_matching in Hbn. discriminate. }
  rewrite Hold in Hfb.
  assert (Hcount : Z.of_nat (length (matching path wb)) <= Z.min backupCount maxFiles).
  { assert (Hsub : matching path wb ⊆+ backupName :: matching path w).
    { apply NoDup_submseteq; [apply matching_NoDup|].
      intros p Hp. apply matching_elem in Hp as [Hex Hpre]. rewrite Hfb in Hex.
      destruct (decide (p = backupName)) as [->|Hp]; [by left|right].
      rewrite lookup_insert_ne in Hex by done.
      destruct (decide (p = path)) as [->|Hp'].
      - by rewrite path_not_matching in Hpre.
      - rewrite lookup_delete_ne in Hex by done. by apply matching_elem. }
    apply submseteq_length in Hsub. simpl in Hsub. lia. }
  rewrite Hfc, (remove_oldest_within _ _ _ Hcount), Hfb.
  split; [done|]. split; [|split; [|split]].
  - rewrite lookup_insert_ne by done. apply lookup_delete_eq.
  - apply lookup_insert_eq.
  - intros p H1 H2. rewrite lookup_insert_ne by done. by apply lookup_delete_ne.
  - by split.
Qed.

(** X17. When the cleanup has room for one more file, [rotate] of a timed
    handler moves the log file, with its text and modification time, to
    the log file's name followed by a dot and the time of the previous
    rotation, not the time of this one, replacing a file of that name;
    the log file is gone until the next write, no other file changes, and
    the handler takes the next reading of the clock as the time of its
    last rotation. *)
Theorem timed_rotation_names_backup_after_previous_rotation
    (w : World) (hid : nat) (fmt : option Formatter) (lvl : option Z)
    (path : string) (md : OpenMode) (fo : option WriteStream)
    (when : string) (interval backupCount maxFiles : Z) (lastRotation : Date)
    (old : File) :
  handlers w !! hid =
    Some (mkHandler fmt lvl
            (KTimed (mkFileState path md fo) when interval backupCount maxFiles
               lastRotation)) ->
  files w !! path = Some old ->
  Z.of_nat (length (matching path w)) + 1 <= Z.min backupCount maxFiles ->
  let w' := fst (TimedRotatingFileHandler_rotate hid w) in
  let backupName := path +:+ "." +:+ _formatTimestamp (tz w) lastRotation in
  snd (TimedRotatingFileHandler_rotate hid w) = Ok tt /\
  files w' !! path = None /\
  files w' !! backupName = Some old /\
  (forall p, p <> path -> p <> backupName -> files w' !! p = files w !! p) /\
  handlers w' !! hid =
    Some (mkHandler fmt lvl
            (KTimed (mkFileState path md None) when interval backupCount maxFiles
               (clock w (tick w)))) /\
  tick w' = S (tick w).
Proof. exact (timed_rotate_run_renamed w hid fmt lvl path md fo when interval backupCount maxFiles
         lastRotation old). Qed.

Lemma timed_rotation_names_backup_witness :
  let w :=
    emit_all 0 [sample_record "one"]
      (fst (new_TimedRotatingFileHandler "app.log" "midnight" 1 5 100
              (empty_world (fun n => 1793593800123 + Z.of_nat n) (fun _ => 0)))) in
  files (fst (TimedRotatingFileHandler_rotate 0 w))
    !! ("app.log" +:+ "." +:+ _formatTimestamp (tz w) 1793593800123)
  = Some (mkFile ("[2026-11-02 04:30:00] INFO     app            : one" +:+ newline) 1).
Proof.
  cbv zeta.
  refine (proj1 (proj2 (proj2 (timed_rotation_names_backup_after_previous_rotation
           (emit_all 0 [sample_record "one"]
              (fst (new_TimedRotatingFileHandler "app.log" "midnight" 1 5 100
                      (empty_world (fun n => 1793593800123 + Z.of_nat n)
                         (fun _ => 0)))))
           0 (Some default_formatter) None "app.log" ModeAppend
           (Some (mkWriteStream "app.log" 52)) "midnight" 1 5 100 1793593800123
           (mkFile ("[2026-11-02 04:30:00] INFO     app            : one" +:+ newline) 1)
           _ _ _)))).
  - vm_compute. reflexivity.
  - vm_compute. reflexivity.
  - vm_compute. discriminate.
Defined.

(** ** A rotating handler counts what it wrote, not the size of the file *)

(** X18. A rotating handler that has no open stream never rotates on
    [emit], however large the file already is: it opens the file and
    appends the line. The size it compares with [maxBytes] is the number
    of bytes written through the stream it has open, which starts again
    from zero each time the file is opened. *)
Theorem rotating_handler_without_stream_appends_whatever_the_size
    (w : World) (hid : nat) (fmt : option Formatter) (lvl : option Z)
    (path : string) (maxBytes backupCount maxFiles : Z)
    (old : File) (record : LogRecord) (line : string) :
  handlers w !! hid =
    Some (mkHandler fmt lvl
            (KRotating (mkFileState path ModeAppend None)
               maxBytes backupCount maxFiles)) ->
  files w !! path = Some old ->
  Formatter_format (tz w) (default default_formatter fmt) record = Ok line ->
  let w' := fst (RotatingFileHandler_emit hid record w) in
  snd (RotatingFileHandler_emit hid record w) = Ok tt /\
  content <$> files w' !! path = Some (content old +:+ (line +:+ newline)) /\
  (forall p, p <> path -> files w' !! p = files w !! p) /\
  handlers w' !! hid =
    Some (mkHandler (Some (default default_formatter fmt)) lvl
            (KRotating
               (mkFileState path ModeAppend
                  (Some (mkWriteStream path
                           (Z.of_nat (String.length (line +:+ newline))))))
               maxBytes backupCount maxFiles)).
Proof.
  intros Hh Hold Hline. cbv zeta. pose proof (lookup_lt_Some _ _ _ Hh) as Hlt.
  assert (Hrun : RotatingFileHandler_emit hid record w = FileHandler_emit hid record w).
  { unfold RotatingFileHandler_emit. rewrite exec_bind. unfold getH at 1.
    rewrite Hh. reflexivity. }
  rewrite Hrun.
  assert (Hon : stream_on_file w (mkFileState path ModeAppend None))
    by (intros ws Hws; discriminate).
  destruct (FileHandler_emit_run hid record w _ _ _ _ Hh eq_refl Hon)
    as (w' & Hrun' & Hc & Hother & Hh' & _).
  rewrite Hrun', Hline in *. cbn [fst snd written filename mode _file from_option] in *.
  unfold text_before in Hc. cbn [_file mode filename] in Hc. rewrite Hold in Hc.
  split; [done|]. split; [exact Hc|]. split; [exact Hother|].
  rewrite Hh'. by apply list_lookup_insert_eq.
Qed.

Lemma rotating_handler_without_stream_witness :
  let w :=
    fst (FileHandler_close 0 (emit_all 0 [sample_record "one"] (rotating_world 2))) in
  content <$> files (fst (RotatingFileHandler_emit 0 (sample_record "two") w))
              !! "app.log"
  = Some ("[2026-11-02 04:30:00] INFO     app            : one" +:+ newline +:+
          ("[2026-11-02 04:30:00] INFO     app            : two" +:+ newline)).
Proof.
  cbv zeta.
  refine (proj1 (proj2 (rotating_handler_without_stream_appends_whatever_the_size
           (fst (FileHandler_close 0
                   (emit_all 0 [sample_record "one"] (rotating_world 2))))
           0 (Some default_formatter) None "app.log" 10 2 100
           (mkFile ("[2026-11-02 04:30:00] INFO     app            : one" +:+ newline) 1)
           (sample_record "two")
           "[2026-11-02 04:30:00] INFO     app            : two" _ _ _))).
  - vm_compute. reflexivity.
  - vm_compute. reflexivity.
  - vm_compute. reflexivity.
Defined.

(** ** The registry of loggers (registry.js) *)

(** The map of the registry, from names to logger objects, in the order
    in which the names were first set. *)
Definition Registry := list (string * nat).

(** [map.get(k)]. *)
Fixpoint Map_get (k : string) (m : Registry) : option nat :=
  match m with
  | [] => None
  | (k', v) :: rest => if String.eqb k k' then Some v else Map_get k rest
  end.

(** [map.set(k, v)]: the value of an existing key is replaced where it is,
    a new key goes last. *)
Fixpoint Map_set (k : string) (v : nat) (m : Registry) : Registry :=
  match m with
  | [] => [(k, v)]
  | (k', v') :: rest =>
      if String.eqb k k' then (k, v) :: rest else (k', v') :: Map_set k v rest
  end.

(** [map.delete(k)]. *)
Fixpoint Map_delete (k : string) (m : Registry) : Registry :=
  match m with
  | [] => []
  | (k', v') :: rest =>
      if String.eqb k k' then rest else (k', v') :: Map_delete k rest
  end.

(** [getLogger(name)]: the registered logger, or [null]. *)
Definition getLogger (name : string) (registry : Registry) : option nat :=
  Map_get name registry.

(** [registerLogger(name, logger)]. *)
Definition registerLogger (name : string) (logger : nat) (registry : Registry)
  : Registry :=
  Map_set name logger registry.

(** [if (typeof handler.close === 'function') handler.close()]: the
    handlers of the file classes have a [close]. *)
Definition close_if_closable (hid : nat) : M unit := fun w =>
  match handlers w !! hid with
  | Some h =>
      match kind_fh (h_kind h) with
      | Some _ => FileHandler_close hid w
      | None => (w, Ok tt)
      end
  | None => (w, Ok tt)
  end.

(** [closeLogger(name)]: whether the name was registered, and the registry
    that is left. *)
Definition closeLogger (name : string) (registry : Registry)
  : M (bool * Registry) :=
  match Map_get name registry with
  | Some lid =>
      logger ← getL lid;
      for_each (lg_handlers logger) close_if_closable;;
      mret (true, Map_delete name registry)
  | None => mret (false, registry)
  end.

(** The loop of [closeAll] over the names. The iterator of the map is
    live, and the one change made while it runs is the deletion of the
    entry it has just given, so it gives the names the map had at the
    start, in order. *)
Fixpoint closeAll_names (names : list string) (registry : Registry) : M Registry :=
  match names with
  | [] => mret registry
  | name :: rest =>
      r ← closeLogger name registry;
      closeAll_names rest (snd r)
  end.

(** [closeAllLoggers()]. *)
Definition closeAllLoggers (registry : Registry) : M Registry :=
  closeAll_names (List.map fst registry) registry.

(** [getAllLoggers()]: a copy of the map. *)
Definition getAllLoggers (registry : Registry) : Registry := registry.

Lemma Map_get_set name logger registry k :
  Map_get k (Map_set name logger registry)
  = if String.eqb k name then Some logger else Map_get k registry.
Proof.
  induction registry as [|[k' v'] rest IH]; simpl.
  - done.
  - destruct (String.eqb_spec name k') as [->|Hne]; simpl.
    + by destruct (String.eqb k k').
    + rewrite IH. destruct (String.eqb_spec k k') as [->|Hne'].
      * by rewrite (proj2 (String.eqb_neq _ _) (not_eq_sym Hne)).
      * done.
Qed.

Lemma Map_keys_set name logger registry :
  List.map fst (Map_set name logger registry)
  = if bool_decide (name ∈ List.map fst registry)
    then List.map fst registry
    else List.map fst registry ++ [name].
Proof.
  induction registry as [|[k' v'] rest IH]; simpl; [done|].
  destruct (String.eqb_spec name k') as [->|Hne]; simpl.
  - by rewrite bool_decide_eq_true_2 by (by left).
  - rewrite IH. destruct (bool_decide (name ∈ List.map fst rest)) eqn:Hin.
    + apply bool_decide_eq_true in Hin.
      by rewrite bool_decide_eq_true_2 by (by right).
    + apply bool_decide_eq_false in Hin.
      rewrite bool_decide_eq_false_2; [done|].
      by intros [?|?]%elem_of_cons.
Qed.

Lemma Map_get_delete name registry k :
  NoDup (List.map fst registry) ->
  Map_get k (Map_delete name registry)
  = if String.eqb k name then None else Map_get k registry.
Proof.
  induction registry as [|[k' v'] rest IH]; intros Hnd; simpl.
  - by destruct (String.eqb k name).
  - simpl in Hnd. apply NoDup_cons in Hnd as [Hnot Hnd].
    destruct (String.eqb name k') eqn:E1.
    + apply String.eqb_eq in E1. destruct (String.eqb k name) eqn:E2.
      * apply String.eqb_eq in E2. subst.
        destruct (Map_get k' rest) eqn:Hg; [|done]. destruct Hnot.
        clear -Hg. induction rest as [|[a b] rest IH]; [done|]. simpl in *.
        destruct (String.eqb k' a) eqn:E; [apply String.eqb_eq in E; subst; by left|].
        right. auto.
      * subst. by rewrite E2.
    + simpl. rewrite IH by done. destruct (String.eqb k k') eqn:E2; [|done].
      apply String.eqb_eq in E2. subst. by rewrite String.eqb_sym, E1.
Qed.

(** X19. The registry is a map from names to loggers: [getLogger] gives
    the logger last registered under the name and [null] for a name that
    was never registered; registering under a name that is taken replaces
    the logger and leaves the other names and their order as they were.
    [closeLogger] of a name that is not registered returns [false] and
    changes neither the registry nor anything else. *)
Theorem registry_gives_last_registered_logger
    (registry : Registry) (name : string) (logger : nat) :
  getLogger name [] = None /\
  (forall k, getLogger k (registerLogger name logger registry)
             = if String.eqb k name then Some logger else getLogger k registry) /\
  (forall other,
     getLogger name (registerLogger name other (registerLogger name logger registry))
     = Some other /\
     List.map fst (registerLogger name other (registerLogger name logger registry))
     = List.map fst (registerLogger name logger registry)) /\
  (forall w, getLogger name registry = None ->
             closeLogger name registry w = (w, Ok (false, registry))).
Proof.
  unfold getLogger, registerLogger. split; [done|]. split; [|split].
  - intros k. apply Map_get_set.
  - intros other. split.
    + by rewrite Map_get_set, String.eqb_refl.
    + rewrite (Map_keys_set name other). rewrite bool_decide_eq_true_2; [done|].
      rewrite Map_keys_set. case_bool_decide; [done|].
      apply elem_of_app. right. by left.
  - intros w Hnone. unfold closeLogger. by rewrite Hnone.
Qed.

(** A handler after [close]: a handler of a file class has no stream, any
    other handler is as it was. *)
Definition closed_handler (h : Handler) : Handler :=
  match kind_fh (h_kind h) with
  | Some fs =>
      mkHandler (h_formatter h) (h_level h)
        (kind_with_fh (mkFileState (filename fs) (mode fs) None) (h_kind h))
  | None => h
  end.

(** The handlers of a registered logger. *)
Definition handlers_of (w : World) (registry : Registry) (name : string)
  : list nat :=
  match getLogger name registry with
  | Some lid => from_option lg_handlers [] (loggers w !! lid)
  | None => []
  end.

(** The handlers of the registered loggers, in the order in which
    [closeAllLoggers] reaches them. *)
Definition registered_handlers (w : World) (registry : Registry) : list nat :=
  flat_map (handlers_of w registry) (List.map fst registry).

Definition close_in (hs : list nat) (l : list Handler) : list Handler :=
  foldl (fun l h => alter closed_handler h l) l hs.

Lemma closed_handler_idem h : closed_handler (closed_handler h) = closed_handler h.
Proof.
  unfold closed_handler. destruct h as [fmt lvl k].
  destruct k; simpl; reflexivity.
Qed.

Lemma close_in_lookup hs l h :
  close_in hs l !! h
  = (if decide (h ∈ hs) then closed_handler else id) <$> l !! h.
Proof.
  unfold close_in. revert l. induction hs as [|x hs IH]; intros l.
  - destruct (decide (h ∈ [])) as [H|H]; [by apply elem_of_nil in H|].
    simpl. by destruct (l !! h).
  - cbn [foldl]. rewrite IH.
    destruct (decide (h = x)) as [->|Hne].
    + rewrite list_lookup_alter_eq. rewrite (decide_True (P := x ∈ x :: hs)) by (by left).
      destruct (l !! x) as [hx|]; [|by destruct (decide (x ∈ hs))].
      simpl. destruct (decide (x ∈ hs)); simpl; by rewrite ?closed_handler_idem.
    + rewrite list_lookup_alter_ne by done.
      destruct (decide (h ∈ hs)) as [Hin|Hnin].
      * by rewrite decide_True by (by right).
      * rewrite decide_False; [done|]. by intros [?|?]%elem_of_cons.
Qed.

Lemma world_eta_handlers w : set_handlers (handlers w) w = w.
Proof. by destruct w. Qed.

Lemma close_if_closable_run hid w :
  close_if_closable hid w
  = (set_handlers (alter closed_handler hid (handlers w)) w, Ok tt).
Proof.
  assert (Hid : forall h, handlers w !! hid = Some h -> closed_handler h = h ->
            set_handlers (alter closed_handler hid (handlers w)) w = w).
  { intros h Hh Hc.
    assert (Hl : alter closed_handler hid (handlers w) = handlers w).
    { apply list_eq. intros i. destruct (decide (i = hid)) as [->|Hne].
      - rewrite list_lookup_alter_eq, Hh. simpl. by rewrite Hc.
      - by rewrite list_lookup_alter_ne. }
    rewrite Hl. apply world_eta_handlers. }
  unfold close_if_closable. destruct (handlers w !! hid) as [h|] eqn:Hh.
  2: { assert (Hl : alter closed_handler hid (handlers w) = handlers w).
       { apply list_eq. intros i. destruct (decide (i = hid)) as [->|Hne].
         - by rewrite list_lookup_alter_eq, Hh.
         - by rewrite list_lookup_alter_ne. }
       by rewrite Hl, world_eta_handlers. }
  destruct h as [fmt lvl k]. cbn [h_kind].
  destruct (kind_fh k) as [fs|] eqn:Hk.
  - unfold FileHandler_close. rewrite exec_bind, (get_fh_run _ _ _ _ _ _ Hh Hk).
    destruct fs as [path md fo]. cbn [_file]. destruct fo as [ws|].
    + rewrite (set_file_run _ _ _ _ _ _ _ Hh Hk). cbn [filename mode]. f_equal. f_equal.
      apply list_eq. intros i. destruct (decide (i = hid)) as [->|Hne].
      * rewrite list_lookup_alter_eq, Hh. simpl.
        rewrite list_lookup_insert_eq by (by eapply lookup_lt_Some).
        unfold closed_handler. simpl. by rewrite Hk.
      * rewrite list_lookup_alter_ne by done. by rewrite list_lookup_insert_ne.
    + rewrite (Hid _ eq_refl); [done|]. unfold closed_handler. simpl.
      rewrite Hk. simpl. f_equal. by apply kind_with_same.
  - rewrite (Hid _ eq_refl); [done|]. unfold closed_handler. simpl. by rewrite Hk.
Qed.

Lemma close_each_run hs w :
  for_each hs close_if_closable w
  = (set_handlers (close_in hs (handlers w)) w, Ok tt).
Proof.
  unfold close_in. revert w. induction hs as [|h hs IH]; intros w; simpl.
  - by rewrite world_eta_handlers.
  - rewrite exec_bind, close_if_closable_run, IH. by destruct w.
Qed.

Lemma closeLogger_run name registry w lid logger :
  getLogger name registry = Some lid ->
  loggers w !! lid = Some logger ->
  closeLogger name registry w
  = (set_handlers (close_in (lg_handlers logger) (handlers w)) w,
     Ok (true, Map_delete name registry)).
Proof.
  unfold getLogger, closeLogger. intros -> Hl.
  rewrite exec_bind. unfold getL. rewrite Hl. cbv iota beta.
  rewrite exec_bind, close_each_run. done.
Qed.

Lemma Map_delete_keys name registry :
  NoDup (List.map fst registry) ->
  NoDup (List.map fst (Map_delete name registry)) /\
  forall k, k ∈ List.map fst (Map_delete name registry) ->
            k ∈ List.map fst registry.
Proof.
  induction registry as [|[k' v'] rest IH]; intros Hnd; simpl; [done|].
  simpl in Hnd. apply NoDup_cons in Hnd as [Hnot Hnd].
  destruct (String.eqb name k').
  - split; [done|]. intros k Hk. by right.
  - destruct (IH Hnd) as [IH1 IH2]. simpl. split.
    + apply NoDup_cons. split; [|done]. intros Hin. by apply Hnot, IH2.
    + intros k [->|Hk]%elem_of_cons; [by left|right; by apply IH2].
Qed.

Lemma closeAll_names_run names registry w :
  NoDup names ->
  NoDup (List.map fst registry) ->
  (forall name, name ∈ names ->
     exists lid, getLogger name registry = Some lid /\ is_Some (loggers w !! lid)) ->
  closeAll_names names registry w
  = (set_handlers (close_in (flat_map (handlers_of w registry) names) (handlers w)) w,
     Ok (foldl (fun r name => Map_delete name r) registry names)).
Proof.
  revert registry w. induction names as [|name names IH]; intros registry w Hn Hr Hreg.
  { simpl. by rewrite world_eta_handlers. }
  apply NoDup_cons in Hn as [Hnot Hn].
  destruct (Hreg name) as (lid & Hget & [logger Hl]); [by left|].
  cbn [closeAll_names]. rewrite exec_bind.
  rewrite (closeLogger_run _ _ _ _ _ Hget Hl). cbn [snd].
  set (w1 := set_handlers _ w).
  destruct (Map_delete_keys name registry Hr) as [Hr1 _].
  assert (Hget1 : forall k, k ∈ names ->
            getLogger k (Map_delete name registry) = getLogger k registry).
  { intros k Hk. unfold getLogger. rewrite Map_get_delete by done.
    rewrite (proj2 (String.eqb_neq k name)); [done|]. intros ->. done. }
  rewrite IH; [|done|done|].
  2: { intros k Hk. rewrite Hget1 by done. apply Hreg. by right. }
  assert (Hfm : flat_map (handlers_of w1 (Map_delete name registry)) names
                = flat_map (handlers_of w registry) names).
  { clear -Hget1. induction names as [|k names IHn]; [done|]. simpl.
    f_equal.
    - unfold handlers_of. rewrite Hget1 by (by left). done.
    - apply IHn. intros k' Hk'. apply Hget1. by right. }
  assert (Hho : handlers_of w registry name = lg_handlers logger).
  { unfold handlers_of. by rewrite Hget, Hl. }
  rewrite Hfm. cbn [flat_map foldl]. rewrite Hho. unfold close_in.
  rewrite foldl_app. reflexivity.
Qed.

Lemma delete_all_keys (registry : Registry) :
  foldl (fun r name => Map_delete name r) registry (List.map fst registry) = [].
Proof.
  induction registry as [|[k v] rest IH]; [done|]. simpl.
  by rewrite String.eqb_refl.
Qed.

Lemma Map_get_In name lid (registry : Registry) :
  (name, lid) ∈ registry -> NoDup (List.map fst registry) ->
  Map_get name registry = Some lid.
Proof.
  induction registry as [|[k v] rest IH]; intros Hin Hnd; [by apply elem_of_nil in Hin|].
  simpl in Hnd. apply NoDup_cons in Hnd as [Hnot Hnd]. simpl.
  apply elem_of_cons in Hin as [[= -> ->]|Hin]; [by rewrite String.eqb_refl|].
  destruct (String.eqb_spec name k) as [->|Hne]; [|by apply IH].
  destruct Hnot. apply list_elem_of_In, in_map_iff. exists (k, lid).
  split; [done|]. by apply list_elem_of_In.
Qed.

(** X20. [closeAllLoggers] closes the handlers of every registered logger
    and empties the registry: afterwards every name gives [null], each
    handler of a file class that some registered logger holds has no open
    stream, and every other handler, in particular one held only by a
    logger that was replaced under its name, is as it was, with its stream
    still open. No file is changed, and the loggers keep their handlers,
    so a logger that is still referenced opens its file again on its next
    record. *)
Theorem closeAllLoggers_closes_registered_handlers_only
    (w : World) (registry : Registry) :
  NoDup (List.map fst registry) ->
  (forall name lid, (name, lid) ∈ registry -> is_Some (loggers w !! lid)) ->
  let w' := fst (closeAllLoggers registry w) in
  snd (closeAllLoggers registry w) = Ok [] /\
  (forall hid,
     handlers w' !! hid
     = (if decide (hid ∈ registered_handlers w registry)
        then closed_handler else id) <$> handlers w !! hid) /\
  (forall hid h fs,
     hid ∈ registered_handlers w registry ->
     handlers w' !! hid = Some h -> kind_fh (h_kind h) = Some fs ->
     _file fs = None) /\
  files w' = files w /\
  loggers w' = loggers w.
Proof.
  intros Hnd Hreg. cbv zeta. unfold closeAllLoggers.
  rewrite closeAll_names_run; [|done|done|].
  2: { intros name Hin. apply list_elem_of_In, in_map_iff in Hin as ([k lid] & <- & Hin).
       apply list_elem_of_In in Hin. exists lid. split; [|by eapply Hreg].
       by apply Map_get_In. }
  cbn [fst snd]. rewrite delete_all_keys.
  fold (registered_handlers w registry).
  split; [done|]. split; [|split; [|done]].
  - intros hid. apply close_in_lookup.
  - intros hid h fs Hin Hh Hk. simpl in Hh. rewrite close_in_lookup in Hh.
    rewrite decide_True in Hh by done.
    destruct (handlers w !! hid) as [h0|]; [|done]. simpl in Hh.
    injection Hh as <-. unfold closed_handler in Hk.
    destruct h0 as [fmt lvl k]. simpl in Hk.
    destruct k; simpl in Hk; try done; by injection Hk as <-.
Qed.

(** Two loggers registered one after the other under the same name, each
    with a file handler of its own that has written a record. *)
Definition replaced_world : World :=
  fst ((first ← new_Logger "app";
        h1 ← new_Handler (KFile (mkFileState "first.log" ModeAppend None));
        addHandler first h1;;
        second ← new_Logger "app";
        h2 ← new_Handler (KFile (mkFileState "second.log" ModeAppend None));
        addHandler second h2;;
        info 1 first "one" [];;
        info 1 second "two" [])
       (empty_world (fun n => 1793593800123 + Z.of_nat n) (fun _ => 0))).

Lemma closeAllLoggers_witness :
  let registry := registerLogger "app" 1 (registerLogger "app" 0 []) in
  let w' := fst (closeAllLoggers registry replaced_world) in
  handlers w' !! 0%nat = handlers replaced_world !! 0%nat /\
  handlers w' !! 1%nat = closed_handler <$> handlers replaced_world !! 1%nat.
Proof.
  cbv zeta.
  destruct (closeAllLoggers_closes_registered_handlers_only replaced_world
              (registerLogger "app" 1 (registerLogger "app" 0 [])))
    as (_ & H & _).
  - vm_compute. repeat constructor. intros Hin. inversion Hin.
  - intros name lid Hin. vm_compute in Hin.
    inversion Hin as [|? ? ? Hin']; subst; [by eexists|inversion Hin'].
  - split.
    + rewrite (H 0%nat). rewrite decide_False; [by destruct (handlers _ !! _)|].
      vm_compute. intros Hin. inversion Hin as [|? ? ? Hin']; subst. inversion Hin'.
    + rewrite (H 1%nat). rewrite decide_True; [done|]. vm_compute. by left.
Defined.

(** ** A context that is [null] *)

(** X21. When the argument left for the context is [null], the formatters
    cannot read [exc_text] from it and throw. A logger without parent
    whose one handler is a console handler with a simple or JSON
    formatter then writes the record to no stream: the call returns, and
    the only output is the line [Handler error: ...] with the message of
    the [TypeError] on the standard error stream. An argument that is
    [undefined] does not have this effect: the call does what it does
    without that argument. *)
Theorem null_context_loses_the_record
    (fuel lid hid : nat) (lvl : Z) (msg : string)
    (w : World) (this : Logger) (fmt : option Formatter) (hl : option Z)
    (s : option Stream) :
  loggers w !! lid = Some this ->
  lg_handlers this = [hid] ->
  lg_parent this = None ->
  lg_level this <= lvl ->
  count_percent_s msg = 0%nat ->
  handlers w !! hid = Some (mkHandler fmt hl (KConsole s)) ->
  fmt <> Some BaseFormatter ->
  let w' := fst (_log (S fuel) lid lvl msg [VNull] w) in
  snd (_log (S fuel) lid lvl msg [VNull] w) = Ok tt /\
  stdout w' = stdout w /\
  user_streams w' = user_streams w /\
  stderr w'
  = stderr w ++ ["Handler error: Cannot read properties of null (reading 'exc_text')"
                 +:+ newline] /\
  _log (S fuel) lid lvl msg [VUndef] w = _log (S fuel) lid lvl msg [] w.
Proof.
  intros Hl Hhs Hpar Hle Hc Hh Hfmt. cbv zeta.
  set (e := Error "Cannot read properties of null (reading 'exc_text')").
  set (record := build_record this lvl msg [VNull] (clock w (tick w))).
  assert (Hex : extra record = VNull).
  { unfold record. rewrite build_record_context, Hc. done. }
  set (w1 := set_tick (S (tick w)) w).
  assert (Hh1 : handlers w1 !! hid = Some (mkHandler fmt hl (KConsole s))) by done.
  assert (Hthrow : Formatter_format (tz w1) (default default_formatter fmt) record
                   = Throw e).
  { destruct fmt as [[| |ts nm]|]; simpl; try done;
      unfold SimpleFormatter_format, JSONFormatter_format, JSONFormatter_data;
      cbv zeta; by rewrite Hex. }
  assert (Hd : exists wf,
            dispatch [hid] record w1 = (wf, Ok tt) /\
            stdout wf = stdout w /\ user_streams wf = user_streams w /\
            stderr wf
            = stderr w ++ ["Handler error: " +:+ exn_message e +:+ newline]).
  { unfold dispatch. cbn [for_each]. rewrite exec_bind. unfold try_catch at 1.
    rewrite (console_emit hid record w1 _ _ _ Hh1). cbv zeta. rewrite Hthrow.
    unfold console_error, stream_write, modify. cbn [fst snd].
    eexists. split; [reflexivity|]. done. }
  destruct Hd as (wf & Hd & Hso & Hus & Hse).
  assert (Hrun : _log (S fuel) lid lvl msg [VNull] w = (wf, Ok tt)).
  { rewrite (_log_accepted _ _ _ _ _ _ this) by done. cbv zeta.
    rewrite Hpar, Hhs. fold record. fold w1. rewrite Hd.
    by destruct (lg_propagate this). }
  rewrite Hrun. cbn [fst snd].
  split; [done|]. split; [done|]. split; [done|]. split; [exact Hse|].
  rewrite !(_log_accepted _ _ _ _ _ _ this) by done. cbv zeta. rewrite Hpar.
  assert (Hrec : build_record this lvl msg [VUndef] (clock w (tick w))
                 = build_record this lvl msg [] (clock w (tick w))).
  { unfold build_record, new_LogRecord.
    rewrite !format_args_rest, !format_args_verbatim by (by left).
    rewrite Hc. reflexivity. }
  rewrite Hrec. by destruct (lg_propagate this).
Qed.

Lemma null_context_witness :
  stderr (fst (_log 1 0 LogLevel.INFO "saved" [VNull]
                 (fst ((root ← new_Logger "app";
                        c ← new_Handler (KConsole None);
                        addHandler root c)
                       (empty_world (fun n => 1793593800123 + Z.of_nat n)
                          (fun _ => 0))))))
  = [] ++ ["Handler error: Cannot read properties of null (reading 'exc_text')"
           +:+ newline].
Proof.
  refine (proj1 (proj2 (proj2 (proj2
           (null_context_loses_the_record 0 0 0 LogLevel.INFO "saved"
              (fst ((root ← new_Logger "app";
                     c ← new_Handler (KConsole None);
                     addHandler root c)
                    (empty_world (fun n => 1793593800123 + Z.of_nat n)
                       (fun _ => 0))))
              (mkLogger "app" LogLevel.INFO [0%nat] true None ∅) None None None
              eq_refl eq_refl eq_refl _ eq_refl eq_refl _))))).
  - done.
  - discriminate.
Defined.

(** ** The text a placeholder is replaced by *)

Lemma replace_percent_s_at_placeholder post args :
  replace_percent_s ("%s" +:+ post) args
  = (toString (fst (shift args)) +:+ fst (replace_percent_s post (snd (shift args))),
     snd (replace_percent_s post (snd (shift args)))).
Proof.
  change ("%s" +:+ post) with (String "%" (String "s" post)).
  by rewrite replace_percent_s_step.
Qed.



Example placeholders_sample :
  replace_percent_s "user %s from %s" [VStr "bob"] = ("user bob from undefined", []).
Proof. reflexivity. Qed.

(** ** A record that arrives when the file is full *)

(** X23. When the stream of a rotating handler has written [maxBytes] or
    more and the files named after the log file are its backups 1 to
    [backupCount], [emit] moves the log file to backup 1, every backup
    [k - 1] there was to backup [k], and writes the record as the only
    line of a new log file; the record that finds the file full is not
    written into it. No other file changes, and the handler counts the
    bytes of the new file from that line on. *)
Theorem emit_into_full_file_starts_new_file
    (w : World) (hid : nat) (fmt : option Formatter) (lvl : option Z)
    (path : string) (md : OpenMode) (ws : WriteStream)
    (maxBytes backupCount maxFiles : Z)
    (old : File) (record : LogRecord) (line : string) :
  handlers w !! hid =
    Some (mkHandler fmt lvl
            (KRotating (mkFileState path md (Some ws))
               maxBytes backupCount maxFiles)) ->
  maxBytes <= bytesWritten ws ->
  1 <= backupCount <= maxFiles ->
  (forall p, p ∈ matching path w ->
             exists k, 1 <= k <= backupCount /\ p = backup_name path k) ->
  files w !! path = Some old ->
  Formatter_format (tz w) (default default_formatter fmt) record = Ok line ->
  let w' := fst (RotatingFileHandler_emit hid record w) in
  snd (RotatingFileHandler_emit hid record w) = Ok tt /\
  content <$> files w' !! path = Some (line +:+ newline) /\
  files w' !! backup_name path 1 = Some old /\
  (forall k f, 2 <= k <= backupCount ->
     files w !! backup_name path (k - 1) = Some f ->
     files w' !! backup_name path k = Some f) /\
  (forall p, p <> path ->
     (forall k, 1 <= k <= backupCount -> p <> backup_name path k) ->
     files w' !! p = files w !! p) /\
  handlers w' !! hid =
    Some (mkHandler (Some (default default_formatter fmt)) lvl
            (KRotating
               (mkFileState path md
                  (Some (mkWriteStream path
                           (Z.of_nat (String.length (line +:+ newline))))))
               maxBytes backupCount maxFiles)).
Proof.
  intros Hh Hfull Hbc Hfam Hold Hline. cbv zeta.
  destruct (rotate_run_renumbered w hid fmt lvl path md (Some ws)
              maxBytes backupCount maxFiles Hh Hbc Hfam)
    as (Hok & H0 & Hk & Hlast & Hother & Hh1).
  pose proof (frame_tz _ _ (frame_RotatingFileHandler_rotate hid w)) as Htz.
  assert (Hrun : RotatingFileHandler_emit hid record w
                 = FileHandler_emit hid record
                     (fst (RotatingFileHandler_rotate hid w))).
  { unfold RotatingFileHandler_emit. rewrite exec_bind. unfold getH at 1.
    rewrite Hh. cbn [h_kind _file]. rewrite exec_bind.
    rewrite (proj2 (Z.leb_le _ _) Hfull).
    destruct (RotatingFileHandler_rotate hid w) as [w1 r].
    cbn [fst snd] in Hok |- *. by rewrite Hok. }
  rewrite Hrun. clear Hrun.
  set (w1 := fst (RotatingFileHandler_rotate hid w)) in *.
  assert (Hon : stream_on_file w1 (mkFileState path md None))
    by (intros ws' Hws; discriminate).
  destruct (FileHandler_emit_run hid record w1 _ _ _ _ Hh1 eq_refl Hon)
    as (w2 & Hrun & Hc & Hoth & Hh2 & _).
  rewrite Htz, Hline in Hrun, Hc, Hh2. rewrite Hrun.
  cbn [fst snd written filename mode _file from_option kind_with_fh] in *.
  assert (Hbefore : text_before w1 (mkFileState path md None) = "").
  { unfold text_before. cbn [_file mode filename]. rewrite H0. by destruct md. }
  rewrite Hbefore in Hc.
  assert (Hne : forall k, backup_name path k <> path)
    by (intros k; apply backup_name_not_path).
  split; [done|]. split; [exact Hc|]. split; [|split; [|split]].
  - rewrite Hoth by apply Hne.
    destruct (decide (backupCount = 1)) as [Hb|Hb].
    + rewrite Hb in Hlast. unfold rotation_source in Hlast. simpl in Hlast.
      by rewrite Hlast, Hold.
    + rewrite Hk by lia. unfold rotation_source. simpl. exact Hold.
  - intros k f Hk' Hf. rewrite Hoth by apply Hne.
    assert (Hsrc : rotation_source path k = backup_name path (k - 1)).
    { unfold rotation_source. by destruct (Z.eqb_spec k 1); [lia|]. }
    destruct (decide (k = backupCount)) as [->|Hkb].
    + by rewrite Hlast, Hsrc, Hf.
    + rewrite Hk by lia. by rewrite Hsrc.
  - intros p Hp Hpk. rewrite Hoth by done. by apply Hother.
  - rewrite Hh2. apply list_lookup_insert_eq.
    apply lookup_lt_Some in Hh1. done.
Qed.

Lemma emit_into_full_file_witness :
  let w := emit_all 0 [sample_record "one"] (rotating_world 2) in
  let w' := fst (RotatingFileHandler_emit 0 (sample_record "two") w) in
  content <$> files w' !! "app.log"
  = Some ("[2026-11-02 04:30:00] INFO     app            : two" +:+ newline) /\
  files w' !! backup_name "app.log" 1
  = Some (mkFile ("[2026-11-02 04:30:00] INFO     app            : one" +:+ newline) 1).
Proof.
  cbv zeta.
  destruct (emit_into_full_file_starts_new_file
              (emit_all 0 [sample_record "one"] (rotating_world 2)) 0
              (Some default_formatter) None "app.log" ModeAppend
              (mkWriteStream "app.log" 52) 10 2 100
              (mkFile ("[2026-11-02 04:30:00] INFO     app            : one" +:+ newline) 1)
              (sample_record "two")
              "[2026-11-02 04:30:00] INFO     app            : two")
    as (_ & H1 & H2 & _).
  - vm_compute. reflexivity.
  - simpl. lia.
  - lia.
  - intros p Hp.
    assert (Hm : matching "app.log" (emit_all 0 [sample_record "one"] (rotating_world 2))
                 = []) by (vm_compute; reflexivity).
    rewrite Hm in Hp. exact (False_ind _ (proj1 (elem_of_nil p) Hp)).
  - vm_compute. reflexivity.
  - vm_compute. reflexivity.
  - split; [exact H1|exact H2].
Defined.

(** ** A record of a new period *)

(** X24. When [shouldRotate] holds for the record's time and the cleanup
    has room for one more file, [emit] of a timed handler moves the log
    file to the name that carries the time of the previous rotation and
    writes the record as the only line of a new log file. No other file
    changes; the handler takes the reading of the clock at the rotation,
    not the record's time, as the time of its last rotation. *)
Theorem emit_in_new_period_starts_new_file
    (w : World) (hid : nat) (fmt : option Formatter) (lvl : option Z)
    (path : string) (md : OpenMode) (fo : option WriteStream)
    (when : string) (interval backupCount maxFiles : Z) (lastRotation : Date)
    (old : File) (record : LogRecord) (line : string) :
  handlers w !! hid =
    Some (mkHandler fmt lvl
            (KTimed (mkFileState path md fo) when interval backupCount maxFiles
               lastRotation)) ->
  shouldRotate (tz w) when interval lastRotation (timestamp record) = true ->
  files w !! path = Some old ->
  Z.of_nat (length (matching path w)) + 1 <= Z.min backupCount maxFiles ->
  Formatter_format (tz w) (default default_formatter fmt) record = Ok line ->
  let w' := fst (TimedRotatingFileHandler_emit hid record w) in
  let backupName := path +:+ "." +:+ _formatTimestamp (tz w) lastRotation in
  snd (TimedRotatingFileHandler_emit hid record w) = Ok tt /\
  content <$> files w' !! path = Some (line +:+ newline) /\
  files w' !! backupName = Some old /\
  (forall p, p <> path -> p <> backupName -> files w' !! p = files w !! p) /\
  handlers w' !! hid =
    Some (mkHandler (Some (default default_formatter fmt)) lvl
            (KTimed
               (mkFileState path md
                  (Some (mkWriteStream path
                           (Z.of_nat (String.length (line +:+ newline))))))
               when interval backupCount maxFiles (clock w (tick w)))).
Proof.
  intros Hh Hrot Hold Hroom Hline. cbv zeta.
  destruct (timed_rotate_run_renamed w hid fmt lvl path md fo when interval
              backupCount maxFiles lastRotation old Hh Hold Hroom)
    as (Hok & H0 & Hb & Hother & Hh1 & _).
  pose proof (frame_tz _ _ (frame_TimedRotatingFileHandler_rotate hid w)) as Htz.
  assert (Hrun : TimedRotatingFileHandler_emit hid record w
                 = FileHandler_emit hid record
                     (fst (TimedRotatingFileHandler_rotate hid w))).
  { unfold TimedRotatingFileHandler_emit. rewrite exec_bind. unfold getH at 1.
    rewrite Hh. cbn [h_kind]. rewrite exec_bind. unfold get at 1.
    cbv iota beta. rewrite exec_bind, Hrot.
    destruct (TimedRotatingFileHandler_rotate hid w) as [w1 r].
    cbn [fst snd] in Hok |- *. by rewrite Hok. }
  rewrite Hrun. clear Hrun.
  set (w1 := fst (TimedRotatingFileHandler_rotate hid w)) in *.
  assert (Hon : stream_on_file w1 (mkFileState path md None))
    by (intros ws' Hws; discriminate).
  destruct (FileHandler_emit_run hid record w1 _ _ _ _ Hh1 eq_refl Hon)
    as (w2 & Hrun & Hc & Hoth & Hh2 & _).
  rewrite Htz, Hline in Hrun, Hc, Hh2. rewrite Hrun.
  cbn [fst snd written filename mode _file from_option kind_with_fh] in *.
  assert (Hbefore : text_before w1 (mkFileState path md None) = "").
  { unfold text_before. cbn [_file mode filename]. rewrite H0. by destruct md. }
  rewrite Hbefore in Hc.
  assert (Hne : path +:+ "." +:+ _formatTimestamp (tz w) lastRotation <> path).
  { intros Heq. pose proof (timed_backup_name_matching w path lastRotation) as Hm.
    unfold timed_backup_name in Hm. rewrite Heq, path_not_matching in Hm.
    discriminate. }
  split; [done|]. split; [exact Hc|]. split; [|split].
  - rewrite Hoth by exact Hne. exact Hb.
  - intros p Hp Hpb. rewrite Hoth by done. by apply Hother.
  - rewrite Hh2. apply list_lookup_insert_eq.
    apply lookup_lt_Some in Hh1. done.
Qed.

Lemma emit_in_new_period_witness :
  let w :=
    emit_all 0 [sample_record "one"]
      (fst (new_TimedRotatingFileHandler "app.log" "midnight" 1 5 100
              (empty_world (fun n => 1793593800123 + Z.of_nat n) (fun _ => 0)))) in
  let record := mkLogRecord "app" LogLevel.INFO "two" 1793680200123 (VObj []) in
  let w' := fst (TimedRotatingFileHandler_emit 0 record w) in
  content <$> files w' !! "app.log"
  = Some ("[2026-11-03 04:30:00] INFO     app            : two" +:+ newline) /\
  files w' !! ("app.log" +:+ "." +:+ _formatTimestamp (tz w) 1793593800123)
  = Some (mkFile ("[2026-11-02 04:30:00] INFO     app            : one" +:+ newline) 1).
Proof.
  cbv zeta.
  destruct (emit_in_new_period_starts_new_file
              (emit_all 0 [sample_record "one"]
                 (fst (new_TimedRotatingFileHandler "app.log" "midnight" 1 5 100
                         (empty_world (fun n => 1793593800123 + Z.of_nat n)
                            (fun _ => 0)))))
              0 (Some default_formatter) None "app.log" ModeAppend
              (Some (mkWriteStream "app.log" 52)) "midnight" 1 5 100 1793593800123
              (mkFile ("[2026-11-02 04:30:00] INFO     app            : one" +:+ newline) 1)
              (mkLogRecord "app" LogLevel.INFO "two" 1793680200123 (VObj []))
              "[2026-11-03 04:30:00] INFO     app            : two")
    as (_ & H1 & H2 & _).
  - vm_compute. reflexivity.
  - vm_compute. reflexivity.
  - vm_compute. reflexivity.
  - vm_compute. discriminate.
  - vm_compute. reflexivity.
  - split; [exact H1|exact H2].
Defined.
